(** * Catalogue synchronisation worker: a shallow embedding

    The development follows the three Python modules of the worker:
    - [apps/worker/catalogue_health_service.py]: [similar], the two platform
      availability checks and [run_catalogue_health_check];
    - [apps/worker/streams_service.py]: [spotify_request_with_retries],
      [search_track], [fetch_album] and [run_streams_collection];
    - [apps/worker/main.py]: [run_all_tasks]; the playlist collection it
      calls in between writes to a table of its own and appears only through
      its outcome.

    A second part covers the rest of the worker: [sniff_tokens] and the
    headers of [fetch_album], [apps/worker/playlist_followers_service.py]
    with tables of its own, and the HTTP endpoints of [apps/worker/main.py].

    Python values that come back from the network are JSON documents, Python
    exceptions are an explicit [Raise] result, and the database connection is
    a pair of a committed and a working copy of the two snapshot tables.
    What the Unicode tables of the runtime say about text that is not plain
    ASCII is a parameter, [Runtime]; the examples at the end are about ASCII
    text. *)

From Stdlib Require Import String Ascii Bool Arith ZArith QArith List Sorted Lia.
From Stdlib Require Import DecimalString.
Import ListNotations.

Close Scope Q_scope.
Open Scope nat_scope.

Set Warnings "-register-all".

Set Implicit Arguments.

(** ** Python's [difflib.SequenceMatcher]

    [similar] delegates to [difflib.SequenceMatcher(None, a, b).ratio()].
    The matcher is generic in the element type; [isjunk] is [None], so the
    junk set is empty, and [autojunk] keeps its default [True]. *)
Module Difflib.

Section SequenceMatcher.

Variable A : Type.
Variable eq_dec : forall x y : A, {x = y} + {x <> y}.

(** A matching block [(i, j, k)]: [a[i:i+k] == b[j:j+k]]. *)
Definition Match : Type := (nat * nat * nat)%type.

Definition block_size (m : Match) : nat := snd m.

(** Positions of [x] in [l], in increasing order, numbered from [start]. *)
Fixpoint indices_from (x : A) (l : list A) (start : nat) : list nat :=
  match l with
  | [] => []
  | y :: l' =>
      if eq_dec y x then start :: indices_from x l' (S start)
      else indices_from x l' (S start)
  end.

(** [__chain_b]: [b2j] maps an element to its positions in [b]; when [b]
    has 200 elements or more, an element with more than [n // 100 + 1]
    occurrences is "popular" and loses its entry.  The function below is
    [b2j.get(x, [])] on the finished dictionary. *)
Definition chain_b (b : list A) (x : A) : list nat :=
  let idxs := indices_from x b 0 in
  let n := length b in
  if (200 <=? n) && (n / 100 + 1 <? length idxs) then [] else idxs.

(** [j2len] is a dictionary from positions of [b] to lengths, read with
    default 0; [j2len_prev m j] is [j2len.get(j-1, 0)], where the key
    [-1] is never present. *)
Definition j2len_prev (m : nat -> nat) (j : nat) : nat :=
  match j with
  | 0 => 0
  | S j' => m j'
  end.

Definition j2len_set (m : nat -> nat) (j k : nat) : nat -> nat :=
  fun j' => if j' =? j then k else m j'.

Definition j2len_empty : nat -> nat := fun _ => 0.

Variables a b : list A.

Definition same_elt (x y : option A) : bool :=
  match x, y with
  | Some u, Some v => if eq_dec u v then true else false
  | _, _ => false
  end.

(** The inner loop of [find_longest_match]: [for j in b2j.get(a[i], nothing)],
    with its [continue] below [blo] and its [break] from [bhi] on.  The new
    best block starts at [i-k+1], [j-k+1]. *)
Fixpoint flm_row (js : list nat) (i blo bhi : nat) (j2len newj2len : nat -> nat)
    (best : Match) : (nat -> nat) * Match :=
  match js with
  | [] => (newj2len, best)
  | j :: js' =>
      if j <? blo then flm_row js' i blo bhi j2len newj2len best
      else if bhi <=? j then (newj2len, best)
      else
        let k := j2len_prev j2len j + 1 in
        let newj2len' := j2len_set newj2len j k in
        if snd best <? k
        then flm_row js' i blo bhi j2len newj2len' (i + 1 - k, j + 1 - k, k)
        else flm_row js' i blo bhi j2len newj2len' best
  end.

Definition b2j_at (i : nat) : list nat :=
  match nth_error a i with
  | Some x => chain_b b x
  | None => []
  end.

(** The outer loop, [for i in range(alo, ahi)]. *)
Fixpoint flm_rows (rows : list nat) (blo bhi : nat) (j2len : nat -> nat)
    (best : Match) : Match :=
  match rows with
  | [] => best
  | i :: rows' =>
      let '(newj2len, best') :=
        flm_row (b2j_at i) i blo bhi j2len j2len_empty best in
      flm_rows rows' blo bhi newj2len best'
  end.

(** First [while]: extend the block to the left while the elements before
    it agree.  The recursion is on [besti], which the loop decrements. *)
Fixpoint extend_back (alo blo besti bestj bestsize : nat) {struct besti} : Match :=
  match besti, bestj with
  | S i', S j' =>
      if (alo <? besti) && (blo <? bestj)
         && same_elt (nth_error a i') (nth_error b j')
      then extend_back alo blo i' j' (S bestsize)
      else (besti, bestj, bestsize)
  | _, _ => (besti, bestj, bestsize)
  end.

(** Second [while]: extend to the right.  [n] bounds the iterations by the
    room left before [ahi]. *)
Fixpoint extend_fwd (n ahi bhi besti bestj bestsize : nat) : nat :=
  match n with
  | 0 => bestsize
  | S n' =>
      if (besti + bestsize <? ahi) && (bestj + bestsize <? bhi)
         && same_elt (nth_error a (besti + bestsize)) (nth_error b (bestj + bestsize))
      then extend_fwd n' ahi bhi besti bestj (S bestsize)
      else bestsize
  end.

(** [find_longest_match(alo, ahi, blo, bhi)].  The two closing loops of the
    Python method only absorb junk elements and never run here. *)
Definition find_longest_match (alo ahi blo bhi : nat) : Match :=
  let '(besti, bestj, bestsize) :=
    flm_rows (seq alo (ahi - alo)) blo bhi j2len_empty (alo, blo, 0) in
  let '(besti, bestj, bestsize) := extend_back alo blo besti bestj bestsize in
  let bestsize := extend_fwd (ahi - (besti + bestsize)) ahi bhi besti bestj bestsize in
  (besti, bestj, bestsize).

Definition Rect : Type := (nat * nat * nat * nat)%type.

(** The work-list loop of [get_matching_blocks].  The head of [queue] is the
    entry [queue.pop()] returns; [None] means the step budget ran out. *)
Fixpoint matching_blocks_loop (fuel : nat) (queue : list Rect) (acc : list Match)
    : option (list Match) :=
  match queue with
  | [] => Some acc
  | (alo, ahi, blo, bhi) :: queue' =>
      match fuel with
      | 0 => None
      | S fuel' =>
          let '(i, j, k) := find_longest_match alo ahi blo bhi in
          if k =? 0 then matching_blocks_loop fuel' queue' acc
          else
            let left := if (alo <? i) && (blo <? j) then [(alo, i, blo, j)] else [] in
            let right :=
              if (i + k <? ahi) && (j + k <? bhi) then [(i + k, ahi, j + k, bhi)] else [] in
            matching_blocks_loop fuel' (right ++ left ++ queue') ((i, j, k) :: acc)
      end
  end.

Definition matching_fuel : nat := 2 * length a + 1.

Definition get_matching_blocks : list Match :=
  match matching_blocks_loop matching_fuel [(0, length a, 0, length b)] [] with
  | Some blocks => blocks
  | None => []
  end.

(** [sum(triple[-1] for triple in self.get_matching_blocks())]: the sorting,
    the merging of adjacent blocks and the closing [(la, lb, 0)] of the
    Python method leave the sum as it is. *)
Definition matches : nat := list_sum (map block_size get_matching_blocks).

End SequenceMatcher.

(** Vocabulary for the invariants of the matcher's loops. *)
Section Invariants.

Variable A : Type.
Variable eq_dec : forall x y : A, {x = y} + {x <> y}.
Variable a : list A.

(** A block lies inside the rectangle it was searched in. *)
Definition in_rect (alo ahi blo bhi : nat) (m : Match) : Prop :=
  let '(i, j, k) := m in alo <= i /\ i + k <= ahi /\ blo <= j /\ j + k <= bhi.

(** Every length recorded for row [i - 1] fits between the lower corner of
    the rectangle and the cell it is recorded for. *)
Definition j2len_ok (alo blo i : nat) (m : nat -> nat) : Prop :=
  forall j, m j <= i - alo /\ m j <= j + 1 - blo.

Definition rect_ok (r : Rect) : Prop :=
  let '(alo, ahi, blo, bhi) := r in alo <= ahi /\ blo <= bhi.

Definition width (r : Rect) : nat := let '(alo, ahi, _, _) := r in ahi - alo.
Definition height (r : Rect) : nat := let '(_, _, blo, bhi) := r in bhi - blo.

(** The work still queued, counted so that every step of the loop uses up
    at least one unit of it. *)
Definition queue_work (q : list Rect) : nat :=
  list_sum (map (fun r => 2 * width r + 1) q).

Definition sizes (l : list Match) : nat := list_sum (map block_size l).

(** [run i]: how many consecutive positions ending at [i] hold an element
    that kept its [b2j] entry. *)
Definition kept (i : nat) : bool :=
  match b2j_at eq_dec a a i with
  | [] => false
  | _ :: _ => true
  end.

Fixpoint run (i : nat) : nat :=
  match i with
  | 0 => if kept 0 then 1 else 0
  | S i' => if kept (S i') then S (run i') else 0
  end.

Definition lens_below (m : nat -> nat) (bound : nat) : Prop :=
  forall j, m j <= run j /\ m j <= bound.

Definition best_diag (i : nat) (best : Match) : Prop :=
  fst (fst best) = snd (fst best) /\ forall j, j < i -> run j <= snd best.

End Invariants.

(** [_calculate_ratio]: [2.0 * matches / length], and [1.0] for two empty
    sequences.  The quotient is kept as an exact rational; the float
    division rounds it monotonically, and 0 and 1 are floats. *)
Definition calculate_ratio (matches length : nat) : Q :=
  if length =? 0 then 1%Q
  else (Z.of_nat (2 * matches) # Pos.of_nat length)%Q.

Definition ratio (A : Type) (eq_dec : forall x y : A, {x = y} + {x <> y})
    (a b : list A) : Q :=
  calculate_ratio (matches eq_dec a b) (length a + length b).

End Difflib.

(** ** Python strings

    A [str] is held as the string of its UTF-8 bytes: equality,
    concatenation, emptiness, [startswith] and [split] at an ASCII separator
    are those of the text.  [lower_char] and [upper_char] map the ASCII
    letters and leave every other byte alone, so that [lower] and [upper]
    are [str.lower()] and [str.upper()] on ASCII text; the codes
    [search_track] compares in upper case are ISRCs, whose letters are
    ASCII. *)

Definition chars (s : string) : list ascii := list_ascii_of_string s.

Definition lower_char (c : ascii) : ascii :=
  let n := nat_of_ascii c in
  if (65 <=? n) && (n <=? 90) then ascii_of_nat (n + 32) else c.

Definition upper_char (c : ascii) : ascii :=
  let n := nat_of_ascii c in
  if (97 <=? n) && (n <=? 122) then ascii_of_nat (n - 32) else c.

Fixpoint lower (s : string) : string :=
  match s with
  | EmptyString => EmptyString
  | String c s' => String (lower_char c) (lower s')
  end.

Fixpoint upper (s : string) : string :=
  match s with
  | EmptyString => EmptyString
  | String c s' => String (upper_char c) (upper s')
  end.

(** Text all of whose characters are ASCII. *)
Definition is_ascii (s : string) : bool :=
  forallb (fun c => nat_of_ascii c <? 128) (chars s).

(** ** Python values and exceptions *)

Open Scope string_scope.
Open Scope list_scope.
Open Scope nat_scope.

(** The exception classes the worker meets.  [HTTPError], [ConnectionError]
    and [Timeout] derive from [requests.exceptions.RequestException],
    [ProgrammingError] is psycopg2's; every class listed derives from
    [Exception]. *)
Inductive exc_class : Type :=
| RequestException
| HTTPError
| ConnectionError
| Timeout
| AttributeError
| TypeError
| ValueError
| KeyError
| IndexError
| RuntimeError
| UnboundLocalError
| DatabaseError
| ProgrammingError
| AsyncioTimeoutError
| SpotifyException.

Record exn : Type := Exn { exc_type : exc_class; exc_msg : string }.

(** [isinstance(e, requests.exceptions.RequestException)]. *)
Definition is_request_exception (e : exn) : bool :=
  match exc_type e with
  | RequestException | HTTPError | ConnectionError | Timeout => true
  | _ => false
  end.

(** The outcome of a Python call: a value or a raised exception. *)
Inductive result (A : Type) : Type :=
| Ok (a : A)
| Raise (e : exn).

Arguments Ok {A} a.
Arguments Raise {A} e.

Definition bind {A B : Type} (x : result A) (f : A -> result B) : result B :=
  match x with
  | Ok a => f a
  | Raise e => Raise e
  end.

Notation "x <- c1 ;; c2" := (bind c1 (fun x => c2))
  (at level 61, c1 at next level, right associativity).

(** A decoded JSON document.  Numbers are integers: a float never prints as
    digits only and no field read here is compared with one.  A dict lists
    each of its keys once. *)
Inductive json : Type :=
| JNull
| JBool (b : bool)
| JInt (z : Z)
| JStr (s : string)
| JList (l : list json)
| JDict (kvs : list (string * json)).

(** Python truthiness, [bool(v)]. *)
Definition truthy (v : json) : bool :=
  match v with
  | JNull => false
  | JBool b => b
  | JInt z => negb (z =? 0)%Z
  | JStr s => negb (String.length s =? 0)
  | JList l => negb (List.length l =? 0)
  | JDict kvs => negb (List.length kvs =? 0)
  end.

Fixpoint assoc (k : string) (kvs : list (string * json)) : option json :=
  match kvs with
  | [] => None
  | (k', v) :: rest => if String.eqb k k' then Some v else assoc k rest
  end.

(** [d.get(k, default)]; only a dict has the method. *)
Definition py_get (d : json) (k : string) (default : json) : result json :=
  match d with
  | JDict kvs =>
      match assoc k kvs with
      | Some v => Ok v
      | None => Ok default
      end
  | _ => Raise (Exn AttributeError "object has no attribute 'get'")
  end.

(** A value that is no dict: it has no [get]. *)
Definition not_object (v : json) : Prop := forall kvs, v <> JDict kvs.

Definition no_get : exn := Exn AttributeError "object has no attribute 'get'".

(** The elements a [for] loop visits: the items of a list, the keys of a
    dict, the characters of a string; anything else is not iterable. *)
Definition py_iter (v : json) : result (list json) :=
  match v with
  | JList l => Ok l
  | JDict kvs => Ok (map (fun kv => JStr (fst kv)) kvs)
  | JStr s => Ok (map (fun c => JStr (String c EmptyString)) (chars s))
  | _ => Raise (Exn TypeError "object is not iterable")
  end.

(** [v[0]]. *)
Definition py_first (v : json) : result json :=
  match v with
  | JList (x :: _) => Ok x
  | JList [] => Raise (Exn IndexError "list index out of range")
  | JStr (String c _) => Ok (JStr (String c EmptyString))
  | JStr EmptyString => Raise (Exn IndexError "string index out of range")
  | JDict _ => Raise (Exn KeyError "0")
  | _ => Raise (Exn TypeError "object is not subscriptable")
  end.

(** [str(z)] for an integer. *)
Definition str_of_int (z : Z) : string := NilZero.string_of_int (Z.to_int z).

Definition is_digit_char (c : ascii) : bool :=
  let n := nat_of_ascii c in (48 <=? n) && (n <=? 57).

(** At least one character, all of them the ASCII digits 0 to 9. *)
Definition ascii_digits (s : string) : bool :=
  negb (String.length s =? 0) && forallb is_digit_char (chars s).

(** The number a string of ASCII digits writes. *)
Definition digits_value (s : string) : Z :=
  fold_left (fun acc c => (10 * acc + Z.of_nat (nat_of_ascii c - 48))%Z) (chars s) 0%Z.

(** [v.upper()]: a string method.  It is applied to codes, whose letters
    are ASCII. *)
Definition py_upper (v : json) : result string :=
  match v with
  | JStr s => Ok (upper s)
  | _ => Raise (Exn AttributeError "object has no attribute 'upper'")
  end.

(** ** The runtime

    What [str.lower()], [str.isdigit()] and [int()] make of text that is not
    plain ASCII is decided by the Unicode tables of the runtime, how many
    digits [int()] converts by its version, and how a list or a dict prints
    by the [repr] of its elements.  These are a parameter of the
    development: every statement holds whatever they say. *)
Class Runtime : Type := {
  unicode_lower : string -> list N;    (* the code points of s.lower() *)
  unicode_isdigit : string -> bool;    (* s.isdigit() *)
  unicode_int : string -> option N;    (* int(s) where s.isdigit(); None: ValueError *)
  container_str : json -> string       (* str(v) for a list or a dict *)
}.

(** A runtime that knows ASCII only and abbreviates containers. *)
Definition ascii_only : Runtime :=
  {| unicode_lower := fun s => map N_of_ascii (chars (lower s));
     unicode_isdigit := ascii_digits;
     unicode_int := fun _ => None;
     container_str := fun v => match v with
                               | JList _ => "[...]"
                               | _ => "{...}"
                               end |}.

Section Worker.

Context {U : Runtime}.

(** [str(v)] as an f-string interpolates it. *)
Definition py_str (v : json) : string :=
  match v with
  | JNull => "None"
  | JBool true => "True"
  | JBool false => "False"
  | JInt z => str_of_int z
  | JStr s => s
  | JList _ | JDict _ => container_str v
  end.

(** [s.lower()], as the sequence of its code points. *)
Definition str_lower (s : string) : list N :=
  if is_ascii s then map N_of_ascii (chars (lower s)) else unicode_lower s.

(** [s.isdigit()]: on ASCII text, at least one character and all of them
    digits. *)
Definition isdigit (s : string) : bool :=
  if is_ascii s then ascii_digits s else unicode_isdigit s.

(** The number of digits [int()] converts in every version of Python: from
    3.11 on a longer text raises [ValueError]. *)
Definition INT_MAX_STR_DIGITS : nat := 4300.

Definition invalid_literal : exn :=
  Exn ValueError "invalid literal for int() with base 10".

(** [int(s)] where [s.isdigit()] holds.  A digit that is no decimal digit,
    a superscript for one, makes [int] raise. *)
Definition int_of_str (s : string) : result Z :=
  if ascii_digits s && (String.length s <=? INT_MAX_STR_DIGITS) then Ok (digits_value s)
  else
    match unicode_int s with
    | Some n => Ok (Z.of_N n)
    | None => Raise invalid_literal
    end.

(** [int(v)]. *)
Definition py_int (v : json) : result Z :=
  match v with
  | JInt z => Ok z
  | JBool b => Ok (if b then 1 else 0)%Z
  | JStr s => int_of_str s
  | _ => Raise (Exn TypeError "int() argument must be a string or a real number")
  end.

(** ** catalogue_health_service.similar *)

Definition similar (a b : string) : Q :=
  if (String.length a =? 0) || (String.length b =? 0) then 0%Q
  else Difflib.ratio N.eq_dec (str_lower a) (str_lower b).

(** ** HTTP *)

Record response : Type := Response { status_code : Z; resp_json : json }.

(** What one call of [requests.request] does: it returns a response or
    raises. *)
Inductive attempt : Type :=
| Responds (r : response)
| Fails (e : exn).

(** The network as a caller sees it: the outcome of its first, second, ...
    attempt. *)
Definition network : Type := nat -> attempt.

(** [response.raise_for_status()]: statuses 400 to 599 raise [HTTPError]. *)
Definition raise_for_status (r : response) : result response :=
  if (400 <=? status_code r)%Z && (status_code r <? 600)%Z
  then Raise (Exn HTTPError (str_of_int (status_code r)))
  else Ok r.

(** ** streams_service.spotify_request_with_retries *)

(** What the executor does besides returning: the attempts it makes, the
    warnings it logs and the seconds it sleeps. *)
Inductive event : Type :=
| Request (attempt : nat)
| Warning (attempt : nat) (e : exn)
| Sleep (seconds : nat).

Definition all_retries_failed (url : string) : exn :=
  Exn RequestException ("All retry attempts to " ++ url ++ " failed")%string.

(** [requests.request(...)] followed by [raise_for_status()]. *)
Definition attempt_outcome (a : attempt) : result response :=
  match a with
  | Responds r => raise_for_status r
  | Fails e => Raise e
  end.

(** [for attempt in range(3)], with the statement after the loop as the
    empty case. *)
Fixpoint retry_loop (url : string) (attempts : list nat) (net : network)
    : result response * list event :=
  match attempts with
  | [] => (Raise (all_retries_failed url), [])
  | attempt :: rest =>
      match attempt_outcome (net attempt) with
      | Ok r => (Ok r, [Request attempt])
      | Raise e =>
          if is_request_exception e then
            if attempt <? 2 then
              let '(res, evs) := retry_loop url rest net in
              (res, Request attempt :: Warning attempt e :: Sleep (2 ^ attempt) :: evs)
            else (Raise e, [Request attempt; Warning attempt e])
          else (Raise e, [Request attempt])
      end
  end.

Definition spotify_request_with_retries (url : string) (net : network)
    : result response * list event :=
  retry_loop url (seq 0 3) net.

Definition attempts_made (evs : list event) : nat :=
  List.length (filter (fun ev => match ev with Request _ => true | _ => false end) evs).

(** The value or exception the caller of the executor receives. *)
Definition request (url : string) (net : network) : result response :=
  fst (spotify_request_with_retries url net).


(** ** catalogue_health_service: the availability checks *)

(** [similar] on a value read from a JSON document: a falsy value gives 0.0
    and only a string has [lower]. *)
Definition similar_value (a : json) (b : string) : result Q :=
  if negb (truthy a) || (String.length b =? 0) then Ok 0%Q
  else
    match a with
    | JStr s => Ok (Difflib.ratio N.eq_dec (str_lower s) (str_lower b))
    | _ => Raise (Exn AttributeError "object has no attribute 'lower'")
    end.

(** The literal [0.85] of both match rules. *)
Definition threshold : Q := (85 # 100)%Q.

(** [s >= 0.85]. *)
Definition reaches (s : Q) : bool := Qle_bool threshold s.


(** The body of [for result in data.get('results', [])]: [and] and [or]
    evaluate their right operand only when needed. *)
Definition apple_result_matches (artist title : string) (r : json) : result bool :=
  result_track <- py_get r "trackName" (JStr "") ;;
  result_album <- py_get r "collectionName" (JStr "") ;;
  result_artist <- py_get r "artistName" (JStr "") ;;
  sa <- similar_value result_artist artist ;;
  if reaches sa then
    st <- similar_value result_track title ;;
    if reaches st then Ok true
    else sal <- similar_value result_album title ;; Ok (reaches sal)
  else Ok false.

Fixpoint apple_scan (artist title : string) (results : list json) : result bool :=
  match results with
  | [] => Ok false
  | r :: rest =>
      m <- apple_result_matches artist title r ;;
      if m then Ok true else apple_scan artist title rest
  end.

(** One pass through the [try] block: [Ok None] is the [continue] of the
    rate-limited branch. *)
Definition apple_try (artist title : string) (a : attempt) : result (option bool) :=
  match a with
  | Fails e => Raise e
  | Responds r =>
      if (status_code r =? 403)%Z then Ok None
      else
        _ <- raise_for_status r ;;
        results <- py_get (resp_json r) "results" (JList []) ;;
        l <- py_iter results ;;
        found <- apple_scan artist title l ;;
        Ok (Some found)
  end.

Fixpoint apple_attempts (attempts : list nat) (artist title : string) (net : network)
    : result bool :=
  match attempts with
  | [] => Ok false
  | attempt :: rest =>
      match apple_try artist title (net attempt) with
      | Ok (Some found) => Ok found
      | Ok None => apple_attempts rest artist title net
      | Raise e =>
          if is_request_exception e then
            if attempt <? 2 then apple_attempts rest artist title net else Ok false
          else Raise e
      end
  end.

Definition check_apple_music_api (artist title : string) (net : network) : result bool :=
  apple_attempts (seq 0 3) artist title net.

Fixpoint map_result {A B : Type} (f : A -> result B) (l : list A) : result (list B) :=
  match l with
  | [] => Ok []
  | x :: rest => y <- f x ;; ys <- map_result f rest ;; Ok (y :: ys)
  end.

(** [any(similar(a_name, artist) >= 0.85 for a_name in item_artists)]. *)
Fixpoint any_similar (names : list json) (artist : string) : result bool :=
  match names with
  | [] => Ok false
  | n :: rest =>
      s <- similar_value n artist ;;
      if reaches s then Ok true else any_similar rest artist
  end.

Definition spotify_item_matches (artist title : string) (item : json) : result bool :=
  item_name <- py_get item "name" (JStr "") ;;
  artists <- py_get item "artists" (JList []) ;;
  l <- py_iter artists ;;
  item_artists <- map_result (fun a => py_get a "name" (JStr "")) l ;;
  sn <- similar_value item_name title ;;
  if reaches sn then any_similar item_artists artist else Ok false.

Fixpoint spotify_scan (artist title : string) (items : list json) : result bool :=
  match items with
  | [] => Ok false
  | item :: rest =>
      m <- spotify_item_matches artist title item ;;
      if m then Ok true else spotify_scan artist title rest
  end.

(** [search] is what [sp_client.search(...)] does.  The whole body sits in
    [try ... except Exception: return False]. *)
Definition check_spotify_api (search : result json) (artist title : string) : bool :=
  let body :=
    results <- search ;;
    tracks <- py_get results "tracks" (JDict []) ;;
    items <- py_get tracks "items" (JList []) ;;
    l <- py_iter items ;;
    spotify_scan artist title l in
  match body with
  | Ok found => found
  | Raise _ => false
  end.

(** ** The database *)

(** A calendar day, as its ordinal; an ISO date string stands for the day it
    names. *)
Definition day : Type := Z.

(** [track_dim]. *)
Record track_row : Type := TrackRow {
  track_uid : string;
  isrc : string;
  title : string;
  artist : string;
  owner : string
}.

(** [streams], unique on [(platform, track_uid, stream_date)]. *)
Record stream_row : Type := StreamRow {
  platform : string;
  s_track_uid : string;
  stream_date : day;
  playcount : Z;
  s_user_id : string
}.

(** [catalogue_health_status], unique on [(check_date, track_uid)].
    [updated_at] is [None] while no statement has set it. *)
Record health_row : Type := HealthRow {
  check_date : day;
  h_track_uid : string;
  apple_music_status : bool;
  spotify_status : bool;
  h_user_id : string;
  updated_at : option Z
}.

Record database : Type := Database {
  track_dim : list track_row;
  streams : list stream_row;
  catalogue_health_status : list health_row
}.

(** A connection: what is durable and what the open transaction sees. *)
Record connection : Type := Connection {
  committed : database;
  working : database
}.

Definition db_open (db : database) : connection := Connection db db.
Definition commit (c : connection) : connection := Connection (working c) (working c).
Definition rollback (c : connection) : connection := Connection (committed c) (committed c).

(** [INSERT ... ON CONFLICT (key) DO UPDATE SET ...] on a table: when a row
    with the key of [new] is there, it is updated by [merge new]; otherwise
    [new] is added. *)
Definition upsert {row : Type} (same_key : row -> row -> bool) (merge : row -> row -> row)
    (new : row) (tbl : list row) : list row :=
  if existsb (same_key new) tbl
  then map (fun r => if same_key new r then merge new r else r) tbl
  else tbl ++ [new].

Definition stream_key (r : stream_row) : string * string * day :=
  (platform r, s_track_uid r, stream_date r).

Definition same_stream_key (a b : stream_row) : bool :=
  String.eqb (platform a) (platform b)
  && String.eqb (s_track_uid a) (s_track_uid b)
  && (stream_date a =? stream_date b)%Z.

(** [DO UPDATE SET playcount = EXCLUDED.playcount]. *)
Definition merge_stream (new old : stream_row) : stream_row :=
  StreamRow (platform old) (s_track_uid old) (stream_date old) (playcount new)
    (s_user_id old).

(** [INSERT INTO streams ... ON CONFLICT (platform, track_uid, stream_date)
    DO UPDATE SET playcount = EXCLUDED.playcount]. *)
Definition upsert_stream (new : stream_row) (tbl : list stream_row) : list stream_row :=
  upsert same_stream_key merge_stream new tbl.

Definition health_key (r : health_row) : day * string := (check_date r, h_track_uid r).

Definition same_health_key (a b : health_row) : bool :=
  (check_date a =? check_date b)%Z && String.eqb (h_track_uid a) (h_track_uid b).

(** [DO UPDATE SET apple_music_status = EXCLUDED.apple_music_status,
    spotify_status = EXCLUDED.spotify_status, updated_at = NOW()]. *)
Definition merge_health (now : Z) (new old : health_row) : health_row :=
  HealthRow (check_date old) (h_track_uid old) (apple_music_status new)
    (spotify_status new) (h_user_id old) (Some now).

(** [INSERT INTO catalogue_health_status ... ON CONFLICT (check_date,
    track_uid) DO UPDATE SET ...]. *)
Definition upsert_health (now : Z) (new : health_row) (tbl : list health_row)
    : list health_row :=
  upsert same_health_key (merge_health now) new tbl.

Definition execute_stream (new : stream_row) (c : connection) : connection :=
  Connection (committed c)
    (Database (track_dim (working c)) (upsert_stream new (streams (working c)))
       (catalogue_health_status (working c))).

Definition execute_health (now : Z) (new : health_row) (c : connection) : connection :=
  Connection (committed c)
    (Database (track_dim (working c)) (streams (working c))
       (upsert_health now new (catalogue_health_status (working c)))).

(** [SELECT ... FROM track_dim WHERE user_id = %s]. *)
Definition select_tracks (user_id : string) (c : connection) : list track_row :=
  filter (fun t => String.eqb (owner t) user_id) (track_dim (working c)).

Fixpoint enumerate_from {A : Type} (n : nat) (l : list A) : list (nat * A) :=
  match l with
  | [] => []
  | x :: rest => (n, x) :: enumerate_from (S n) rest
  end.


(** ** catalogue_health_service.run_catalogue_health_check *)

(** What the two platforms answer while one track is checked. *)
Record health_io : Type := HealthIO {
  apple_net : network;
  spotify_search : result json
}.

(** The surroundings of one availability run. *)
Record health_world : Type := HealthWorld {
  h_client : result unit;     (* SpotifyClientCredentials(...), spotipy.Spotify(...) *)
  h_connect : result unit;    (* db_conn() *)
  h_io : nat -> health_io;    (* the answers for the n-th track of the catalogue *)
  h_today : day;              (* date.today() *)
  h_now : Z                   (* NOW() *)
}.

Record health_state : Type := HealthState {
  h_conn : connection;
  checked_count : nat
}.

(** The body of [for track in tracks]. *)
Definition check_track (w : health_world) (user_id : string) (n : nat) (t : track_row)
    (st : health_state) : result health_state :=
  if (String.length (title t) =? 0) || (String.length (artist t) =? 0) then Ok st
  else
    apple_exists <- check_apple_music_api (artist t) (title t) (apple_net (h_io w n)) ;;
    let spotify_exists :=
      check_spotify_api (spotify_search (h_io w n)) (artist t) (title t) in
    let c :=
      execute_health (h_now w)
        (HealthRow (h_today w) (track_uid t) apple_exists spotify_exists user_id None)
        (h_conn st) in
    let count := checked_count st + 1 in
    Ok (HealthState (if count mod 10 =? 0 then commit c else c) count).

(** The loop stops at the first exception that escapes a track. *)
Fixpoint health_loop (w : health_world) (user_id : string) (tracks : list (nat * track_row))
    (st : health_state) : health_state * option exn :=
  match tracks with
  | [] => (st, None)
  | (n, t) :: rest =>
      match check_track w user_id n t st with
      | Ok st' => health_loop w user_id rest st'
      | Raise e => (st, Some e)
      end
  end.

(** [errors] is set to 0 before the loop and only ever logged. *)
Record health_outcome : Type := HealthOutcome {
  h_status : result unit;
  h_db : database;
  h_checked : nat;
  h_errors : nat
}.

(** [conn] is first assigned by [db_conn()]: when the client or the
    connection cannot be set up, the handler's [if conn:] raises in turn. *)
Definition conn_unbound : exn :=
  Exn UnboundLocalError "local variable 'conn' referenced before assignment".

Definition run_catalogue_health_check (w : health_world) (user_id : string) (db : database)
    : health_outcome :=
  match h_client w, h_connect w with
  | Ok _, Ok _ =>
      let conn := db_open db in
      let '(st, failure) :=
        health_loop w user_id (enumerate_from 0 (select_tracks user_id conn))
          (HealthState conn 0) in
      match failure with
      | None => HealthOutcome (Ok tt) (committed (commit (h_conn st))) (checked_count st) 0
      | Some e =>
          HealthOutcome (Raise e) (committed (rollback (h_conn st))) (checked_count st) 0
      end
  | _, _ => HealthOutcome (Raise conn_unbound) db 0 0
  end.

(** ** streams_service: resolving a track *)

Definition SPOTIFY_TOKEN_URL : string := "https://accounts.spotify.com/api/token".
Definition SPOTIFY_SEARCH_URL : string := "https://api.spotify.com/v1/search".
Definition SPOTIFY_PATHFINDER_URL : string :=
  "https://api-partner.spotify.com/pathfinder/v2/query".

(** [d[k]]. *)
Definition py_getitem (d : json) (k : string) : result json :=
  match d with
  | JDict kvs =>
      match assoc k kvs with
      | Some v => Ok v
      | None => Raise (Exn KeyError k)
      end
  | _ => Raise (Exn TypeError "object is not subscriptable")
  end.

Definition get_spotify_token (net : network) : result json :=
  r <- request SPOTIFY_TOKEN_URL net ;;
  py_getitem (resp_json r) "access_token".

(** The candidate's own code against the queried one, both upper-cased. *)
Definition isrc_matches (isrc : string) (t : json) : result bool :=
  ids <- py_get t "external_ids" (JDict []) ;;
  code <- py_get ids "isrc" (JStr "") ;;
  u <- py_upper code ;;
  Ok (String.eqb u (upper isrc)).


(** [for t in items: if ...: best = t; break]. *)
Fixpoint find_exact (isrc : string) (items : list json) : result (option json) :=
  match items with
  | [] => Ok None
  | t :: rest =>
      m <- isrc_matches isrc t ;;
      if m then Ok (Some t) else find_exact isrc rest
  end.

(** [best]: the exact match, or [items[0]]. *)
Definition select_best (isrc : string) (items : json) : result json :=
  l <- py_iter items ;;
  best <- find_exact isrc l ;;
  match best with
  | Some t => Ok t
  | None => py_first items
  end.

(** [" & ".join(artists)]; every element has to be a string. *)
Fixpoint join_names (names : list json) : result string :=
  match names with
  | [] => Ok ""
  | JStr n :: [] => Ok n
  | JStr n :: rest => tl <- join_names rest ;; Ok (n ++ " & " ++ tl)%string
  | _ :: _ => Raise (Exn TypeError "sequence item: expected str instance")
  end.

(** [[a.get("name") for a in (best.get("artists") or []) if a.get("name")]]
    and [" & ".join(artists) if artists else None]. *)
Definition artists_joined (best : json) : result (option string) :=
  raw <- py_get best "artists" JNull ;;
  l <- py_iter (if truthy raw then raw else JList []) ;;
  names <- map_result (fun a => py_get a "name" JNull) l ;;
  let artists := filter truthy names in
  match artists with
  | [] => Ok None
  | _ :: _ => joined <- join_names artists ;; Ok (Some joined)
  end.

(** What [search_track] returns for a usable candidate. *)
Record track_info : Type := TrackInfo {
  track_id : json;
  album_id : json;
  track_name : json;
  artists : option string
}.

(** The four fields read from [best], in the order the code reads them. *)
Definition read_best (best : json) : result track_info :=
  tid <- py_get best "id" JNull ;;
  album <- py_get best "album" (JDict []) ;;
  aid <- py_get album "id" JNull ;;
  name <- py_get best "name" JNull ;;
  joined <- artists_joined best ;;
  Ok (TrackInfo tid aid name joined).

(** [search_track] from [items] on. *)
Definition resolve (isrc : string) (items : json) : result (option track_info) :=
  if negb (truthy items) then Ok None
  else
    best <- select_best isrc items ;;
    info <- read_best best ;;
    if negb (truthy (track_id info) && truthy (album_id info)) then Ok None
    else Ok (Some info).

Definition search_track (isrc : string) (net : network) : result (option track_info) :=
  r <- request SPOTIFY_SEARCH_URL net ;;
  tracks <- py_get (resp_json r) "tracks" (JDict []) ;;
  items <- py_get tracks "items" (JList []) ;;
  resolve isrc items.

(** ** streams_service: the play count *)

(** [fetch_album]: a request that failed for good and a missing or falsy
    [data] envelope both give the empty dict. *)
Definition fetch_album (net : network) : result json :=
  let body :=
    r <- request SPOTIFY_PATHFINDER_URL net ;;
    data <- py_get (resp_json r) "data" JNull ;;
    if negb (truthy data) then Ok (JDict []) else Ok (resp_json r) in
  match body with
  | Ok album_data => Ok album_data
  | Raise e => if is_request_exception e then Ok (JDict []) else Raise e
  end.

(** [str(raw).isdigit()]: of the values that are no strings, the integers
    from 0 on print as digits only. *)
Definition str_isdigit (raw : json) : bool :=
  match raw with
  | JStr s => isdigit s
  | JInt z => (0 <=? z)%Z
  | _ => false
  end.

(** [if raw and str(raw).isdigit(): playcount = int(raw)].  The integer 0
    is falsy; [int] may raise. *)
Definition counter_of (raw : json) : result (option Z) :=
  if truthy raw && str_isdigit raw then n <- py_int raw ;; Ok (Some n) else Ok None.

(** The body of [for item in tracks_data]: [Some n] is the [break]. *)
Definition entry_counter (uri : string) (item : json) : result (option Z) :=
  t <- py_get item "track" JNull ;;
  if truthy t then
    u <- py_get t "uri" JNull ;;
    match u with
    | JStr s =>
        if String.eqb s uri then
          raw <- py_get t "playcount" JNull ;;
          counter_of raw
        else Ok None
    | _ => Ok None
    end
  else Ok None.

Fixpoint scan_entries (uri : string) (items : list json) : result (option Z) :=
  match items with
  | [] => Ok None
  | item :: rest =>
      c <- entry_counter uri item ;;
      match c with
      | Some n => Ok (Some n)
      | None => scan_entries uri rest
      end
  end.

Definition track_uri (track_id : json) : string :=
  ("spotify:track:" ++ py_str track_id)%string.

(** From [album_data] to [playcount]. *)
Definition extract_playcount (album_data : json) (track_id : json) : result (option Z) :=
  data <- py_get album_data "data" (JDict []) ;;
  album <- py_get data "albumUnion" (JDict []) ;;
  page <- py_get album "tracksV2" (JDict []) ;;
  tracks_data <- py_get page "items" (JList []) ;;
  l <- py_iter tracks_data ;;
  scan_entries (track_uri track_id) l.


(** ** streams_service.run_streams_collection *)

(** What the platform answers while one track is collected. *)
Record track_io : Type := TrackIO {
  search_net : network;
  album_net : network
}.

(** An alert handed to [send_telegram_alert]. *)
Inductive alert : Type :=
| ZeroStreams (day_iso : day)
| CollectionError (e : exn).

(** The alert transport: whether the bot is configured and whether the POST
    goes through. *)
Record telegram : Type := Telegram {
  tg_configured : bool;
  tg_post_ok : bool
}.

Inductive telegram_event : Type :=
| NotConfigured (a : alert)
| Sent (a : alert)
| SendFailed (a : alert).

(** [send_telegram_alert]: it logs and returns, whatever the transport does. *)
Definition send_telegram_alert (tg : telegram) (a : alert) : list telegram_event :=
  if negb (tg_configured tg) then [NotConfigured a]
  else if tg_post_ok tg then [Sent a] else [SendFailed a].

(** The surroundings of one metrics run. *)
Record streams_world : Type := StreamsWorld {
  token_net : network;                        (* the token endpoint *)
  sniffed : result (string * option string);  (* sniff_tokens() *)
  s_connect : result unit;                    (* db_conn() *)
  s_io : nat -> track_io;                     (* the answers for the n-th track *)
  loop_commit : result unit;                  (* conn.commit() after the loop *)
  refresh_view : result unit;                 (* REFRESH MATERIALIZED VIEW ... *)
  final_commit : result unit;                 (* conn.commit() after the refresh *)
  s_telegram : telegram;
  s_today : day                               (* date.today() *)
}.

Record streams_state : Type := StreamsState {
  s_conn : connection;
  processed : nat;
  errors : nat;
  total_playcount : Z
}.

(** The [try] block of the loop body. *)
Definition collect_track (io : track_io) (user_id : string) (day_iso : day)
    (t : track_row) (st : streams_state) : result streams_state :=
  track_info <- search_track (isrc t) (search_net io) ;;
  match track_info with
  | None => Ok st
  | Some info =>
      album_data <- fetch_album (album_net io) ;;
      found <- extract_playcount album_data (track_id info) ;;
      match found with
      | Some count =>
          Ok (StreamsState
                (execute_stream (StreamRow "spotify" (track_uid t) day_iso count user_id)
                   (s_conn st))
                (processed st + 1) (errors st) (total_playcount st + count)%Z)
      | None => Ok st
      end
  end.

(** The loop body with its [except Exception]. *)
Definition streams_step (io : track_io) (user_id : string) (day_iso : day)
    (t : track_row) (st : streams_state) : streams_state :=
  match collect_track io user_id day_iso t st with
  | Ok st' => st'
  | Raise _ =>
      StreamsState (s_conn st) (processed st) (errors st + 1) (total_playcount st)
  end.

(** What the handler of the loop body logs: the track's code and the
    exception, [logger.error(f"Error processing track {track['isrc']}: {e}")]. *)
Definition step_log (io : track_io) (user_id : string) (day_iso : day)
    (t : track_row) (st : streams_state) : list (string * exn) :=
  match collect_track io user_id day_iso t st with
  | Ok _ => []
  | Raise e => [(isrc t, e)]
  end.

Fixpoint streams_loop (io : nat -> track_io) (user_id : string) (day_iso : day)
    (tracks : list (nat * track_row)) (st : streams_state) : streams_state :=
  match tracks with
  | [] => st
  | (n, t) :: rest =>
      streams_loop io user_id day_iso rest (streams_step (io n) user_id day_iso t st)
  end.

Record streams_outcome : Type := StreamsOutcome {
  s_status : result unit;
  s_db : database;
  s_processed : nat;
  s_errors : nat;
  s_total : Z;
  s_alerts : list telegram_event
}.

(** [day_override or (date.today() - timedelta(days=1)).isoformat()]; an
    empty override string is as absent as [None]. *)
Definition streams_day (today : day) (day_override : option day) : day :=
  match day_override with
  | Some d => d
  | None => (today - 1)%Z
  end.

(** The outer [except]: alert, roll back when there is a connection, raise
    again. *)
Definition streams_failed (w : streams_world) (e : exn) (db : database)
    (st : option streams_state) : streams_outcome :=
  match st with
  | None => StreamsOutcome (Raise e) db 0 0 0%Z
              (send_telegram_alert (s_telegram w) (CollectionError e))
  | Some st =>
      StreamsOutcome (Raise e) (committed (rollback (s_conn st))) (processed st) (errors st)
        (total_playcount st) (send_telegram_alert (s_telegram w) (CollectionError e))
  end.

Definition with_conn (st : streams_state) (c : connection) : streams_state :=
  StreamsState c (processed st) (errors st) (total_playcount st).

Definition run_streams_collection (w : streams_world) (user_id : string)
    (day_override : option day) (db : database) : streams_outcome :=
  let day_iso := streams_day (s_today w) day_override in
  match get_spotify_token (token_net w) with
  | Raise e => streams_failed w e db None
  | Ok search_token =>
  match sniffed w with
  | Raise e => streams_failed w e db None
  | Ok web_tokens =>
  match s_connect w with
  | Raise e => streams_failed w e db None
  | Ok _ =>
      let conn := db_open db in
      let st :=
        streams_loop (s_io w) user_id day_iso
          (enumerate_from 0 (select_tracks user_id conn)) (StreamsState conn 0 0 0%Z) in
      match loop_commit w with
      | Raise e => streams_failed w e db (Some st)
      | Ok _ =>
      let st := with_conn st (commit (s_conn st)) in
      match refresh_view w with
      | Raise e => streams_failed w e db (Some st)
      | Ok _ =>
      match final_commit w with
      | Raise e => streams_failed w e db (Some st)
      | Ok _ =>
          let st := with_conn st (commit (s_conn st)) in
          StreamsOutcome (Ok tt) (committed (s_conn st)) (processed st) (errors st)
            (total_playcount st)
            (if (0 <? processed st) && (total_playcount st =? 0)%Z
             then send_telegram_alert (s_telegram w) (ZeroStreams day_iso)
             else [])
      end end end
  end end end.

(** ** main.run_all_tasks *)

(** A date as [run_all_tasks] is handed it: the text, which is what the
    orchestrator compares, and the day it names, which is what the stores
    read from it. *)
Record date_text : Type := DateText {
  spelling : string;
  named : day
}.

(** [day_override or ...] in the collections: an override that is [None] or
    empty is none. *)
Definition override_day (day_override : option date_text) : option day :=
  match day_override with
  | Some d => if String.length (spelling d) =? 0 then None else Some (named d)
  | None => None
  end.

Record world : Type := World {
  w_streams : streams_world;
  w_playlists : result unit;     (* run_playlist_followers_collection(...) *)
  w_health : health_world;
  w_now_iso : string             (* datetime.now().date().isoformat() *)
}.

(** [not day_override or day_override == datetime.now().date().isoformat()]:
    a comparison of two strings. *)
Definition health_wanted (w : world) (day_override : option date_text) : bool :=
  match day_override with
  | None => true
  | Some d => (String.length (spelling d) =? 0) || String.eqb (spelling d) (w_now_iso w)
  end.

Inductive task_status : Type :=
| Success
| Error (e : exn).

Record tasks_outcome : Type := TasksOutcome {
  t_status : task_status;
  t_db : database;
  t_streams : option streams_outcome;
  t_health : option health_outcome
}.

Definition run_all_tasks (w : world) (user_id : string) (day_override : option date_text)
    (db : database) : tasks_outcome :=
  let so := run_streams_collection (w_streams w) user_id (override_day day_override) db in
  match s_status so with
  | Raise e => TasksOutcome (Error e) (s_db so) (Some so) None
  | Ok _ =>
  match w_playlists w with
  | Raise e => TasksOutcome (Error e) (s_db so) (Some so) None
  | Ok _ =>
      if health_wanted w day_override then
        let ho := run_catalogue_health_check (w_health w) user_id (s_db so) in
        match h_status ho with
        | Raise e => TasksOutcome (Error e) (h_db ho) (Some so) (Some ho)
        | Ok _ => TasksOutcome Success (h_db ho) (Some so) (Some ho)
        end
      else TasksOutcome Success (s_db so) (Some so) None
  end end.


(** ** What a run writes *)

(** The row the availability loop writes for a track, [None] for a track it
    skips. *)
Definition health_row_of (w : health_world) (user_id : string) (n : nat) (t : track_row)
    : result (option health_row) :=
  if (String.length (title t) =? 0) || (String.length (artist t) =? 0) then Ok None
  else
    apple_exists <- check_apple_music_api (artist t) (title t) (apple_net (h_io w n)) ;;
    Ok (Some (HealthRow (h_today w) (track_uid t) apple_exists
                (check_spotify_api (spotify_search (h_io w n)) (artist t) (title t))
                user_id None)).

(** The rows written up to the end of the catalogue or to the first
    exception that escapes a track. *)
Fixpoint health_rows (w : health_world) (user_id : string) (tracks : list (nat * track_row))
    : list health_row * option exn :=
  match tracks with
  | [] => ([], None)
  | (n, t) :: rest =>
      match health_row_of w user_id n t with
      | Raise e => ([], Some e)
      | Ok None => health_rows w user_id rest
      | Ok (Some row) =>
          let '(rows, failure) := health_rows w user_id rest in (row :: rows, failure)
      end
  end.

(** The counter the metrics loop finds for a track. *)
Definition track_metric (io : track_io) (t : track_row) : result (option Z) :=
  track_info <- search_track (isrc t) (search_net io) ;;
  match track_info with
  | None => Ok None
  | Some info =>
      album_data <- fetch_album (album_net io) ;;
      extract_playcount album_data (track_id info)
  end.

(** The rows the metrics loop writes, in order. *)
Fixpoint stream_rows (io : nat -> track_io) (user_id : string) (day_iso : day)
    (tracks : list (nat * track_row)) : list stream_row :=
  match tracks with
  | [] => []
  | (n, t) :: rest =>
      match track_metric (io n) t with
      | Ok (Some count) =>
          StreamRow "spotify" (track_uid t) day_iso count user_id
            :: stream_rows io user_id day_iso rest
      | _ => stream_rows io user_id day_iso rest
      end
  end.

(** The tracks whose processing raised. *)
Fixpoint failed_tracks (io : nat -> track_io) (tracks : list (nat * track_row)) : nat :=
  match tracks with
  | [] => 0
  | (n, t) :: rest =>
      match track_metric (io n) t with
      | Raise _ => 1 + failed_tracks io rest
      | Ok _ => failed_tracks io rest
      end
  end.

Definition upsert_all {row : Type} (up : row -> list row -> list row) (rows : list row)
    (tbl : list row) : list row :=
  fold_left (fun acc r => up r acc) rows tbl.

(** The catalogue of a user, numbered. *)
Definition catalogue (user_id : string) (db : database) : list (nat * track_row) :=
  enumerate_from 0 (select_tracks user_id (db_open db)).

(** A write, once applied, absorbed by a row with its key. *)
Definition absorb {row : Type} (same_key : row -> row -> bool) (merge : row -> row -> row)
    (writes : list row) (r : row) : row :=
  fold_left (fun acc w => if same_key w acc then merge w acc else acc) writes r.

(** The last write under the key of [r]. *)
Definition last_write {row : Type} (same_key : row -> row -> bool) (writes : list row)
    (r : row) : option row :=
  fold_left (fun acc w => if same_key w r then Some w else acc) writes None.

Definition stream_counts (rows : list stream_row) : Z :=
  fold_right Z.add 0%Z (map playcount rows).

(** What the metrics loop does to its state. *)
Record loop_effect (io : nat -> track_io) (user_id : string) (day_iso : day)
    (tracks : list (nat * track_row)) (st st' : streams_state) : Prop := LoopEffect {
  le_committed : committed (s_conn st') = committed (s_conn st);
  le_track_dim : track_dim (working (s_conn st')) = track_dim (working (s_conn st));
  le_health :
    catalogue_health_status (working (s_conn st'))
    = catalogue_health_status (working (s_conn st));
  le_streams :
    streams (working (s_conn st'))
    = upsert_all upsert_stream (stream_rows io user_id day_iso tracks)
        (streams (working (s_conn st)));
  le_processed :
    processed st' = processed st + List.length (stream_rows io user_id day_iso tracks);
  le_errors : errors st' = errors st + failed_tracks io tracks;
  le_total :
    total_playcount st'
    = (total_playcount st + stream_counts (stream_rows io user_id day_iso tracks))%Z
}.


(** The tables a run leaves when its writes [rows] are durable. *)
Definition with_streams (db : database) (rows : list stream_row) : database :=
  Database (track_dim db) (upsert_all upsert_stream rows (streams db))
    (catalogue_health_status db).

Definition with_health (now : Z) (db : database) (rows : list health_row) : database :=
  Database (track_dim db) (streams db)
    (upsert_all (upsert_health now) rows (catalogue_health_status db)).

(** The complete batches of ten among [rows]. *)
Definition committed_batches {A : Type} (rows : list A) : list A :=
  firstn (10 * (List.length rows / 10)) rows.

(** What the availability loop keeps true: [done] are the rows written so
    far. *)
Record health_inv (now : Z) (db : database) (st : health_state) (done : list health_row)
    : Prop := HealthInv {
  hi_count : checked_count st = List.length done;
  hi_working : working (h_conn st) = with_health now db done;
  hi_committed : committed (h_conn st) = with_health now db (committed_batches done)
}.

(** ** Catalog A results as the search API documents them *)

(** A result object carries its three texts as optional strings. *)
Record apple_result : Type := AppleResult {
  trackName : option string;
  collectionName : option string;
  artistName : option string
}.

Definition field (k : string) (v : option string) : list (string * json) :=
  match v with
  | Some s => [(k, JStr s)]
  | None => []
  end.

Definition apple_result_json (r : apple_result) : json :=
  JDict (field "trackName" (trackName r) ++ field "collectionName" (collectionName r)
         ++ field "artistName" (artistName r)).

Definition text (v : option string) : string :=
  match v with
  | Some s => s
  | None => ""
  end.


(** An attempt the Catalog A loop answers by trying again: a 403, an error
    status, a transport error. *)
Definition apple_retried (a : attempt) : bool :=
  match a with
  | Responds r =>
      (status_code r =? 403)%Z || ((400 <=? status_code r)%Z && (status_code r <? 600)%Z)
  | Fails e => is_request_exception e
  end.

(** An attempt the executor answers by trying again: it raised a request
    exception. *)
Definition retried (a : attempt) : bool :=
  match attempt_outcome a with
  | Ok _ => false
  | Raise e => is_request_exception e
  end.

(** Sample data *)

Definition always_down : network := fun _ => Fails (Exn ConnectionError "down").

Definition sample_artist : string := "abcdefghij".
Definition sample_title : string := "klmnopqrst".

(** Artist score 0.9, track score 0.8, album score 0.9. *)
Definition sample_apple_result : apple_result :=
  AppleResult (Some "klmnopqrXY") (Some "klmnopqrsX") (Some "ABCDEFGHI!").



(** Two transport errors, then an answer. *)
Definition token_response : response :=
  Response 200 (JDict [("access_token", JStr "BQD-token"); ("expires_in", JInt 3600)]).

Definition third_time_lucky : network :=
  fun k =>
    match k with
    | 0 => Fails (Exn Timeout "read timed out")
    | 1 => Responds (Response 503 JNull)
    | _ => Responds token_response
    end.

(** Two request failures and then an error of another class; and the same
    error on the first attempt. *)
Definition fatal_third : network :=
  fun k =>
    match k with
    | 0 => Fails (Exn Timeout "read timed out")
    | 1 => Responds (Response 503 JNull)
    | _ => Fails (Exn ValueError "check_hostname requires server_hostname")
    end.

Definition fatal_first : network :=
  fun _ => Fails (Exn ValueError "check_hostname requires server_hostname").


Definition search_response (items : list json) : response :=
  Response 200 (JDict [("tracks", JDict [("items", JList items)])]).

Definition answers (r : response) : network := fun _ => Responds r.

(** Two candidates; the second one carries the queried code. *)
Definition candidate_other : json :=
  JDict [("id", JStr "T0"); ("album", JDict [("id", JStr "A0")]); ("name", JStr "Cover");
         ("artists", JList [JDict [("name", JStr "Somebody")]]);
         ("external_ids", JDict [("isrc", JStr "GBXXX0000001")])].

Definition candidate_exact : json :=
  JDict [("id", JStr "T1"); ("album", JDict [("id", JStr "A1")]); ("name", JStr "Song");
         ("artists", JList [JDict [("name", JStr "Ann")]; JDict [("name", JStr "Bob")]]);
         ("external_ids", JDict [("isrc", JStr "isrc123")])].

(** An entry of the album page: a track with its URI and, possibly, its
    counter. *)
Definition metric_entry (uri : string) (raw : option json) : json :=
  JDict [("track",
          JDict (("uri", JStr uri)
                 :: match raw with
                    | Some v => [("playcount", v)]
                    | None => []
                    end))].

Definition album_page (entries : list json) : json :=
  JDict [("data",
          JDict [("albumUnion", JDict [("tracksV2", JDict [("items", JList entries)])])])].

(** An entry the loop passes over. *)
Definition no_counter (uri : string) (item : json) : Prop :=
  entry_counter uri item = Ok None.

(** A catalogue of two users and the answers of the platforms: everything is
    in order for the first track of a catalogue, the network is down for the
    others. *)
Definition sample_db : database :=
  Database
    [TrackRow "uid-1" "ISRC123" "Song" "Ann" "user-1";
     TrackRow "uid-2" "ISRC999" "" "Bob" "user-1";
     TrackRow "uid-3" "ISRC123" "Song" "Ann" "user-2"]
    [] [].

Definition sample_album : response :=
  Response 200
    (album_page [metric_entry "spotify:track:T0" (Some (JStr "17"));
                 metric_entry "spotify:track:T1" (Some (JStr "4821"))]).

Definition sample_track_io (n : nat) : track_io :=
  match n with
  | 0 => TrackIO (answers (search_response [candidate_other; candidate_exact]))
           (answers sample_album)
  | _ => TrackIO always_down always_down
  end.

Definition sample_streams_world : streams_world :=
  StreamsWorld third_time_lucky (Ok ("web-token", Some "client-token")) (Ok tt)
    sample_track_io (Ok tt) (Ok tt) (Ok tt) (Telegram true true) 20000%Z.

Definition sample_health_io (n : nat) : health_io :=
  HealthIO
    (answers (Response 200
                (JDict [("results",
                         JList [apple_result_json
                                  (AppleResult (Some "Song") (Some "Album") (Some "ANN"))])])))
    (Ok (JDict [("tracks",
                 JDict [("items",
                         JList [JDict [("name", JStr "song");
                                       ("artists", JList [JDict [("name", JStr "Ann")]])]])])])).

Definition sample_health_world : health_world :=
  HealthWorld (Ok tt) (Ok tt) sample_health_io 20000%Z 1700000000%Z.

(** The same surroundings at a later time of the same day. *)
Definition later_on (w : health_world) (now : Z) : health_world :=
  HealthWorld (h_client w) (h_connect w) (h_io w) (h_today w) now.

(** The rows the sample runs write for the first user. *)
Definition sample_stream_row : stream_row :=
  StreamRow "spotify" "uid-1" 19999%Z 4821%Z "user-1".

Definition sample_health_row : health_row :=
  HealthRow 20000%Z "uid-1" true true "user-1" None.

Definition first_run : streams_outcome :=
  run_streams_collection sample_streams_world "user-1" None sample_db.

Definition second_run : streams_outcome :=
  run_streams_collection sample_streams_world "user-1" None (s_db first_run).

Definition first_check : health_outcome :=
  run_catalogue_health_check sample_health_world "user-1" sample_db.

Definition second_check : health_outcome :=
  run_catalogue_health_check (later_on sample_health_world 1700000600%Z) "user-1"
    (h_db first_check).

(** An album page whose [albumUnion] node is null. *)
Definition null_album : response :=
  Response 200 (JDict [("data", JDict [("albumUnion", JNull)])]).

(** An album page whose entry for the track carries the number 0. *)
Definition zero_album : response :=
  Response 200 (album_page [metric_entry "spotify:track:T1" (Some (JInt 0))]).

Definition with_album (r : response) : track_io :=
  TrackIO (answers (search_response [candidate_exact])) (answers r).

Definition fresh_state (db : database) : streams_state :=
  StreamsState (db_open db) 0 0 0%Z.

Definition uid1 : track_row := TrackRow "uid-1" "ISRC123" "Song" "Ann" "user-1".

(** A catalogue of twelve tracks. *)
Definition big_uids : list string :=
  ["t00"; "t01"; "t02"; "t03"; "t04"; "t05"; "t06"; "t07"; "t08"; "t09"; "t10"; "t11"].

Definition big_db : database :=
  Database (map (fun u => TrackRow u "ISRC123" "Song" "Ann" "user-3") big_uids) [] [].

Definition lost_connection : exn :=
  Exn DatabaseError "server closed the connection unexpectedly".

(** Every track resolves and has its counter; the commit after the loop
    fails. *)
Definition big_streams_world : streams_world :=
  StreamsWorld third_time_lucky (Ok ("web-token", Some "client-token")) (Ok tt)
    (fun _ => sample_track_io 0) (Raise lost_connection) (Ok tt) (Ok tt)
    (Telegram true true) 20000%Z.

(** Catalog A answers the twelfth track with a body that is not an object. *)
Definition big_health_io (n : nat) : health_io :=
  if n =? 11
  then HealthIO (answers (Response 200 (JList []))) (spotify_search (sample_health_io 0))
  else sample_health_io n.

Definition big_health_world : health_world :=
  HealthWorld (Ok tt) (Ok tt) big_health_io 20000%Z 1700000000%Z.

(** The same surroundings with other answers for the tracks, or another
    alert transport. *)
Definition with_io (w : streams_world) (io : nat -> track_io) : streams_world :=
  StreamsWorld (token_net w) (sniffed w) (s_connect w) io (loop_commit w) (refresh_view w)
    (final_commit w) (s_telegram w) (s_today w).

Definition with_telegram (w : streams_world) (tg : telegram) : streams_world :=
  StreamsWorld (token_net w) (sniffed w) (s_connect w) (s_io w) (loop_commit w)
    (refresh_view w) (final_commit w) tg (s_today w).

Definition alert_of (ev : telegram_event) : alert :=
  match ev with
  | NotConfigured a => a
  | Sent a => a
  | SendFailed a => a
  end.

Definition is_zero_streams (a : alert) : bool :=
  match a with
  | ZeroStreams _ => true
  | CollectionError _ => false
  end.

(** [send_telegram_alert] was called with the zero-streams warning. *)
Definition anomaly_reported (o : streams_outcome) : bool :=
  existsb (fun ev => is_zero_streams (alert_of ev)) (s_alerts o).

(** The zero-streams warning was sent: the bot is configured and the POST
    went through. *)
Definition anomaly_alerted (o : streams_outcome) : bool :=
  existsb (fun ev => match ev with
                     | Sent a => is_zero_streams a
                     | _ => false
                     end) (s_alerts o).

(** The search resolves the track; the metrics endpoint is down. *)
Definition metrics_down : track_io :=
  TrackIO (answers (search_response [candidate_exact])) always_down.

Definition metrics_down_world : streams_world :=
  with_io sample_streams_world (fun _ => metrics_down).

(** Both availability calls fail. *)
Definition checks_down_world : health_world :=
  HealthWorld (Ok tt) (Ok tt)
    (fun _ => HealthIO always_down (Raise (Exn SpotifyException "http status: 429")))
    20000%Z 1700000000%Z.

(** Every counter is the string 0. *)
Definition silent_album : response :=
  Response 200 (album_page [metric_entry "spotify:track:T1" (Some (JStr "0"))]).

Definition silent_world : streams_world :=
  with_io sample_streams_world (fun _ => with_album silent_album).

Definition sample_world : world :=
  World sample_streams_world (Ok tt) sample_health_world "2024-10-04".


(** ** Catalog B results as the search API documents them *)





(** The tracks the metrics loop passes over: no candidate, or no counter. *)
Fixpoint skipped_tracks (io : nat -> track_io) (tracks : list (nat * track_row)) : nat :=
  match tracks with
  | [] => 0
  | (n, t) :: rest =>
      match track_metric (io n) t with
      | Ok None => 1 + skipped_tracks io rest
      | _ => skipped_tracks io rest
      end
  end.

End Worker.

(** * The rest of the worker *)

(** ** More of Python's strings *)

(** [s.startswith(p)]. *)
Definition startswith (s p : string) : bool := String.prefix p s.

(** [needle in hay]. *)
Fixpoint contains (needle hay : string) : bool :=
  String.prefix needle hay
  || match hay with
     | EmptyString => false
     | String _ rest => contains needle rest
     end.

(** [s.split(sep)] for a separator of one character: the pieces between
    the separators, of which there is always at least one. *)
Fixpoint py_split (sep : ascii) (s : string) : list string :=
  match s with
  | EmptyString => [EmptyString]
  | String c rest =>
      if Ascii.eqb c sep then EmptyString :: py_split sep rest
      else
        match py_split sep rest with
        | w :: ws => String c w :: ws
        | [] => [String c EmptyString]
        end
  end.

(** [s.split(sep, 1)]: one cut at most, at the first separator. *)
Fixpoint py_split_once (sep : ascii) (s : string) : list string :=
  match s with
  | EmptyString => [EmptyString]
  | String c rest =>
      if Ascii.eqb c sep then [EmptyString; rest]
      else
        match py_split_once sep rest with
        | w :: ws => String c w :: ws
        | [] => [String c EmptyString]
        end
  end.

(** [l[i]] for [i >= 0], and [l[-1]]. *)
Definition py_index {A : Type} (l : list A) (i : nat) : result A :=
  match nth_error l i with
  | Some x => Ok x
  | None => Raise (Exn IndexError "list index out of range")
  end.

Definition py_last {A : Type} (l : list A) : result A :=
  match rev l with
  | x :: _ => Ok x
  | [] => Raise (Exn IndexError "list index out of range")
  end.

(** [hdrs.get(k)] on a dict from strings to strings. *)
Fixpoint header (k : string) (hdrs : list (string * string)) : option string :=
  match hdrs with
  | [] => None
  | (k', v) :: rest => if String.eqb k k' then Some v else header k rest
  end.

(** [bool(v)] for an optional string. *)
Definition nonempty (v : option string) : bool :=
  match v with
  | Some s => negb (String.length s =? 0)
  | None => false
  end.

(** ** streams_service.spotify_request_with_retries: the pauses *)

(** The seconds a call of the executor sleeps and the warnings it logs. *)
Definition slept (evs : list event) : nat :=
  list_sum (map (fun ev => match ev with Sleep s => s | _ => 0 end) evs).

Definition warnings (evs : list event) : nat :=
  List.length (filter (fun ev => match ev with Warning _ _ => true | _ => false end) evs).

(** ** streams_service.sniff_tokens *)

(** A response the page receives, with the headers of the request it
    answers. *)
Record web_response : Type := WebResponse {
  wr_url : string;
  wr_status : Z;
  wr_request_headers : list (string * string)
}.

(** [on_resp]: [fut] is [None] while the future is not done. *)
Definition on_resp (resp : web_response) (fut : option (string * option string))
    : result (option (string * option string)) :=
  if contains "/pathfinder/v2/query" (wr_url resp) && (wr_status resp =? 200)%Z then
    let hdrs := wr_request_headers resp in
    let auth := header "authorization" hdrs in
    match auth with
    | Some auth_text =>
        if nonempty auth && startswith auth_text "Bearer " then
          tok <- py_index (py_split_once " "%char auth_text) 1 ;;
          let cli := header "client-token" hdrs in
          match fut with
          | None => Ok (Some (tok, cli))
          | Some _ => Ok fut
          end
        else Ok fut
    | None => Ok fut
    end
  else Ok fut.

(** The browser session of one call: whether Chromium starts, whether the
    navigation succeeds, and the responses the page receives, in order,
    until the 30 seconds of [asyncio.wait_for] are over. *)
Record browser : Type := Browser {
  b_launch : result unit;
  b_goto : result unit;
  b_responses : list web_response
}.

Fixpoint deliver (resps : list web_response) (fut : option (string * option string))
    : result (option (string * option string)) :=
  match resps with
  | [] => Ok fut
  | resp :: rest => fut' <- on_resp resp fut ;; deliver rest fut'
  end.

Definition sniff_timeout : exn := Exn AsyncioTimeoutError "".

Definition sniff_tokens (br : browser) : result (string * option string) :=
  _ <- b_launch br ;;
  _ <- b_goto br ;;
  fut <- deliver (b_responses br) None ;;
  match fut with
  | Some tokens => Ok tokens
  | None => Raise sniff_timeout
  end.

(** A response [on_resp] takes its tokens from. *)
Definition carries_token (resp : web_response) : bool :=
  contains "/pathfinder/v2/query" (wr_url resp) && (wr_status resp =? 200)%Z
  && match header "authorization" (wr_request_headers resp) with
     | Some auth => startswith auth "Bearer "
     | None => false
     end.

(** ** streams_service.fetch_album: the headers it sends *)

Definition USER_AGENT : string :=
  "Mozilla/5.0 (Windows NT 10.0; Win64; x64) AppleWebKit/537.36 Chrome/124.0.0.0 Safari/537.36".

Definition fetch_album_headers (web_token : string) (client_token : option string)
    : list (string * string) :=
  [("Authorization", ("Bearer " ++ web_token)%string); ("User-Agent", USER_AGENT);
   ("content-type", "application/json")]
  ++ (if nonempty client_token
      then match client_token with
           | Some c => [("Client-Token", c)]
           | None => []
           end
      else []).

(** ** playlist_followers_service *)

Module PlaylistFollowers.

Definition SPOTIFY_PLAYLIST_URL : string := "https://api.spotify.com/v1/playlists/".

(** [user_playlists]; [playlist_id] is [None] where the column is NULL. *)
Record playlist_row : Type := PlaylistRow {
  playlist_uid : string;
  playlist_id : option string;
  playlist_name : string;
  p_platform : string;
  p_owner : string
}.

(** [playlist_followers], unique on [(platform, playlist_uid,
    snapshot_date)].  [followers] is the value bound to the statement's
    parameter. *)
Record follower_row : Type := FollowerRow {
  f_platform : string;
  f_playlist_uid : string;
  snapshot_date : day;
  followers : json;
  f_user_id : string
}.

Record tables : Type := Tables {
  user_playlists : list playlist_row;
  playlist_followers : list follower_row
}.

Record session : Type := Session {
  durable : tables;
  pending : tables
}.

Definition session_open (db : tables) : session := Session db db.
Definition session_commit (c : session) : session := Session (pending c) (pending c).
Definition session_rollback (c : session) : session := Session (durable c) (durable c).

Definition follower_key (r : follower_row) : string * string * day :=
  (f_platform r, f_playlist_uid r, snapshot_date r).

Definition same_follower_key (a b : follower_row) : bool :=
  String.eqb (f_platform a) (f_platform b)
  && String.eqb (f_playlist_uid a) (f_playlist_uid b)
  && (snapshot_date a =? snapshot_date b)%Z.

(** [DO UPDATE SET followers = EXCLUDED.followers]. *)
Definition merge_follower (new old : follower_row) : follower_row :=
  FollowerRow (f_platform old) (f_playlist_uid old) (snapshot_date old) (followers new)
    (f_user_id old).

Definition upsert_follower (new : follower_row) (tbl : list follower_row)
    : list follower_row :=
  upsert same_follower_key merge_follower new tbl.

(** psycopg2 adapts the parameters before it sends the statement.  A dict
    has no adapter and a list is adapted element by element: for such a
    value [cur.execute] raises before anything reaches the database. *)
Fixpoint adaptable (v : json) : bool :=
  match v with
  | JDict _ => false
  | JList l => forallb adaptable l
  | _ => true
  end.

Definition cannot_adapt : exn := Exn ProgrammingError "can't adapt type 'dict'".

(** The open transaction after the INSERT. *)
Definition write_follower (new : follower_row) (c : session) : session :=
  Session (durable c)
    (Tables (user_playlists (pending c)) (upsert_follower new (playlist_followers (pending c)))).

(** [cur.execute("INSERT INTO playlist_followers ...")]: [accepts] is what
    becomes of the statement once its parameters are bound, the answer of
    the database. *)
Definition execute_follower (accepts : result unit) (new : follower_row) (c : session)
    : result session :=
  if adaptable (followers new) then _ <- accepts ;; Ok (write_follower new c)
  else Raise cannot_adapt.

(** [SELECT ... FROM user_playlists WHERE user_id = %s AND platform =
    'spotify']. *)
Definition select_playlists (user_id : string) (c : session) : list playlist_row :=
  filter (fun p => String.eqb (p_owner p) user_id && String.eqb (p_platform p) "spotify")
    (user_playlists (pending c)).

(** One POST, with no retry. *)
Definition get_spotify_token (a : attempt) : result json :=
  r <- attempt_outcome a ;;
  py_getitem (resp_json r) "access_token".

(** [get_playlist_followers]: [net] is what a GET of the URL does; the
    result is a Python value, [None] included. *)
Definition get_playlist_followers (net : string -> attempt) (playlist_id : string) : json :=
  let url := (SPOTIFY_PLAYLIST_URL ++ playlist_id)%string in
  match net url with
  | Fails _ => JNull
  | Responds r =>
      if (status_code r =? 200)%Z then
        match (node <- py_get (resp_json r) "followers" (JDict []) ;;
               py_get node "total" (JInt 0)) with
        | Ok total => total
        | Raise _ => JNull
        end
      else if (status_code r =? 404)%Z then JNull
      else JNull
  end.

(** [if playlist_id.startswith("spotify:playlist:"): playlist_id =
    playlist_id.split(":")[-1]]. *)
Definition strip_uri (playlist_id : string) : result string :=
  if startswith playlist_id "spotify:playlist:"
  then py_last (py_split ":"%char playlist_id)
  else Ok playlist_id.

Record playlist_world : Type := PlaylistWorld {
  p_token : attempt;                     (* the token endpoint *)
  p_connect : result unit;               (* db_conn() *)
  p_io : nat -> string -> attempt;       (* the n-th playlist: a GET of the URL *)
  p_execute : nat -> follower_row -> result unit;
                                         (* the n-th playlist: what becomes of the
                                            INSERT of the row once it is bound *)
  p_commit : result unit;                (* conn.commit() *)
  p_today : day                          (* date.today() *)
}.

Record playlist_state : Type := PlaylistState {
  pl_conn : session;
  pl_processed : nat;
  pl_errors : nat
}.

Definition no_startswith : exn :=
  Exn AttributeError "'NoneType' object has no attribute 'startswith'".

(** The body of [for playlist in playlists]. *)
Definition collect_playlist (net : string -> attempt)
    (accepts : follower_row -> result unit) (user_id : string) (day_iso : day)
    (p : playlist_row) (st : playlist_state) : result playlist_state :=
  match playlist_id p with
  | None => Raise no_startswith
  | Some raw =>
      pid <- strip_uri raw ;;
      let found := get_playlist_followers net pid in
      match found with
      | JNull => Ok (PlaylistState (pl_conn st) (pl_processed st) (pl_errors st + 1))
      | _ =>
          let row := FollowerRow "spotify" (playlist_uid p) day_iso found user_id in
          conn <- execute_follower (accepts row) row (pl_conn st) ;;
          Ok (PlaylistState conn (pl_processed st + 1) (pl_errors st))
      end
  end.

(** The loop has no handler of its own: it stops at the first exception. *)
Fixpoint playlist_loop (w : playlist_world) (user_id : string) (day_iso : day)
    (playlists : list (nat * playlist_row)) (st : playlist_state)
    : playlist_state * option exn :=
  match playlists with
  | [] => (st, None)
  | (n, p) :: rest =>
      match collect_playlist (p_io w n) (p_execute w n) user_id day_iso p st with
      | Ok st' => playlist_loop w user_id day_iso rest st'
      | Raise e => (st, Some e)
      end
  end.

Record playlist_outcome : Type := PlaylistOutcome {
  p_status : result unit;
  p_db : tables;
  p_processed : nat;
  p_errors : nat
}.

(** [day_override or date.today().isoformat()]. *)
Definition playlist_day (today : day) (day_override : option day) : day :=
  match day_override with
  | Some d => d
  | None => today
  end.

Definition run_playlist_followers_collection (w : playlist_world) (user_id : string)
    (day_override : option day) (db : tables) : playlist_outcome :=
  let day_iso := playlist_day (p_today w) day_override in
  match get_spotify_token (p_token w) with
  | Raise e => PlaylistOutcome (Raise e) db 0 0
  | Ok bearer =>
  match p_connect w with
  | Raise e => PlaylistOutcome (Raise e) db 0 0
  | Ok _ =>
      let conn := session_open db in
      let '(st, failure) :=
        playlist_loop w user_id day_iso
          (enumerate_from 0 (select_playlists user_id conn)) (PlaylistState conn 0 0) in
      match failure with
      | Some e =>
          PlaylistOutcome (Raise e) (durable (session_rollback (pl_conn st)))
            (pl_processed st) (pl_errors st)
      | None =>
          match p_commit w with
          | Raise e =>
              PlaylistOutcome (Raise e) (durable (session_rollback (pl_conn st)))
                (pl_processed st) (pl_errors st)
          | Ok _ =>
              PlaylistOutcome (Ok tt) (durable (session_commit (pl_conn st)))
                (pl_processed st) (pl_errors st)
          end
      end
  end end.

(** The user's playlists on the platform, numbered. *)
Definition playlists_of (user_id : string) (db : tables) : list (nat * playlist_row) :=
  enumerate_from 0 (select_playlists user_id (session_open db)).

(** What the loop body does for a playlist: the row it writes, [Ok None]
    for a playlist it counts as an error, or the exception it raises. *)
Definition follower_row_of (net : string -> attempt)
    (accepts : follower_row -> result unit) (user_id : string) (day_iso : day)
    (p : playlist_row) : result (option follower_row) :=
  match playlist_id p with
  | None => Raise no_startswith
  | Some raw =>
      pid <- strip_uri raw ;;
      match get_playlist_followers net pid with
      | JNull => Ok None
      | total =>
          let row := FollowerRow "spotify" (playlist_uid p) day_iso total user_id in
          if adaptable total then _ <- accepts row ;; Ok (Some row)
          else Raise cannot_adapt
      end
  end.

(** The rows written and the playlists counted as errors, up to the end of
    the list or to the first exception. *)
Fixpoint follower_rows (w : playlist_world) (user_id : string) (day_iso : day)
    (playlists : list (nat * playlist_row)) : list follower_row * nat * option exn :=
  match playlists with
  | [] => ([], 0, None)
  | (n, p) :: rest =>
      match follower_row_of (p_io w n) (p_execute w n) user_id day_iso p with
      | Raise e => ([], 0, Some e)
      | Ok None =>
          let '(rows, failed, failure) := follower_rows w user_id day_iso rest in
          (rows, S failed, failure)
      | Ok (Some row) =>
          let '(rows, failed, failure) := follower_rows w user_id day_iso rest in
          (row :: rows, failed, failure)
      end
  end.

(** A playlist the loop gets past: it has an identifier, and the follower
    count, if one came back, can be bound to the statement and is accepted
    by the database. *)
Definition playlist_passes (w : playlist_world) (user_id : string) (day_iso : day)
    (np : nat * playlist_row) : Prop :=
  exists raw pid,
    playlist_id (snd np) = Some raw /\ strip_uri raw = Ok pid
    /\ let found := get_playlist_followers (p_io w (fst np)) pid in
       found = JNull
       \/ (adaptable found = true
           /\ p_execute w (fst np)
                (FollowerRow "spotify" (playlist_uid (snd np)) day_iso found user_id) = Ok tt).

Definition with_followers (db : tables) (rows : list follower_row) : tables :=
  Tables (user_playlists db) (upsert_all upsert_follower rows (playlist_followers db)).

(** What the loop keeps true. *)
Record playlist_inv (st0 st : playlist_state) (rows : list follower_row)
    (failed : nat) : Prop := PlaylistInv {
  pi_durable : durable (pl_conn st) = durable (pl_conn st0);
  pi_playlists : user_playlists (pending (pl_conn st)) = user_playlists (pending (pl_conn st0));
  pi_followers :
    playlist_followers (pending (pl_conn st))
    = upsert_all upsert_follower rows (playlist_followers (pending (pl_conn st0)));
  pi_processed : pl_processed st = pl_processed st0 + List.length rows;
  pi_errors : pl_errors st = pl_errors st0 + failed
}.

End PlaylistFollowers.

(** ** main: the HTTP endpoints *)

(** What a handler reads from the request. *)
Record flask_request : Type := FlaskRequest {
  header_token : option string;   (* request.headers.get("x-automation-token") *)
  query_token : option string;    (* request.args.get("token") *)
  request_json : result json      (* request.json *)
}.

(** [check_token]: [x or y] is [y] when [x] is [None] or empty. *)
Definition check_token (AUTOMATION_TOKEN : option string) (req : flask_request) : bool :=
  if negb (nonempty AUTOMATION_TOKEN) then true
  else
    let token := if nonempty (header_token req) then header_token req else query_token req in
    match token, AUTOMATION_TOKEN with
    | Some t, Some configured => String.eqb t configured
    | _, _ => false
    end.

(** The work a handler starts. *)
Inductive call : Type :=
| StartThread (user_id date : json)      (* run_all_tasks(user_id, date) in a thread *)
| RunStreams (user_id date : json)       (* run_streams_collection(user_id, date) *)
| RunFollowers (user_id date : json)     (* run_playlist_followers_collection(...) *)
| RunHealth (user_id : json).            (* run_catalogue_health_check(user_id) *)

(** The module's global state: [running_task] with its [done()]. *)
Record task : Type := Task { done : bool }.

Record server : Type := Server { running_task : option task }.

(** What a handler does: its return value or the exception it lets
    through, the work it started and the global state it leaves. *)
Record handled : Type := Handled {
  answer : result (json * Z);
  calls : list call;
  state : server
}.

Definition unauthorized : json * Z := (JDict [("error", JStr "Unauthorized")], 403%Z).
Definition user_id_required : json * Z :=
  (JDict [("error", JStr "user_id required")], 400%Z).
Definition already_running : json * Z :=
  (JDict [("error", JStr "Task already running")], 429%Z).
Definition completed : json * Z := (JDict [("status", JStr "completed")], 200%Z).

(** [data = request.json or {}]. *)
Definition request_data (req : flask_request) : result json :=
  body <- request_json req ;;
  Ok (if truthy body then body else JDict []).

Definition run_manual (AUTOMATION_TOKEN : option string) (req : flask_request) (s : server)
    : handled :=
  if negb (check_token AUTOMATION_TOKEN req) then Handled (Ok unauthorized) [] s
  else
    match (data <- request_data req ;;
           user_id <- py_get data "user_id" JNull ;;
           date <- py_get data "date" JNull ;;
           Ok (user_id, date)) with
    | Raise e => Handled (Raise e) [] s
    | Ok (user_id, date) =>
        if negb (truthy user_id) then Handled (Ok user_id_required) [] s
        else
          let busy :=
            match running_task s with
            | Some t => negb (done t)
            | None => false
            end in
          if busy then Handled (Ok already_running) [] s
          else
            Handled (Ok (JDict [("status", JStr "started"); ("user_id", user_id)], 202%Z))
              [StartThread user_id date] s
    end.

(** [run_streams_only]: [service] is what the awaited collection does; it
    returns [None], which is what [jsonify] is given. *)
Definition run_streams_only (AUTOMATION_TOKEN : option string) (req : flask_request)
    (service : result unit) (s : server) : handled :=
  if negb (check_token AUTOMATION_TOKEN req) then Handled (Ok unauthorized) [] s
  else
    match (data <- request_data req ;;
           user_id <- py_get data "user_id" JNull ;;
           Ok (data, user_id)) with
    | Raise e => Handled (Raise e) [] s
    | Ok (data, user_id) =>
        if negb (truthy user_id) then Handled (Ok user_id_required) [] s
        else
          match py_get data "date" JNull with
          | Raise e => Handled (Raise e) [] s
          | Ok date =>
              match service with
              | Raise e => Handled (Raise e) [RunStreams user_id date] s
              | Ok _ => Handled (Ok (JNull, 200%Z)) [RunStreams user_id date] s
              end
          end
    end.

Definition run_followers_only (AUTOMATION_TOKEN : option string) (req : flask_request)
    (service : result unit) (s : server) : handled :=
  if negb (check_token AUTOMATION_TOKEN req) then Handled (Ok unauthorized) [] s
  else
    match (data <- request_data req ;;
           user_id <- py_get data "user_id" JNull ;;
           Ok (data, user_id)) with
    | Raise e => Handled (Raise e) [] s
    | Ok (data, user_id) =>
        if negb (truthy user_id) then Handled (Ok user_id_required) [] s
        else
          match py_get data "date" JNull with
          | Raise e => Handled (Raise e) [] s
          | Ok date =>
              match service with
              | Raise e => Handled (Raise e) [RunFollowers user_id date] s
              | Ok _ => Handled (Ok completed) [RunFollowers user_id date] s
              end
          end
    end.

Definition run_health_only (AUTOMATION_TOKEN : option string) (req : flask_request)
    (service : result unit) (s : server) : handled :=
  if negb (check_token AUTOMATION_TOKEN req) then Handled (Ok unauthorized) [] s
  else
    match (data <- request_data req ;;
           user_id <- py_get data "user_id" JNull ;;
           Ok (data, user_id)) with
    | Raise e => Handled (Raise e) [] s
    | Ok (data, user_id) =>
        if negb (truthy user_id) then Handled (Ok user_id_required) [] s
        else
          match service with
          | Raise e => Handled (Raise e) [RunHealth user_id] s
          | Ok _ => Handled (Ok completed) [RunHealth user_id] s
          end
    end.

(** The four POST endpoints. *)
Inductive endpoint : Type :=
| Run
| RunStreamsOnly
| RunFollowersOnly
| RunHealthOnly.

Definition dispatch (AUTOMATION_TOKEN : option string) (ep : endpoint) (req : flask_request)
    (service : result unit) (s : server) : handled :=
  match ep with
  | Run => run_manual AUTOMATION_TOKEN req s
  | RunStreamsOnly => run_streams_only AUTOMATION_TOKEN req service s
  | RunFollowersOnly => run_followers_only AUTOMATION_TOKEN req service s
  | RunHealthOnly => run_health_only AUTOMATION_TOKEN req service s
  end.

(** The requests a server process answers one after the other, from the
    state the module starts in. *)
Fixpoint serve (AUTOMATION_TOKEN : option string)
    (reqs : list (endpoint * flask_request * result unit)) (s : server) : list handled :=
  match reqs with
  | [] => []
  | (ep, req, service) :: rest =>
      let h := dispatch AUTOMATION_TOKEN ep req service s in
      h :: serve AUTOMATION_TOKEN rest (state h)
  end.

Definition initial_server : server := Server None.

Definition status_of (h : handled) : option Z :=
  match answer h with
  | Ok (_, code) => Some code
  | Raise _ => None
  end.

(** ** Vocabulary for the runs *)

(** A track the availability loop does not skip. *)
Definition has_metadata (t : track_row) : bool :=
  negb ((String.length (title t) =? 0) || (String.length (artist t) =? 0)).

(** A row of [streams] a run for [user_id] and [day_iso] may write to. *)
Definition in_scope (user_id : string) (day_iso : day) (db : database) (r : stream_row)
    : Prop :=
  platform r = "spotify" /\ stream_date r = day_iso
  /\ In (s_track_uid r) (map (fun nt => track_uid (snd nt)) (catalogue user_id db)).

(** A matching block whose elements agree pairwise. *)
Definition block_sound {A : Type} (eq_dec : forall x y : A, {x = y} + {x <> y})
    (a b : list A) (m : Difflib.Match) : Prop :=
  let '(i, j, k) := m in
  forall t, t < k -> Difflib.same_elt eq_dec (nth_error a (i + t)) (nth_error b (j + t)) = true.

(** The lengths recorded for row [i - 1] stand for runs of equal elements
    that end in that row. *)
Definition j2len_sound {A : Type} (eq_dec : forall x y : A, {x = y} + {x <> y})
    (a b : list A) (i : nat) (m : nat -> nat) : Prop :=
  forall j,
    m j <= i /\ m j <= j + 1
    /\ forall t, t < m j ->
         Difflib.same_elt eq_dec (nth_error a (i - 1 - t)) (nth_error b (j - t)) = true.

(** ** More sample data *)

(** The page's own document, a rejected query, the first accepted query and
    a later one. *)
Definition sample_browser : browser :=
  Browser (Ok tt) (Ok tt)
    [WebResponse "https://open.spotify.com/" 200 [];
     WebResponse "https://api-partner.spotify.com/pathfinder/v2/query" 401
       [("authorization", "Bearer stale")];
     WebResponse "https://api-partner.spotify.com/pathfinder/v2/query" 200
       [("authorization", "Bearer BQC-web"); ("client-token", "AAB-client")];
     WebResponse "https://api-partner.spotify.com/pathfinder/v2/query" 200
       [("authorization", "Bearer later")]].

(** Two playlists of the first user on the platform, one of them stored as
    a URI; the platform knows the first one only. *)
Definition sample_tables : PlaylistFollowers.tables :=
  PlaylistFollowers.Tables
    [PlaylistFollowers.PlaylistRow "pl-1" (Some "spotify:playlist:37i9dQZF1DX") "Focus"
       "spotify" "user-1";
     PlaylistFollowers.PlaylistRow "pl-2" (Some "5ABC") "Gone" "spotify" "user-1";
     PlaylistFollowers.PlaylistRow "pl-3" (Some "xyz") "Elsewhere" "deezer" "user-1";
     PlaylistFollowers.PlaylistRow "pl-4" None "Broken" "spotify" "user-2"]
    [].

Definition followers_response (n : Z) : response :=
  Response 200 (JDict [("followers", JDict [("href", JNull); ("total", JInt n)])]).

Definition sample_playlist_io (n : nat) (url : string) : attempt :=
  if String.eqb url "https://api.spotify.com/v1/playlists/37i9dQZF1DX"
  then Responds (followers_response 1234)
  else Responds (Response 404 (JDict [("error", JDict [("status", JInt 404)])])).

Definition sample_playlist_world : PlaylistFollowers.playlist_world :=
  PlaylistFollowers.PlaylistWorld (Responds token_response) (Ok tt) sample_playlist_io
    (fun _ _ => Ok tt) (Ok tt) 20000%Z.

(** The platform answers every playlist with a count that is an object. *)
Definition object_total_world : PlaylistFollowers.playlist_world :=
  PlaylistFollowers.PlaylistWorld (Responds token_response) (Ok tt)
    (fun _ _ =>
       Responds (Response 200
                   (JDict [("followers", JDict [("total", JDict [("value", JInt 5)])])])))
    (fun _ _ => Ok tt) (Ok tt) 20000%Z.

Definition sample_follower_row : PlaylistFollowers.follower_row :=
  PlaylistFollowers.FollowerRow "spotify" "pl-1" 20000%Z (JInt 1234) "user-1".

(** A row of [playlist_followers] a run for [user_id] and [day_iso] may
    write to. *)
Definition follower_in_scope (user_id : string) (day_iso : day)
    (db : PlaylistFollowers.tables) (r : PlaylistFollowers.follower_row) : Prop :=
  PlaylistFollowers.f_platform r = "spotify"
  /\ PlaylistFollowers.snapshot_date r = day_iso
  /\ In (PlaylistFollowers.f_playlist_uid r)
       (map (fun np => PlaylistFollowers.playlist_uid (snd np))
          (PlaylistFollowers.playlists_of user_id db)).

(** A request with the right token in the query string and a stale one in
    the header, and one with the token in the header. *)
Definition stale_header_request : flask_request :=
  FlaskRequest (Some "old-secret") (Some "secret")
    (Ok (JDict [("user_id", JStr "user-1")])).

Definition sample_request : flask_request :=
  FlaskRequest (Some "secret") None
    (Ok (JDict [("user_id", JStr "user-1"); ("date", JStr "2024-05-01")])).

(** The view refresh fails after the rows have been committed. *)
Definition view_locked : exn := Exn DatabaseError "could not refresh materialized view".

Definition refresh_fails_world : streams_world :=
  StreamsWorld third_time_lucky (Ok ("web-token", Some "client-token")) (Ok tt)
    sample_track_io (Ok tt) (Raise view_locked) (Ok tt) (Telegram true true) 20000%Z.

(** Every counter is the string 0, and the view refresh fails; and every
    counter is the string 0 while the bot is not configured. *)
Definition silent_refresh_fails_world : streams_world :=
  StreamsWorld third_time_lucky (Ok ("web-token", Some "client-token")) (Ok tt)
    (fun _ => TrackIO (answers (search_response [candidate_exact]))
                (answers (Response 200
                            (album_page [metric_entry "spotify:track:T1" (Some (JStr "0"))]))))
    (Ok tt) (Raise view_locked) (Ok tt) (Telegram true true) 20000%Z.

Definition silent_unconfigured_world : streams_world :=
  StreamsWorld third_time_lucky (Ok ("web-token", Some "client-token")) (Ok tt)
    (fun _ => TrackIO (answers (search_response [candidate_exact]))
                (answers (Response 200
                            (album_page [metric_entry "spotify:track:T1" (Some (JStr "0"))]))))
    (Ok tt) (Ok tt) (Ok tt) (Telegram false true) 20000%Z.

(** A table with a row of another day for the first track. *)
Definition yesterday_row : stream_row := StreamRow "spotify" "uid-1" 19998%Z 4800%Z "user-1".

Definition db_with_history : database :=
  Database (track_dim sample_db) [yesterday_row] [].

(** The tracks of a catalogue the availability loop checks. *)
Definition checked_tracks (user_id : string) (db : database) : list track_row :=
  filter has_metadata (map snd (catalogue user_id db)).

(** A row of [catalogue_health_status] a run for [user_id] on [today] may
    write to. *)
Definition health_in_scope (user_id : string) (today : day) (db : database)
    (r : health_row) : Prop :=
  check_date r = today /\ In (h_track_uid r) (map track_uid (checked_tracks user_id db)).

(** A table with the row of an earlier day for the first track. *)
Definition earlier_health_row : health_row :=
  HealthRow 19990%Z "uid-1" false true "user-1" None.

Definition db_with_health_history : database :=
  Database (track_dim sample_db) [] [earlier_health_row].

(** ** Candidates as the search API documents them *)




(** The override names a day other than the one the orchestrator reads
    from the clock. *)
Definition backfill_world : world :=
  World sample_streams_world (Ok tt) sample_health_world "2024-10-04".

(** Today under its ISO spelling and under another one, and the day
    before. *)
Definition today_iso : date_text := DateText "2024-10-04" 20000%Z.
Definition today_compact : date_text := DateText "20241004" 20000%Z.
Definition yesterday_iso : date_text := DateText "2024-10-03" 19999%Z.



(** A rectangle on the diagonal: the same stretch of both sequences. *)
Definition diagonal (r : Difflib.Rect) : Prop :=
  let '(alo, ahi, blo, bhi) := r in alo = blo /\ ahi = bhi /\ alo <= ahi.

(** The part of a rectangle a match can fill at most. *)
Definition room (r : Difflib.Rect) : nat :=
  Nat.min (Difflib.width r) (Difflib.height r).

(** The database is not configured for the availability check. *)
Definition database_url_not_set : exn := Exn RuntimeError "DATABASE_URL not set".

Definition no_database_world : world :=
  World sample_streams_world (Ok tt)
    (HealthWorld (Ok tt) (Raise database_url_not_set) sample_health_io 20000%Z 1700000000%Z)
    "2024-10-04".

(** The branches of a handler: the token check, the body, the user id,
    the date, what the service does and whether a task is running. *)
Ltac handler_cases tok req service s :=
  unfold run_manual, run_streams_only, run_followers_only, run_health_only;
  destruct (check_token tok req) eqn:Etok; cbn [negb];
  [destruct (request_data req) as [data|e] eqn:Edata; cbn [bind];
   [destruct (py_get data "user_id" JNull) as [user_id|e] eqn:Euser; cbn [bind];
    [destruct (py_get data "date" JNull) as [date|e] eqn:Edate; cbn [bind];
     destruct (truthy user_id) eqn:Etruthy; cbn [negb];
     try (destruct service as [[]|e']);
     try (destruct (running_task s) as [[[|]]|] eqn:Etask)
    |]
   |]
  |].


Unset Implicit Arguments.

(** * Facts about the sequence matcher *)
Module DifflibFacts.
Import Difflib.

Section Bounds.

Variable A : Type.
Variable eq_dec : forall x y : A, {x = y} + {x <> y}.
Variables a b : list A.

Lemma j2len_empty_ok alo blo i : j2len_ok alo blo i j2len_empty.
Proof. intros j. unfold j2len_empty. lia. Qed.

Lemma j2len_prev_le alo blo i m j :
  j2len_ok alo blo i m -> blo <= j ->
  j2len_prev m j <= i - alo /\ j2len_prev m j <= j - blo.
Proof.
  intros Hm Hj. destruct j as [|j']; cbn [j2len_prev]; [lia|].
  destruct (Hm j') as [H1 H2]. lia.
Qed.

Lemma flm_row_bounds alo ahi blo bhi i j2len :
  alo <= i -> i < ahi -> j2len_ok alo blo i j2len ->
  forall js newj2len best,
    j2len_ok alo blo (S i) newj2len -> in_rect alo ahi blo bhi best ->
    j2len_ok alo blo (S i) (fst (flm_row js i blo bhi j2len newj2len best))
    /\ in_rect alo ahi blo bhi (snd (flm_row js i blo bhi j2len newj2len best)).
Proof.
  intros Hlo Hhi Hold. induction js as [|j js IH]; intros newj2len best Hnew Hbest.
  - simpl. auto.
  - simpl. destruct (j <? blo) eqn:Hjb; [apply IH; assumption|].
    destruct (bhi <=? j) eqn:Hjh; [simpl; auto|].
    apply Nat.ltb_ge in Hjb. apply Nat.leb_gt in Hjh.
    destruct (j2len_prev_le _ _ _ _ j Hold Hjb) as [Hk1 Hk2].
    assert (Hnew' : j2len_ok alo blo (S i)
                      (j2len_set newj2len j (j2len_prev j2len j + 1))).
    { intros j'. unfold j2len_set. destruct (j' =? j) eqn:E.
      - apply Nat.eqb_eq in E. subst j'. lia.
      - apply Hnew. }
    destruct (snd best <? j2len_prev j2len j + 1) eqn:Hbetter.
    + apply IH; [assumption|]. unfold in_rect. lia.
    + apply IH; assumption.
Qed.

Lemma flm_rows_bounds alo ahi blo bhi :
  forall n i j2len best,
    alo <= i -> i + n <= ahi -> j2len_ok alo blo i j2len ->
    in_rect alo ahi blo bhi best ->
    in_rect alo ahi blo bhi (flm_rows eq_dec a b (seq i n) blo bhi j2len best).
Proof.
  induction n as [|n IH]; intros i j2len best Hlo Hhi Hj Hbest; simpl; [assumption|].
  destruct (flm_row (b2j_at eq_dec a b i) i blo bhi j2len j2len_empty best)
    as [newj2len best'] eqn:Hrow.
  assert (Hi : i < ahi) by lia.
  destruct (flm_row_bounds alo ahi blo bhi i j2len Hlo Hi Hj (b2j_at eq_dec a b i)
              j2len_empty best (j2len_empty_ok alo blo (S i)) Hbest) as [H1 H2].
  rewrite Hrow in H1, H2. simpl in H1, H2.
  apply IH; [lia|lia|assumption|assumption].
Qed.

Lemma extend_back_bounds alo ahi blo bhi :
  forall besti bestj bestsize,
    in_rect alo ahi blo bhi (besti, bestj, bestsize) ->
    in_rect alo ahi blo bhi (extend_back eq_dec a b alo blo besti bestj bestsize).
Proof.
  induction besti as [|i' IH]; intros bestj bestsize Hb; simpl; [assumption|].
  destruct bestj as [|j']; [assumption|].
  destruct ((alo <? S i') && (blo <? S j')
            && same_elt eq_dec (nth_error a i') (nth_error b j')) eqn:Hc;
    [|assumption].
  apply andb_true_iff in Hc. destruct Hc as [Hc _].
  apply andb_true_iff in Hc. destruct Hc as [Hi Hj].
  apply Nat.ltb_lt in Hi, Hj.
  apply IH. unfold in_rect in *. lia.
Qed.

Lemma extend_fwd_bounds ahi bhi besti bestj :
  forall n bestsize,
    besti + bestsize <= ahi -> bestj + bestsize <= bhi ->
    bestsize <= extend_fwd eq_dec a b n ahi bhi besti bestj bestsize
    /\ besti + extend_fwd eq_dec a b n ahi bhi besti bestj bestsize <= ahi
    /\ bestj + extend_fwd eq_dec a b n ahi bhi besti bestj bestsize <= bhi.
Proof.
  induction n as [|n IH]; intros bestsize Ha Hb; simpl; [lia|].
  destruct ((besti + bestsize <? ahi) && (bestj + bestsize <? bhi)
            && same_elt eq_dec (nth_error a (besti + bestsize))
                 (nth_error b (bestj + bestsize))) eqn:Hc; [|lia].
  apply andb_true_iff in Hc. destruct Hc as [Hc _].
  apply andb_true_iff in Hc. destruct Hc as [Hi Hj].
  apply Nat.ltb_lt in Hi, Hj.
  destruct (IH (S bestsize)) as (H1 & H2 & H3); lia.
Qed.

(** The block [find_longest_match] returns lies in the rectangle. *)
Lemma find_longest_match_bounds alo ahi blo bhi :
  alo <= ahi -> blo <= bhi ->
  in_rect alo ahi blo bhi (find_longest_match eq_dec a b alo ahi blo bhi).
Proof.
  intros Ha Hb. unfold find_longest_match.
  assert (H0 : in_rect alo ahi blo bhi
                 (flm_rows eq_dec a b (seq alo (ahi - alo)) blo bhi j2len_empty
                    (alo, blo, 0))).
  { apply flm_rows_bounds with (alo:=alo); [lia|lia|apply j2len_empty_ok|].
    unfold in_rect. lia. }
  destruct (flm_rows eq_dec a b (seq alo (ahi - alo)) blo bhi j2len_empty (alo, blo, 0))
    as [[i0 j0] k0].
  apply extend_back_bounds in H0.
  destruct (extend_back eq_dec a b alo blo i0 j0 k0) as [[i1 j1] k1].
  unfold in_rect in *.
  destruct (extend_fwd_bounds ahi bhi i1 j1 (ahi - (i1 + k1)) k1) as (H1 & H2 & H3); lia.
Qed.

Lemma matching_blocks_loop_spec :
  forall fuel queue acc,
    Forall rect_ok queue -> queue_work queue <= fuel ->
    exists blocks,
      matching_blocks_loop eq_dec a b fuel queue acc = Some blocks
      /\ sizes blocks <= sizes acc + list_sum (map width queue)
      /\ sizes blocks <= sizes acc + list_sum (map height queue).
Proof.
  unfold queue_work, sizes, list_sum.
  induction fuel as [|fuel IH]; intros queue acc Hq Hfuel.
  - destruct queue as [|[[[alo ahi] blo] bhi] queue'].
    + exists acc. simpl. split; [reflexivity|lia].
    + simpl in Hfuel. lia.
  - destruct queue as [|[[[alo ahi] blo] bhi] queue'].
    + exists acc. simpl. split; [reflexivity|lia].
    + inversion Hq as [|r q Hr Hq']; subst. destruct Hr as [Ha Hb].
      pose proof (find_longest_match_bounds alo ahi blo bhi Ha Hb) as Hm.
      cbn [matching_blocks_loop].
      destruct (find_longest_match eq_dec a b alo ahi blo bhi) as [[i j] k].
      unfold in_rect in Hm. destruct Hm as (H1 & H2 & H3 & H4).
      cbn [map fold_right width] in Hfuel.
      destruct (k =? 0) eqn:Hk.
      * destruct (IH queue' acc Hq') as (blocks & E & Hw & Hh); [lia|].
        exists blocks. split; [exact E|]. cbn [map fold_right width height]. lia.
      * apply Nat.eqb_neq in Hk.
        destruct ((alo <? i) && (blo <? j)) eqn:Hl;
          destruct ((i + k <? ahi) && (j + k <? bhi)) eqn:Hr;
          repeat match goal with
                 | H : _ && _ = true |- _ =>
                     apply andb_true_iff in H; destruct H
                 | H : (_ <? _) = true |- _ => apply Nat.ltb_lt in H
                 end;
          match goal with
          | |- context [matching_blocks_loop _ _ _ _ ?q ?ac] =>
              destruct (IH q ac) as (blocks & E & Hw & Hh);
                [ repeat (constructor; [unfold rect_ok; lia|]); exact Hq'
                | cbn [app map fold_right width]; lia
                | exists blocks; split; [exact E|];
                  cbn [app map fold_right width height block_size snd] in *; lia ]
          end.
Qed.

(** The budget [get_matching_blocks] starts with is enough: the loop ends
    with an empty queue. *)
Lemma get_matching_blocks_total :
  matching_blocks_loop eq_dec a b (matching_fuel a) [(0, length a, 0, length b)] []
  = Some (get_matching_blocks eq_dec a b).
Proof.
  unfold get_matching_blocks.
  destruct (matching_blocks_loop_spec (matching_fuel a) [(0, length a, 0, length b)] [])
    as (blocks & E & _).
  - constructor; [unfold rect_ok; lia|constructor].
  - unfold queue_work, matching_fuel. simpl. lia.
  - rewrite E. reflexivity.
Qed.

Lemma matches_le : matches eq_dec a b <= length a /\ matches eq_dec a b <= length b.
Proof.
  unfold matches, get_matching_blocks.
  destruct (matching_blocks_loop_spec (matching_fuel a) [(0, length a, 0, length b)] [])
    as (blocks & E & Hw & Hh).
  - constructor; [unfold rect_ok; lia|constructor].
  - unfold queue_work, matching_fuel. simpl. lia.
  - rewrite E. unfold sizes in *. simpl in Hw, Hh. lia.
Qed.

End Bounds.

(** A sequence compared with itself: the longest match is the whole
    sequence, popular elements or not. *)
Section Reflexive.

Variable A : Type.
Variable eq_dec : forall x y : A, {x = y} + {x <> y}.
Variable a : list A.

Lemma indices_from_In x : forall l s j,
  In j (indices_from eq_dec x l s) <-> s <= j /\ nth_error l (j - s) = Some x.
Proof.
  induction l as [|y l IH]; intros s j; simpl.
  - split; [tauto|]. intros [_ H]. destruct (j - s); discriminate.
  - destruct (eq_dec y x) as [->|Hne]; simpl; rewrite IH; split.
    + intros [<-|[H1 H2]].
      * rewrite Nat.sub_diag. simpl. split; [lia|reflexivity].
      * split; [lia|]. replace (j - s) with (S (j - S s)) by lia. exact H2.
    + intros [H1 H2]. destruct (Nat.eq_dec s j) as [->|Hsj]; [left; reflexivity|].
      right. split; [lia|]. replace (j - s) with (S (j - S s)) in H2 by lia. exact H2.
    + intros [H1 H2]. split; [lia|].
      replace (j - s) with (S (j - S s)) by lia. exact H2.
    + intros [H1 H2]. destruct (Nat.eq_dec s j) as [->|Hsj].
      * rewrite Nat.sub_diag in H2. simpl in H2. congruence.
      * split; [lia|]. replace (j - s) with (S (j - S s)) in H2 by lia. exact H2.
Qed.

Lemma indices_from_sorted x : forall l s,
  StronglySorted lt (indices_from eq_dec x l s).
Proof.
  induction l as [|y l IH]; intros s; simpl; [constructor|].
  destruct (eq_dec y x); [|apply IH].
  constructor; [apply IH|].
  apply Forall_forall. intros j Hj. apply indices_from_In in Hj. lia.
Qed.

Lemma chain_b_cases x :
  chain_b eq_dec a x = [] \/ chain_b eq_dec a x = indices_from eq_dec x a 0.
Proof.
  unfold chain_b.
  destruct ((200 <=? length a) && (length a / 100 + 1 <? length (indices_from eq_dec x a 0)));
    auto.
Qed.

Lemma b2j_at_sorted i : StronglySorted lt (b2j_at eq_dec a a i).
Proof.
  unfold b2j_at. destruct (nth_error a i) as [x|]; [|constructor].
  destruct (chain_b_cases x) as [-> | ->]; [constructor|apply indices_from_sorted].
Qed.

Lemma b2j_at_elem i j :
  In j (b2j_at eq_dec a a i) ->
  j < length a /\ b2j_at eq_dec a a j = b2j_at eq_dec a a i.
Proof.
  unfold b2j_at. destruct (nth_error a i) as [x|] eqn:Hi; [|intros []].
  destruct (chain_b_cases x) as [-> | E]; [intros []|].
  rewrite E. intros Hj. apply indices_from_In in Hj. destruct Hj as [_ Hj].
  rewrite Nat.sub_0_r in Hj. split.
  - apply nth_error_Some. congruence.
  - rewrite Hj. exact E.
Qed.

Lemma b2j_at_self i :
  b2j_at eq_dec a a i <> [] -> In i (b2j_at eq_dec a a i).
Proof.
  unfold b2j_at. destruct (nth_error a i) as [x|] eqn:Hi; [|congruence].
  destruct (chain_b_cases x) as [-> | ->]; [congruence|].
  intros _. apply indices_from_In. rewrite Nat.sub_0_r. split; [lia|exact Hi].
Qed.

Lemma run_kept i : kept eq_dec a i = true -> (run eq_dec a) i = j2len_prev (run eq_dec a) i + 1.
Proof. destruct i as [|i']; simpl; intros ->; lia. Qed.

Lemma run_not_kept i : kept eq_dec a i = false -> (run eq_dec a) i = 0.
Proof. destruct i as [|i']; simpl; intros ->; reflexivity. Qed.

Lemma kept_elem i j : In j (b2j_at eq_dec a a i) -> kept eq_dec a j = true /\ kept eq_dec a i = true.
Proof.
  intros Hj. destruct (b2j_at_elem i j Hj) as [_ E].
  unfold kept. rewrite E. destruct (b2j_at eq_dec a a i); [destruct Hj|auto].
Qed.

Lemma flm_row_diag i j2len :
  lens_below eq_dec a j2len (j2len_prev (run eq_dec a) i) ->
  j2len_prev j2len i = j2len_prev (run eq_dec a) i ->
  forall js newj2len best,
    (forall j, In j js -> In j (b2j_at eq_dec a a i)) ->
    StronglySorted lt js ->
    lens_below eq_dec a newj2len ((run eq_dec a) i) ->
    (In i js \/ (newj2len i = (run eq_dec a) i /\ (run eq_dec a) i <= snd best)) ->
    best_diag eq_dec a i best ->
    let res := flm_row js i 0 (length a) j2len newj2len best in
    lens_below eq_dec a (fst res) ((run eq_dec a) i)
    /\ fst res i = (run eq_dec a) i
    /\ best_diag eq_dec a (S i) (snd res).
Proof.
  intros Hold Hdiag. induction js as [|j js IH];
    intros newj2len best Hsub Hsorted Hnew Hself Hbest; cbn [flm_row].
  - destruct Hself as [[]|[H1 H2]]. cbn [fst snd]. split; [exact Hnew|].
    split; [exact H1|]. destruct Hbest as [Hd Hr]. split; [exact Hd|].
    intros j Hj. destruct (Nat.eq_dec j i) as [->|]; [exact H2|apply Hr; lia].
  - assert (Hj : In j (b2j_at eq_dec a a i)) by (apply Hsub; left; reflexivity).
    destruct (b2j_at_elem i j Hj) as [Hlen _].
    destruct (kept_elem i j Hj) as [Hkj Hki].
    replace (j <? 0) with false by (symmetry; apply Nat.ltb_ge; lia).
    replace (length a <=? j) with false by (symmetry; apply Nat.leb_gt; exact Hlen).
    inversion Hsorted as [|j0 js0 Hsorted' Hall]; subst.
    assert (Hsub' : forall j', In j' js -> In j' (b2j_at eq_dec a a i))
      by (intros j' H'; apply Hsub; right; exact H').
    set (k := j2len_prev j2len j + 1).
    assert (Hkj' : k <= (run eq_dec a) j).
    { rewrite (run_kept j Hkj). unfold k. destruct j as [|j']; cbn [j2len_prev]; [lia|].
      destruct (Hold j'). lia. }
    assert (Hki' : k <= (run eq_dec a) i).
    { rewrite (run_kept i Hki). unfold k. destruct j as [|j']; cbn [j2len_prev]; [lia|].
      destruct (Hold j'). lia. }
    assert (Hnew' : lens_below eq_dec a (j2len_set newj2len j k) ((run eq_dec a) i)).
    { intros j'. unfold j2len_set. destruct (j' =? j) eqn:E.
      - apply Nat.eqb_eq in E. subst j'. lia.
      - apply Hnew. }
    destruct Hbest as [Hd Hr].
    destruct (lt_eq_lt_dec j i) as [[Hlt|Heq]|Hgt].
    + (* below the diagonal: row [j] already gave a block this long *)
      assert (Hno : (snd best <? k) = false)
        by (apply Nat.ltb_ge; specialize (Hr j Hlt); lia).
      rewrite Hno. apply IH; try assumption; [|split; assumption].
      destruct Hself as [[Heq|Hin]|[H1 H2]]; [lia|left; exact Hin|].
      right. split; [|exact H2]. unfold j2len_set.
      replace (i =? j) with false by (symmetry; apply Nat.eqb_neq; lia). exact H1.
    + (* on the diagonal *)
      subst j. assert (Hk : k = (run eq_dec a) i) by (rewrite (run_kept i Hki); unfold k; lia).
      assert (Hset : j2len_set newj2len i k i = (run eq_dec a) i)
        by (unfold j2len_set; rewrite Nat.eqb_refl; exact Hk).
      destruct (snd best <? k) eqn:Hbetter.
      * apply IH; try assumption.
        -- right. split; [exact Hset|]. cbn [snd]. lia.
        -- apply Nat.ltb_lt in Hbetter. split; [reflexivity|].
           intros j' Hj'. cbn [snd]. specialize (Hr j' Hj'). lia.
      * apply Nat.ltb_ge in Hbetter. apply IH; try assumption; [|split; assumption].
        right. split; [exact Hset|lia].
    + (* above the diagonal: the diagonal cell came first *)
      assert (Hnot : ~ In i (j :: js)).
      { intros [Heq|Hin]; [lia|]. rewrite Forall_forall in Hall.
        specialize (Hall i Hin). lia. }
      destruct Hself as [Hin|[H1 H2]]; [contradiction|].
      assert (Hno : (snd best <? k) = false) by (apply Nat.ltb_ge; lia).
      rewrite Hno. apply IH; try assumption; [|split; assumption].
      right. split; [|exact H2]. unfold j2len_set.
      replace (i =? j) with false by (symmetry; apply Nat.eqb_neq; lia). exact H1.
Qed.

Lemma flm_rows_diag : forall n i j2len best,
  lens_below eq_dec a j2len (j2len_prev (run eq_dec a) i) ->
  j2len_prev j2len i = j2len_prev (run eq_dec a) i ->
  best_diag eq_dec a i best ->
  best_diag eq_dec a (i + n) (flm_rows eq_dec a a (seq i n) 0 (length a) j2len best).
Proof.
  induction n as [|n IH]; intros i j2len best Hold Hdiag Hbest; cbn [seq flm_rows].
  - rewrite Nat.add_0_r. exact Hbest.
  - assert (Hrow := flm_row_diag i j2len Hold Hdiag (b2j_at eq_dec a a i) j2len_empty best
                      (fun j H => H) (b2j_at_sorted i)).
    destruct (flm_row (b2j_at eq_dec a a i) i 0 (length a) j2len j2len_empty best)
      as [newj2len best'].
    cbn [fst snd] in Hrow. destruct Hrow as (H1 & H2 & H3).
    + intros j. unfold j2len_empty. lia.
    + destruct (kept eq_dec a i) eqn:Hk.
      * left. apply b2j_at_self. unfold kept in Hk.
        destruct (b2j_at eq_dec a a i); [discriminate|congruence].
      * right. rewrite (run_not_kept i Hk). unfold j2len_empty. split; [reflexivity|lia].
    + exact Hbest.
    + replace (i + S n) with (S i + n) by lia. apply IH; assumption.
Qed.

Lemma same_elt_refl i : i < length a ->
  same_elt eq_dec (nth_error a i) (nth_error a i) = true.
Proof.
  intros Hi. destruct (nth_error a i) as [x|] eqn:E.
  - simpl. destruct (eq_dec x x); congruence.
  - apply nth_error_None in E. lia.
Qed.

Lemma extend_back_diag : forall besti bestsize,
  besti <= length a ->
  extend_back eq_dec a a 0 0 besti besti bestsize = (0, 0, besti + bestsize).
Proof.
  induction besti as [|i' IH]; intros bestsize Hle; cbn [extend_back]; [reflexivity|].
  rewrite (same_elt_refl i') by lia. cbn [Nat.ltb Nat.leb andb].
  rewrite IH by lia. f_equal. lia.
Qed.

Lemma extend_fwd_diag : forall n bestsize,
  bestsize + n = length a ->
  extend_fwd eq_dec a a n (length a) (length a) 0 0 bestsize = length a.
Proof.
  induction n as [|n IH]; intros bestsize Hn; cbn [extend_fwd]; [lia|].
  cbn [Nat.add]. replace (bestsize <? length a) with true
    by (symmetry; apply Nat.ltb_lt; lia).
  rewrite (same_elt_refl bestsize) by lia. cbn [andb]. apply IH. lia.
Qed.

(** The longest match of a sequence with itself is the whole sequence. *)
Lemma find_longest_match_self :
  find_longest_match eq_dec a a 0 (length a) 0 (length a) = (0, 0, length a).
Proof.
  unfold find_longest_match. rewrite Nat.sub_0_r.
  assert (Hd : best_diag eq_dec a (0 + length a)
                 (flm_rows eq_dec a a (seq 0 (length a)) 0 (length a) j2len_empty (0, 0, 0))).
  { apply flm_rows_diag.
    - intros j. unfold j2len_empty. lia.
    - reflexivity.
    - split; [reflexivity|]. intros j Hj. lia. }
  assert (Hb : in_rect 0 (length a) 0 (length a)
                 (flm_rows eq_dec a a (seq 0 (length a)) 0 (length a) j2len_empty (0, 0, 0))).
  { replace (seq 0 (length a)) with (seq 0 (length a - 0)) by (f_equal; lia).
    apply flm_rows_bounds with (alo := 0); [lia|lia|apply j2len_empty_ok|].
    unfold in_rect. lia. }
  destruct (flm_rows eq_dec a a (seq 0 (length a)) 0 (length a) j2len_empty (0, 0, 0))
    as [[i0 j0] k0].
  destruct Hd as [Hd _]. cbn [fst snd] in Hd. subst j0.
  unfold in_rect in Hb. rewrite extend_back_diag by lia.
  cbn [Nat.add]. rewrite extend_fwd_diag by lia. reflexivity.
Qed.

Lemma matches_self : matches eq_dec a a = length a.
Proof.
  unfold matches, get_matching_blocks, matching_fuel.
  replace (2 * length a + 1) with (S (2 * length a)) by lia.
  cbn [matching_blocks_loop]. rewrite find_longest_match_self.
  destruct (length a) as [|n] eqn:E; [reflexivity|].
  cbn [Nat.eqb Nat.ltb Nat.leb andb app].
  replace (0 + S n <=? n) with false by (symmetry; apply Nat.leb_gt; lia).
  cbn [andb app]. destruct (2 * S n); cbn; lia.
Qed.

End Reflexive.

Lemma Zpos_of_nat l : l <> 0 -> Z.pos (Pos.of_nat l) = Z.of_nat l.
Proof.
  intros H. rewrite <- positive_nat_Z. rewrite Nat2Pos.id by exact H. reflexivity.
Qed.

Lemma calculate_ratio_range m l : 2 * m <= l -> (0 <= calculate_ratio m l <= 1)%Q.
Proof.
  intros H. unfold calculate_ratio. destruct (l =? 0) eqn:E.
  - split; [discriminate|apply Qle_refl].
  - apply Nat.eqb_neq in E. unfold Qle. cbn [Qnum Qden]. split.
    + lia.
    + rewrite Z.mul_1_r, Z.mul_1_l, (Zpos_of_nat l E). lia.
Qed.

Lemma calculate_ratio_full m : (calculate_ratio m (m + m) == 1)%Q.
Proof.
  unfold calculate_ratio. destruct (m + m =? 0) eqn:E; [reflexivity|].
  apply Nat.eqb_neq in E. unfold Qeq. cbn [Qnum Qden].
  rewrite Z.mul_1_r, Z.mul_1_l, (Zpos_of_nat (m + m) E). lia.
Qed.

Lemma ratio_range (A : Type) (eq_dec : forall x y : A, {x = y} + {x <> y}) (a b : list A) :
  (0 <= ratio eq_dec a b <= 1)%Q.
Proof.
  unfold ratio. apply calculate_ratio_range.
  destruct (matches_le A eq_dec a b). lia.
Qed.

Lemma ratio_self (A : Type) (eq_dec : forall x y : A, {x = y} + {x <> y}) (a : list A) :
  (ratio eq_dec a a == 1)%Q.
Proof. unfold ratio. rewrite matches_self. apply calculate_ratio_full. Qed.

End DifflibFacts.

(** * The matching blocks are matches *)
Module DifflibSound.
Import Difflib.

Section Sound.

Variable A : Type.
Variable eq_dec : forall x y : A, {x = y} + {x <> y}.
Variables a b : list A.

Lemma same_elt_true (x y : option A) :
  same_elt eq_dec x y = true <-> exists u, x = Some u /\ y = Some u.
Proof.
  unfold same_elt. destruct x as [u|], y as [v|]; try (split; [discriminate|]).
  - destruct (eq_dec u v) as [->|Hne].
    + split; [eauto|reflexivity].
    + split; [discriminate|]. intros (w & H1 & H2). congruence.
  - intros (w & H1 & H2). discriminate.
  - intros (w & H1 & H2). discriminate.
  - intros (w & H1 & H2). discriminate.
Qed.

Lemma chain_b_elem x j : In j (chain_b eq_dec b x) -> nth_error b j = Some x.
Proof.
  unfold chain_b.
  destruct ((200 <=? length b) && (length b / 100 + 1 <? length (indices_from eq_dec x b 0)));
    [intros []|].
  intros H. apply DifflibFacts.indices_from_In in H. destruct H as [_ H].
  rewrite Nat.sub_0_r in H. exact H.
Qed.

Lemma b2j_at_match i j :
  In j (b2j_at eq_dec a b i) -> same_elt eq_dec (nth_error a i) (nth_error b j) = true.
Proof.
  unfold b2j_at. destruct (nth_error a i) as [x|] eqn:E; [|intros []].
  intros H. apply chain_b_elem in H. apply same_elt_true. eauto.
Qed.

Lemma j2len_empty_sound i : j2len_sound eq_dec a b i j2len_empty.
Proof.
  intros j. unfold j2len_empty. split; [lia|]. split; [lia|]. intros t Ht. lia.
Qed.

Lemma flm_row_sound i blo bhi j2len :
  j2len_sound eq_dec a b i j2len ->
  forall js newj2len best,
    (forall j, In j js -> same_elt eq_dec (nth_error a i) (nth_error b j) = true) ->
    j2len_sound eq_dec a b (S i) newj2len ->
    block_sound eq_dec a b best ->
    j2len_sound eq_dec a b (S i) (fst (flm_row js i blo bhi j2len newj2len best))
    /\ block_sound eq_dec a b (snd (flm_row js i blo bhi j2len newj2len best)).
Proof.
  intros Hold. induction js as [|j js IH]; intros newj2len best Hjs Hnew Hbest.
  - cbn. auto.
  - cbn [flm_row].
    assert (Hrest : forall j', In j' js ->
                               same_elt eq_dec (nth_error a i) (nth_error b j') = true)
      by (intros j' Hj'; apply Hjs; right; exact Hj').
    destruct (j <? blo); [apply IH; assumption|].
    destruct (bhi <=? j); [cbn; auto|].
    assert (Hhere : same_elt eq_dec (nth_error a i) (nth_error b j) = true)
      by (apply Hjs; left; reflexivity).
    assert (Hprev : j2len_prev j2len j <= i /\ j2len_prev j2len j <= j
                    /\ forall t, t < j2len_prev j2len j ->
                         same_elt eq_dec (nth_error a (i - 1 - t)) (nth_error b (j - 1 - t))
                         = true).
    { destruct j as [|j']; cbn [j2len_prev].
      - split; [lia|]. split; [lia|]. intros t Ht. lia.
      - destruct (Hold j') as (H1 & H2 & H3). split; [exact H1|]. split; [lia|].
        intros t Ht. replace (S j' - 1 - t) with (j' - t) by lia. apply H3. exact Ht. }
    destruct Hprev as (Hp1 & Hp2 & Hp3).
    set (k := j2len_prev j2len j + 1) in *.
    assert (Hrun : forall t, t < k ->
                     same_elt eq_dec (nth_error a (i - t)) (nth_error b (j - t)) = true).
    { intros t Ht. destruct t as [|t].
      - rewrite !Nat.sub_0_r. exact Hhere.
      - replace (i - S t) with (i - 1 - t) by lia.
        replace (j - S t) with (j - 1 - t) by lia.
        apply Hp3. unfold k in Ht. lia. }
    assert (Hnew' : j2len_sound eq_dec a b (S i) (j2len_set newj2len j k)).
    { intros j'. unfold j2len_set. destruct (j' =? j) eqn:E; [|apply Hnew].
      apply Nat.eqb_eq in E. subst j'. unfold k. split; [lia|]. split; [lia|].
      intros t Ht. replace (S i - 1 - t) with (i - t) by lia. apply Hrun. exact Ht. }
    destruct (snd best <? k).
    + apply IH; [assumption|assumption|].
      unfold block_sound. intros t Ht.
      replace (i + 1 - k + t) with (i - (k - 1 - t)) by (unfold k in *; lia).
      replace (j + 1 - k + t) with (j - (k - 1 - t)) by (unfold k in *; lia).
      apply Hrun. lia.
    + apply IH; assumption.
Qed.

Lemma flm_rows_sound blo bhi : forall n i j2len best,
  j2len_sound eq_dec a b i j2len -> block_sound eq_dec a b best ->
  block_sound eq_dec a b (flm_rows eq_dec a b (seq i n) blo bhi j2len best).
Proof.
  induction n as [|n IH]; intros i j2len best Hj Hbest; cbn [seq flm_rows]; [assumption|].
  destruct (flm_row_sound i blo bhi j2len Hj (b2j_at eq_dec a b i) j2len_empty best
              (b2j_at_match i) (j2len_empty_sound (S i)) Hbest) as [H1 H2].
  destruct (flm_row (b2j_at eq_dec a b i) i blo bhi j2len j2len_empty best)
    as [newj2len best'].
  cbn [fst snd] in H1, H2. apply IH; assumption.
Qed.

Lemma extend_back_sound alo blo : forall besti bestj bestsize,
  block_sound eq_dec a b (besti, bestj, bestsize) ->
  block_sound eq_dec a b (extend_back eq_dec a b alo blo besti bestj bestsize).
Proof.
  induction besti as [|i' IH]; intros bestj bestsize Hb; cbn [extend_back]; [assumption|].
  destruct bestj as [|j']; [assumption|].
  destruct ((alo <? S i') && (blo <? S j')
            && same_elt eq_dec (nth_error a i') (nth_error b j')) eqn:Hc; [|assumption].
  apply andb_true_iff in Hc. destruct Hc as [_ Hc].
  apply IH. unfold block_sound in *. intros t Ht. destruct t as [|t].
  - rewrite !Nat.add_0_r. exact Hc.
  - replace (i' + S t) with (S i' + t) by lia. replace (j' + S t) with (S j' + t) by lia.
    apply Hb. lia.
Qed.

Lemma extend_fwd_sound ahi bhi besti bestj : forall n bestsize,
  block_sound eq_dec a b (besti, bestj, bestsize) ->
  block_sound eq_dec a b
    (besti, bestj, extend_fwd eq_dec a b n ahi bhi besti bestj bestsize).
Proof.
  induction n as [|n IH]; intros bestsize Hb; cbn [extend_fwd]; [assumption|].
  destruct ((besti + bestsize <? ahi) && (bestj + bestsize <? bhi)
            && same_elt eq_dec (nth_error a (besti + bestsize))
                 (nth_error b (bestj + bestsize))) eqn:Hc; [|assumption].
  apply andb_true_iff in Hc. destruct Hc as [_ Hc].
  apply IH. unfold block_sound in *. intros t Ht.
  destruct (Nat.eq_dec t bestsize) as [->|Hne]; [exact Hc|apply Hb; lia].
Qed.

(** The block [find_longest_match] returns is a run of equal elements. *)
Lemma find_longest_match_sound alo ahi blo bhi :
  block_sound eq_dec a b (find_longest_match eq_dec a b alo ahi blo bhi).
Proof.
  unfold find_longest_match.
  assert (H0 : block_sound eq_dec a b
                 (flm_rows eq_dec a b (seq alo (ahi - alo)) blo bhi j2len_empty
                    (alo, blo, 0))).
  { apply flm_rows_sound; [apply j2len_empty_sound|]. intros t Ht. lia. }
  destruct (flm_rows eq_dec a b (seq alo (ahi - alo)) blo bhi j2len_empty (alo, blo, 0))
    as [[i0 j0] k0].
  apply (extend_back_sound alo blo) in H0.
  destruct (extend_back eq_dec a b alo blo i0 j0 k0) as [[i1 j1] k1].
  apply extend_fwd_sound. exact H0.
Qed.

Lemma matching_blocks_loop_sound : forall fuel queue acc blocks,
  Forall (block_sound eq_dec a b) acc ->
  matching_blocks_loop eq_dec a b fuel queue acc = Some blocks ->
  Forall (block_sound eq_dec a b) blocks.
Proof.
  induction fuel as [|fuel IH]; intros queue acc blocks Hacc H.
  - destruct queue as [|[[[alo ahi] blo] bhi] queue']; cbn in H; [|discriminate].
    injection H as <-. exact Hacc.
  - destruct queue as [|[[[alo ahi] blo] bhi] queue']; cbn [matching_blocks_loop] in H.
    + injection H as <-. exact Hacc.
    + pose proof (find_longest_match_sound alo ahi blo bhi) as Hm.
      destruct (find_longest_match eq_dec a b alo ahi blo bhi) as [[i j] k].
      destruct (k =? 0); [apply (IH _ _ _ Hacc H)|].
      apply (IH _ _ _ (Forall_cons _ Hm Hacc) H).
Qed.

(** Every matching block is a run of pairwise equal elements of the two
    sequences. *)
Lemma get_matching_blocks_sound :
  Forall (block_sound eq_dec a b) (get_matching_blocks eq_dec a b).
Proof.
  apply (matching_blocks_loop_sound (matching_fuel a) [(0, length a, 0, length b)] []);
    [constructor|apply DifflibFacts.get_matching_blocks_total].
Qed.

(** A match needs a common element. *)
Lemma matches_positive :
  0 < matches eq_dec a b -> exists x, In x a /\ In x b.
Proof.
  unfold matches. pose proof get_matching_blocks_sound as Hs.
  induction (get_matching_blocks eq_dec a b) as [|[[i j] k] l IH]; cbn; [lia|].
  inversion Hs as [|? ? Hm Hl]; subst. intros Hpos.
  destruct k as [|k]; [apply IH; [exact Hl|cbn in Hpos; exact Hpos]|].
  specialize (Hm 0 ltac:(lia)). rewrite !Nat.add_0_r in Hm.
  apply same_elt_true in Hm. destruct Hm as (u & Ha & Hb).
  exists u. split; eapply nth_error_In; eassumption.
Qed.

End Sound.

End DifflibSound.

(** * A full score needs equal sequences *)
Module DifflibExact.
Import Difflib.

Section Exact.

Variable A : Type.
Variable eq_dec : forall x y : A, {x = y} + {x <> y}.
Variables a b : list A.

Lemma sum_from (l : list nat) (start : nat) :
  fold_right Init.Nat.add start l = fold_right Init.Nat.add 0 l + start.
Proof. induction l as [|x l IH]; cbn [fold_right]; [reflexivity|]. rewrite IH. lia. Qed.

Lemma room_le_width q : list_sum (map room q) <= list_sum (map width q).
Proof.
  induction q as [|[[[alo ahi] blo] bhi] q IH]; [reflexivity|].
  unfold list_sum in *. cbn [map fold_right]. unfold room at 1. lia.
Qed.

(** The matches found in a rectangle fit in its shorter side. *)
Lemma matching_blocks_loop_room : forall fuel queue acc blocks,
  Forall rect_ok queue ->
  matching_blocks_loop eq_dec a b fuel queue acc = Some blocks ->
  sizes blocks <= sizes acc + list_sum (map room queue).
Proof.
  unfold sizes, list_sum.
  induction fuel as [|fuel IH]; intros queue acc blocks Hq H.
  - destruct queue as [|[[[alo ahi] blo] bhi] queue']; cbn in H; [|discriminate].
    injection H as <-. cbn. lia.
  - destruct queue as [|[[[alo ahi] blo] bhi] queue']; cbn [matching_blocks_loop] in H.
    + injection H as <-. cbn. lia.
    + inversion Hq as [|r q Hr Hq']; subst. destruct Hr as [Ha Hb].
      pose proof (DifflibFacts.find_longest_match_bounds A eq_dec a b alo ahi blo bhi Ha Hb)
        as Hm.
      destruct (find_longest_match eq_dec a b alo ahi blo bhi) as [[i j] k].
      unfold in_rect in Hm. destruct Hm as (H1 & H2 & H3 & H4).
      cbn [map fold_right]. unfold room at 1, width at 1, height at 1.
      destruct (k =? 0) eqn:Hk.
      * specialize (IH queue' acc blocks Hq' H). lia.
      * destruct ((alo <? i) && (blo <? j)) eqn:Hl;
          destruct ((i + k <? ahi) && (j + k <? bhi)) eqn:Hr;
          repeat match goal with
                 | H : _ && _ = true |- _ =>
                     apply andb_true_iff in H; destruct H
                 | H : (_ <? _) = true |- _ => apply Nat.ltb_lt in H
                 end;
          match type of H with
          | matching_blocks_loop _ _ _ _ ?q ?ac = _ =>
              assert (Hq2 : Forall rect_ok q)
                by (repeat (constructor; [unfold rect_ok; lia|]); exact Hq');
              specialize (IH q ac blocks Hq2 H);
              cbn [app map fold_right block_size snd] in IH;
              unfold room, width, height in IH; unfold room, width, height; lia
          end.
Qed.

(** When the matches fill the queued diagonal rectangles completely, the
    two sequences agree on every position of these. *)
Lemma matching_blocks_loop_exact : forall fuel queue acc blocks,
  Forall diagonal queue ->
  matching_blocks_loop eq_dec a b fuel queue acc = Some blocks ->
  sizes blocks = sizes acc + list_sum (map width queue) ->
  forall alo ahi blo bhi p,
    In (alo, ahi, blo, bhi) queue -> alo <= p < ahi ->
    same_elt eq_dec (nth_error a p) (nth_error b p) = true.
Proof.
  induction fuel as [|fuel IH]; intros queue acc blocks Hq H Hfull alo ahi blo bhi p Hin Hp.
  - destruct queue as [|r queue']; [destruct Hin|]. destruct r as [[[? ?] ?] ?].
    cbn in H. discriminate.
  - destruct queue as [|[[[lo hi] lo'] hi'] queue']; [destruct Hin|].
    inversion Hq as [|r q Hr Hq']; subst. destruct Hr as (<- & <- & Hle).
    assert (Hok : Forall rect_ok queue').
    { apply Forall_forall. intros [[[x1 x2] x3] x4] Hx.
      rewrite Forall_forall in Hq'. destruct (Hq' _ Hx) as (-> & -> & Hx'). split; lia. }
    cbn [matching_blocks_loop] in H.
    pose proof (DifflibFacts.find_longest_match_bounds A eq_dec a b lo hi lo hi Hle Hle)
      as Hm.
    pose proof (DifflibSound.find_longest_match_sound A eq_dec a b lo hi lo hi) as Hs.
    destruct (find_longest_match eq_dec a b lo hi lo hi) as [[i j] k].
    unfold in_rect in Hm. destruct Hm as (H1 & H2 & H3 & H4).
    pose proof (room_le_width queue') as Hroom.
    unfold sizes, list_sum in Hfull, Hroom.
    cbn [map fold_right width] in Hfull.
    destruct (k =? 0) eqn:Hk.
    + pose proof (matching_blocks_loop_room fuel queue' acc blocks Hok H) as Hb.
      unfold sizes, list_sum in Hb.
      destruct Hin as [Hin|Hin]; [injection Hin as <- <- <- <-; lia|].
      apply (IH queue' acc blocks Hq' H) with (alo := alo) (ahi := ahi) (blo := blo)
        (bhi := bhi); [unfold sizes, list_sum; lia|exact Hin|exact Hp].
    + apply Nat.eqb_neq in Hk.
      set (left := if (lo <? i) && (lo <? j) then [(lo, i, lo, j)] else []) in *.
      set (right := if (i + k <? hi) && (j + k <? hi) then [(i + k, hi, j + k, hi)]
                    else []) in *.
      assert (Hokq : Forall rect_ok (right ++ left ++ queue')).
      { apply Forall_app. split; [|apply Forall_app; split; [|exact Hok]].
        - subst right. destruct ((i + k <? hi) && (j + k <? hi)); constructor;
            [split; lia|constructor].
        - subst left. destruct ((lo <? i) && (lo <? j)); constructor;
            [split; lia|constructor]. }
      pose proof (matching_blocks_loop_room fuel _ _ blocks Hokq H) as Hb.
      unfold sizes, list_sum in Hb.
      rewrite !map_app, !fold_right_app in Hb.
      cbn [map fold_right block_size snd] in Hb.
      rewrite (sum_from (map room right)), (sum_from (map room left)) in Hb.
      assert (Hl : fold_right Init.Nat.add 0 (map room left) <= Nat.min (i - lo) (j - lo)
                   /\ (fold_right Init.Nat.add 0 (map room left) = i - lo -> i = j ->
                       Forall diagonal left
                       /\ fold_right Init.Nat.add 0 (map width left) = i - lo
                       /\ (lo < i -> In (lo, i, lo, i) left))).
      { subst left. destruct ((lo <? i) && (lo <? j)) eqn:E.
        - cbn [map fold_right]. unfold room, width, height. split; [lia|]. intros _ <-.
          split; [constructor; [split; [reflexivity|split; [reflexivity|lia]]
                               |constructor]|].
          split; [lia|]. intros _. left. reflexivity.
        - cbn [map fold_right]. split; [lia|]. intros H0 <-.
          split; [constructor|]. split; [lia|]. intros Hlt. lia. }
      assert (Hr : fold_right Init.Nat.add 0 (map room right)
                   <= Nat.min (hi - (i + k)) (hi - (j + k))
                   /\ (fold_right Init.Nat.add 0 (map room right) = hi - (i + k) -> i = j ->
                       Forall diagonal right
                       /\ fold_right Init.Nat.add 0 (map width right) = hi - (i + k)
                       /\ (i + k < hi -> In (i + k, hi, i + k, hi) right))).
      { subst right. destruct ((i + k <? hi) && (j + k <? hi)) eqn:E.
        - cbn [map fold_right]. unfold room, width, height. split; [lia|]. intros _ <-.
          split; [constructor; [split; [reflexivity|split; [reflexivity|lia]]
                               |constructor]|].
          split; [lia|]. intros _. left. reflexivity.
        - cbn [map fold_right]. split; [lia|]. intros H0 <-.
          split; [constructor|]. split; [lia|]. intros Hlt. lia. }
      destruct Hl as [Hl1 Hl2]. destruct Hr as [Hr1 Hr2].
      assert (Hij : i = j) by (unfold Rect in *; lia). subst j.
      unfold Rect in *.
      destruct Hl2 as (Hdl & Hwl & Hinl); [lia|reflexivity|].
      destruct Hr2 as (Hdr & Hwr & Hinr); [lia|reflexivity|].
      assert (Hdq : Forall diagonal (right ++ left ++ queue')).
      { apply Forall_app. split; [exact Hdr|apply Forall_app; split; assumption]. }
      assert (Hfull' : sizes blocks
                       = sizes ((i, i, k) :: acc)
                         + list_sum (map width (right ++ left ++ queue'))).
      { unfold sizes, list_sum. rewrite !map_app, !fold_right_app.
        cbn [map fold_right block_size snd].
        unfold Rect in *.
        rewrite (sum_from (map width right)), (sum_from (map width left)).
        unfold Rect. lia. }
      pose proof (IH _ _ blocks Hdq H Hfull') as Hall.
      destruct Hin as [Hin|Hin].
      * injection Hin as <- <- <- <-.
        destruct (Nat.lt_ge_cases p i) as [Hpi|Hpi].
        -- apply (Hall lo i lo i p); [|lia].
           apply in_or_app. right. apply in_or_app. left. apply Hinl. lia.
        -- destruct (Nat.lt_ge_cases p (i + k)) as [Hpk|Hpk].
           ++ specialize (Hs (p - i) ltac:(lia)).
              replace (i + (p - i)) with p in Hs by lia. exact Hs.
           ++ apply (Hall (i + k) hi (i + k) hi p); [|lia].
              apply in_or_app. left. apply Hinr. lia.
      * apply (Hall alo ahi blo bhi p); [|exact Hp].
        apply in_or_app. right. apply in_or_app. right. exact Hin.
Qed.

(** Sequences of one length that match in all their elements are equal. *)
Lemma matches_full_equal :
  length a = length b -> matches eq_dec a b = length a -> a = b.
Proof.
  intros Hlen Hfull. apply nth_error_ext. intros p.
  destruct (Nat.lt_ge_cases p (length a)) as [Hp|Hp].
  - pose proof (DifflibFacts.get_matching_blocks_total A eq_dec a b) as Hloop.
    assert (H : same_elt eq_dec (nth_error a p) (nth_error b p) = true).
    { apply (matching_blocks_loop_exact (matching_fuel a) [(0, length a, 0, length b)] []
               (get_matching_blocks eq_dec a b)) with (alo := 0) (ahi := length a)
        (blo := 0) (bhi := length b).
      - constructor; [split; [reflexivity|split; [exact Hlen|lia]]|constructor].
      - exact Hloop.
      - unfold matches in Hfull. unfold sizes. rewrite Hfull. cbn. lia.
      - left. reflexivity.
      - lia. }
    apply DifflibSound.same_elt_true in H. destruct H as (u & -> & ->). reflexivity.
  - rewrite (proj2 (nth_error_None a p)) by lia.
    rewrite (proj2 (nth_error_None b p)) by lia. reflexivity.
Qed.

(** The ratio is 1 only for equal sequences. *)
Lemma ratio_one_equal : (ratio eq_dec a b == 1)%Q -> a = b.
Proof.
  unfold ratio, calculate_ratio. intros H.
  destruct (DifflibFacts.matches_le A eq_dec a b) as [Ha Hb].
  destruct (length a + length b =? 0) eqn:E.
  - apply Nat.eqb_eq in E.
    destruct a; [|cbn in E; lia]. destruct b; [reflexivity|cbn in E; lia].
  - apply Nat.eqb_neq in E. unfold Qeq in H. cbn [Qnum Qden] in H.
    rewrite DifflibFacts.Zpos_of_nat in H by lia.
    apply matches_full_equal; lia.
Qed.

End Exact.

End DifflibExact.

Section WorkerFacts.

Context {U : Runtime}.

(** * The similarity matcher *)

Lemma length_lower s : String.length (lower s) = String.length s.
Proof. induction s as [|c s IH]; simpl; congruence. Qed.

Lemma length_chars s : List.length (chars s) = String.length s.
Proof. induction s as [|c s IH]; simpl; congruence. Qed.

Lemma length_zero_empty s : (String.length s =? 0) = true <-> s = "".
Proof. destruct s; simpl; split; congruence. Qed.



Lemma similar_range a b : (0 <= similar a b <= 1)%Q.
Proof.
  unfold similar. destruct ((String.length a =? 0) || (String.length b =? 0)).
  - split; discriminate.
  - apply DifflibFacts.ratio_range.
Qed.

Lemma nonempty_length s : s <> "" -> (String.length s =? 0) = false.
Proof.
  intros H. destruct (String.length s =? 0) eqn:E; [|reflexivity].
  apply length_zero_empty in E. contradiction.
Qed.

Lemma similar_nonempty a b :
  a <> "" -> b <> "" -> similar a b = Difflib.ratio N.eq_dec (str_lower a) (str_lower b).
Proof.
  intros Ha Hb. unfold similar.
  rewrite (nonempty_length a Ha), (nonempty_length b Hb). reflexivity.
Qed.

Lemma similar_same_case a b :
  a <> "" -> b <> "" -> str_lower a = str_lower b -> (similar a b == 1)%Q.
Proof.
  intros Ha Hb Hab. rewrite (similar_nonempty a b Ha Hb), Hab.
  apply DifflibFacts.ratio_self.
Qed.





(** * Catalog A: the match rule *)






Lemma apple_try_retried artist title a :
  apple_retried a = true ->
  apple_try artist title a = Ok None
  \/ exists e, apple_try artist title a = Raise e /\ is_request_exception e = true.
Proof.
  destruct a as [[status body]|e]; cbn [apple_retried apple_try status_code].
  - destruct (status =? 403)%Z; [left; reflexivity|]. cbn [orb]. intros H. right.
    unfold raise_for_status. cbn [status_code]. rewrite H. cbn [bind]. eauto.
  - intros H. right. eauto.
Qed.


Lemma apple_attempts_skip artist title net attempt rest :
  apple_retried (net attempt) = true -> attempt < 2 ->
  apple_attempts (attempt :: rest) artist title net = apple_attempts rest artist title net.
Proof.
  intros H Hlt. cbn [apple_attempts].
  destruct (apple_try_retried artist title _ H) as [-> | (e & -> & He)]; [reflexivity|].
  rewrite He. apply Nat.ltb_lt in Hlt. rewrite Hlt. reflexivity.
Qed.

Lemma apple_attempts_last artist title net :
  apple_retried (net 2) = true ->
  apple_attempts [2] artist title net = Ok false.
Proof.
  intros H. cbn [apple_attempts].
  destruct (apple_try_retried artist title _ H) as [-> | (e & -> & He)]; [reflexivity|].
  rewrite He. reflexivity.
Qed.


Lemma check_apple_unanswered artist title net :
  (forall k, k < 3 -> apple_retried (net k) = true) ->
  check_apple_music_api artist title net = Ok false.
Proof.
  intros H. unfold check_apple_music_api. cbn [seq].
  rewrite !apple_attempts_skip by (try apply H; lia).
  apply apple_attempts_last. apply H. lia.
Qed.


Lemma sample_apple_scores :
  similar (text (artistName sample_apple_result)) sample_artist = (18 # 20)%Q
  /\ similar (text (trackName sample_apple_result)) sample_title = (16 # 20)%Q
  /\ similar (text (collectionName sample_apple_result)) sample_title = (18 # 20)%Q.
Proof. repeat split; vm_compute; reflexivity. Qed.


(** * The request executor *)

Lemma retry_loop_answer url net attempt rest r :
  attempt_outcome (net attempt) = Ok r ->
  retry_loop url (attempt :: rest) net = (Ok r, [Request attempt]).
Proof. intros H. cbn [retry_loop]. rewrite H. reflexivity. Qed.

Lemma retry_loop_fatal url net attempt rest e :
  attempt_outcome (net attempt) = Raise e -> is_request_exception e = false ->
  retry_loop url (attempt :: rest) net = (Raise e, [Request attempt]).
Proof. intros H He. cbn [retry_loop]. rewrite H, He. reflexivity. Qed.

Lemma retry_loop_again url net attempt rest e :
  attempt_outcome (net attempt) = Raise e -> is_request_exception e = true ->
  attempt < 2 ->
  retry_loop url (attempt :: rest) net
  = (fst (retry_loop url rest net),
     Request attempt :: Warning attempt e :: Sleep (2 ^ attempt)
       :: snd (retry_loop url rest net)).
Proof.
  intros H He Hlt. cbn [retry_loop]. rewrite H, He.
  apply Nat.ltb_lt in Hlt. rewrite Hlt.
  destruct (retry_loop url rest net). reflexivity.
Qed.

Lemma retry_loop_give_up url net rest e :
  attempt_outcome (net 2) = Raise e -> is_request_exception e = true ->
  retry_loop url (2 :: rest) net = (Raise e, [Request 2; Warning 2 e]).
Proof. intros H He. cbn [retry_loop]. rewrite H, He. reflexivity. Qed.

Lemma retried_inv a :
  retried a = true ->
  exists e, attempt_outcome a = Raise e /\ is_request_exception e = true.
Proof. unfold retried. destruct (attempt_outcome a) as [r|e]; [discriminate|eauto]. Qed.

(** Three failed attempts: the third error comes back. *)
Lemma executor_exhausted url net :
  (forall k, k < 3 -> retried (net k) = true) ->
  exists e evs,
    attempt_outcome (net 2) = Raise e
    /\ is_request_exception e = true
    /\ spotify_request_with_retries url net = (Raise e, evs)
    /\ attempts_made evs = 3.
Proof.
  intros H.
  destruct (retried_inv (net 0)) as (e0 & H0 & He0); [apply H; lia|].
  destruct (retried_inv (net 1)) as (e1 & H1 & He1); [apply H; lia|].
  destruct (retried_inv (net 2)) as (e2 & H2 & He2); [apply H; lia|].
  exists e2. eexists. split; [exact H2|]. split; [exact He2|].
  unfold spotify_request_with_retries. cbn [seq].
  rewrite (retry_loop_again url net 0 _ e0 H0 He0) by lia.
  rewrite (retry_loop_again url net 1 _ e1 H1 He1) by lia.
  rewrite (retry_loop_give_up url net _ e2 H2 He2).
  cbn [fst snd]. split; reflexivity.
Qed.

(** The first attempt that does not fail with a request exception decides. *)
Lemma executor_decided url net k :
  k < 3 ->
  (forall k', k' < k -> retried (net k') = true) ->
  retried (net k) = false ->
  exists evs,
    spotify_request_with_retries url net = (attempt_outcome (net k), evs)
    /\ attempts_made evs = k + 1.
Proof.
  intros Hk Hbefore Hnow.
  assert (Hlast : forall rest, exists evs,
             retry_loop url (k :: rest) net = (attempt_outcome (net k), evs)
             /\ attempts_made evs = 1).
  { intros rest. unfold retried in Hnow.
    destruct (attempt_outcome (net k)) as [r|e] eqn:E.
    - exists [Request k]. rewrite (retry_loop_answer url net k rest r E). split; reflexivity.
    - exists [Request k]. rewrite (retry_loop_fatal url net k rest e E Hnow).
      split; reflexivity. }
  unfold spotify_request_with_retries. cbn [seq].
  destruct k as [|[|[|k]]]; [| | |lia].
  - destruct (Hlast [1; 2]) as (evs & E & Hn). exists evs. rewrite E. split; [reflexivity|exact Hn].
  - destruct (retried_inv (net 0)) as (e0 & H0 & He0); [apply Hbefore; lia|].
    destruct (Hlast [2]) as (evs & E & Hn).
    rewrite (retry_loop_again url net 0 _ e0 H0 He0) by lia. rewrite E. cbn [fst snd].
    eexists. split; [reflexivity|]. unfold attempts_made in *. cbn [filter List.length].
    rewrite Hn. reflexivity.
  - destruct (retried_inv (net 0)) as (e0 & H0 & He0); [apply Hbefore; lia|].
    destruct (retried_inv (net 1)) as (e1 & H1 & He1); [apply Hbefore; lia|].
    destruct (Hlast []) as (evs & E & Hn).
    rewrite (retry_loop_again url net 0 _ e0 H0 He0) by lia.
    rewrite (retry_loop_again url net 1 _ e1 H1 He1) by lia. rewrite E. cbn [fst snd].
    eexists. split; [reflexivity|]. unfold attempts_made in *. cbn [filter List.length].
    rewrite Hn. reflexivity.
Qed.

(** Either some attempt decides or all three are retried. *)
Lemma executor_cases net :
  (forall k, k < 3 -> retried (net k) = true)
  \/ exists k, k < 3 /\ (forall k', k' < k -> retried (net k') = true)
               /\ retried (net k) = false.
Proof.
  destruct (retried (net 0)) eqn:E0.
  - destruct (retried (net 1)) eqn:E1.
    + destruct (retried (net 2)) eqn:E2.
      * left. intros k Hk. destruct k as [|[|[|k]]]; [assumption..|lia].
      * right. exists 2. split; [lia|]. split; [|exact E2].
        intros k' Hk'. destruct k' as [|[|k']]; [assumption..|lia].
    + right. exists 1. split; [lia|]. split; [|exact E1].
      intros k' Hk'. destruct k' as [|k']; [assumption|lia].
  - right. exists 0. split; [lia|]. split; [|exact E0]. intros k' Hk'. lia.
Qed.

(** Whatever the executor raises was raised by one of its attempts: the
    statement after the loop is never reached. *)
Lemma executor_raises_attempt_error url net e :
  request url net = Raise e ->
  exists k, k < 3 /\ attempt_outcome (net k) = Raise e.
Proof.
  unfold request. intros H. destruct (executor_cases net) as [Hall|(k & Hk & Hb & Hn)].
  - destruct (executor_exhausted url net Hall) as (e2 & evs & H2 & _ & E & _).
    rewrite E in H. cbn [fst] in H. injection H as <-. exists 2. split; [lia|exact H2].
  - destruct (executor_decided url net k Hk Hb Hn) as (evs & E & _).
    rewrite E in H. cbn [fst] in H. exists k. split; [exact Hk|exact H].
Qed.

Lemma executor_request_exception_iff url net e :
  request url net = Raise e ->
  (is_request_exception e = true <-> forall k, k < 3 -> retried (net k) = true).
Proof.
  unfold request. intros H. destruct (executor_cases net) as [Hall|(k & Hk & Hb & Hn)].
  - destruct (executor_exhausted url net Hall) as (e2 & evs & _ & He2 & E & _).
    rewrite E in H. cbn [fst] in H. injection H as <-. tauto.
  - destruct (executor_decided url net k Hk Hb Hn) as (evs & E & _).
    rewrite E in H. cbn [fst] in H. unfold retried in Hn. rewrite H in Hn. split.
    + congruence.
    + intros Hall. specialize (Hall k Hk). unfold retried in Hall. rewrite H in Hall.
      congruence.
Qed.

(** C2, as the code has it.  When all three attempts fail with a request
    exception the executor has made exactly 3 attempts and re-raises the
    third attempt's own exception; a response that passes [raise_for_status]
    on attempt k is returned after k + 1 attempts, whatever the earlier
    attempts raised; an exception of another class leaves on the attempt
    where it occurs.  A request exception reaches the caller exactly when
    all three attempts failed with one, and every exception the caller sees was raised by
    an attempt: there is no failure of its own for exhausted retries. *)
Theorem executor_retry_contract : forall url net,
  ((forall k, k < 3 -> retried (net k) = true) ->
   exists e evs,
     attempt_outcome (net 2) = Raise e
     /\ is_request_exception e = true
     /\ spotify_request_with_retries url net = (Raise e, evs)
     /\ attempts_made evs = 3)
  /\ (forall k r,
        k < 3 -> (forall k', k' < k -> retried (net k') = true) ->
        attempt_outcome (net k) = Ok r ->
        exists evs,
          spotify_request_with_retries url net = (Ok r, evs) /\ attempts_made evs = k + 1)
  /\ (forall k e,
        k < 3 -> (forall k', k' < k -> retried (net k') = true) ->
        attempt_outcome (net k) = Raise e -> is_request_exception e = false ->
        exists evs,
          spotify_request_with_retries url net = (Raise e, evs) /\ attempts_made evs = k + 1)
  /\ (forall e,
        request url net = Raise e ->
        (is_request_exception e = true <-> forall k, k < 3 -> retried (net k) = true)
        /\ exists k, k < 3 /\ attempt_outcome (net k) = Raise e).
Proof.
  intros url net. split; [apply executor_exhausted|]. split; [|split].
  - intros k r Hk Hb Hr.
    destruct (executor_decided url net k Hk Hb) as (evs & E & Hn).
    + unfold retried. rewrite Hr. reflexivity.
    + exists evs. rewrite E, Hr. split; [reflexivity|exact Hn].
  - intros k e Hk Hb He Hcls.
    destruct (executor_decided url net k Hk Hb) as (evs & E & Hn).
    + unfold retried. rewrite He. exact Hcls.
    + exists evs. rewrite E, He. split; [reflexivity|exact Hn].
  - intros e H. split; [exact (executor_request_exception_iff url net e H)|].
    apply executor_raises_attempt_error with (url := url). exact H.
Qed.


(** * The track resolver *)











(** * The metrics extractor *)

Lemma digits_value_nonneg s : (0 <= digits_value s)%Z.
Proof.
  unfold digits_value.
  assert (H : forall l acc, (0 <= acc)%Z ->
            (0 <= fold_left (fun acc c => 10 * acc + Z.of_nat (nat_of_ascii c - 48)) l acc)%Z).
  { induction l as [|c l IH]; intros acc Hacc; cbn [fold_left]; [exact Hacc|].
    apply IH. lia. }
  apply H. lia.
Qed.

Lemma ascii_digits_nonempty s : ascii_digits s = true -> (String.length s =? 0) = false.
Proof.
  unfold ascii_digits. intros H. apply andb_true_iff in H. destruct H as [H _].
  apply negb_true_iff in H. exact H.
Qed.

Lemma is_digit_char_ascii c : is_digit_char c = true -> (nat_of_ascii c <? 128) = true.
Proof.
  unfold is_digit_char. intros H. apply andb_true_iff in H. destruct H as [_ H].
  apply Nat.leb_le in H. apply Nat.ltb_lt. lia.
Qed.

Lemma ascii_digits_ascii s : ascii_digits s = true -> is_ascii s = true.
Proof.
  unfold ascii_digits, is_ascii. intros H. apply andb_true_iff in H. destruct H as [_ H].
  rewrite forallb_forall in *. intros c Hc. apply is_digit_char_ascii. apply H. exact Hc.
Qed.

Lemma isdigit_ascii_digits s : ascii_digits s = true -> isdigit s = true.
Proof. intros H. unfold isdigit. rewrite (ascii_digits_ascii s H). exact H. Qed.

Lemma isdigit_nonempty s : isdigit s = true -> (String.length s =? 0) = false.
Proof.
  unfold isdigit. destruct (is_ascii s) eqn:Ea.
  - apply ascii_digits_nonempty.
  - intros _. destruct s; [discriminate Ea|reflexivity].
Qed.

Lemma int_of_str_digits s :
  ascii_digits s = true -> String.length s <= INT_MAX_STR_DIGITS ->
  int_of_str s = Ok (digits_value s).
Proof.
  intros Hd Hl. unfold int_of_str. rewrite Hd. apply Nat.leb_le in Hl. rewrite Hl.
  reflexivity.
Qed.

Lemma int_of_str_nonneg s n : int_of_str s = Ok n -> (0 <= n)%Z.
Proof.
  unfold int_of_str.
  destruct (ascii_digits s && (String.length s <=? INT_MAX_STR_DIGITS)).
  - intros H. injection H as <-. apply digits_value_nonneg.
  - destruct (unicode_int s) as [m|]; [|discriminate].
    intros H. injection H as <-. lia.
Qed.

Lemma int_of_str_raises s e : int_of_str s = Raise e -> e = invalid_literal.
Proof.
  unfold int_of_str.
  destruct (ascii_digits s && (String.length s <=? INT_MAX_STR_DIGITS)); [discriminate|].
  destruct (unicode_int s) as [m|]; [discriminate|]. intros H. injection H as <-. reflexivity.
Qed.

(** What [counter_of] makes of a string. *)
Lemma counter_of_string s :
  counter_of (JStr s)
  = if isdigit s then n <- int_of_str s ;; Ok (Some n) else Ok None.
Proof.
  unfold counter_of. cbn [truthy str_isdigit py_int]. destruct (isdigit s) eqn:Ed.
  - rewrite (isdigit_nonempty s Ed). reflexivity.
  - rewrite andb_false_r. reflexivity.
Qed.

(** The counters the code accepts: a string [isdigit()] accepts and [int()]
    converts, or an integer above zero. *)
Lemma counter_of_spec raw n :
  counter_of raw = Ok (Some n) <->
  (exists s, raw = JStr s /\ isdigit s = true /\ int_of_str s = Ok n)
  \/ (raw = JInt n /\ (0 < n)%Z).
Proof.
  destruct raw as [|b|z|s|l|kvs];
    try (unfold counter_of; cbn [truthy str_isdigit]; rewrite ?andb_false_r;
         split; [discriminate|]; intros [(s & H & _)|[H _]]; discriminate).
  - unfold counter_of. cbn [truthy str_isdigit py_int].
    destruct (negb (z =? 0)%Z && (0 <=? z)%Z) eqn:E; cbn [bind].
    + apply andb_true_iff in E. destruct E as [E1 E2].
      apply negb_true_iff in E1. apply Z.eqb_neq in E1. apply Z.leb_le in E2. split.
      * intros H. injection H as <-. right. split; [reflexivity|lia].
      * intros [(s & H & _)|[H Hp]]; [discriminate|]. injection H as ->. reflexivity.
    + split; [discriminate|]. intros [(s & H & _)|[H Hp]]; [discriminate|].
      injection H as ->. apply andb_false_iff in E. destruct E as [E|E].
      * apply negb_false_iff in E. apply Z.eqb_eq in E. lia.
      * apply Z.leb_gt in E. lia.
  - rewrite counter_of_string. destruct (isdigit s) eqn:Ed.
    + destruct (int_of_str s) as [m|e] eqn:Ei; cbn [bind]; split.
      * intros H. injection H as <-. left. eauto.
      * intros [(s' & H & _ & Hn)|[H _]]; [|discriminate].
        injection H as <-. congruence.
      * discriminate.
      * intros [(s' & H & _ & Hn)|[H _]]; [|discriminate].
        injection H as <-. congruence.
    + split; [discriminate|].
      intros [(s' & H & Hd & _)|[H _]]; [injection H as <-; congruence|discriminate].
Qed.

(** [counter_of] raises only where [int()] does: on a string [isdigit()]
    accepts that is no decimal literal. *)
Lemma counter_of_raises raw e :
  counter_of raw = Raise e <->
  exists s, raw = JStr s /\ isdigit s = true /\ int_of_str s = Raise e.
Proof.
  destruct raw as [|b|z|s|l|kvs];
    try (unfold counter_of; cbn [truthy str_isdigit]; rewrite ?andb_false_r;
         split; [discriminate|]; intros (s & H & _); discriminate).
  - unfold counter_of. cbn [truthy str_isdigit py_int].
    destruct (negb (z =? 0)%Z && (0 <=? z)%Z); cbn [bind];
      (split; [discriminate|]; intros (s & H & _); discriminate).
  - rewrite counter_of_string. destruct (isdigit s) eqn:Ed.
    + destruct (int_of_str s) as [m|e'] eqn:Ei; cbn [bind]; split.
      * discriminate.
      * intros (s' & H & _ & Hn). injection H as <-. congruence.
      * intros H. injection H as <-. eauto.
      * intros (s' & H & _ & Hn). injection H as <-. congruence.
    + split; [discriminate|]. intros (s' & H & Hd & _). injection H as <-. congruence.
Qed.

Lemma counter_of_nonneg raw n : counter_of raw = Ok (Some n) -> (0 <= n)%Z.
Proof.
  intros H. apply counter_of_spec in H.
  destruct H as [(s & _ & _ & H)|[_ H]]; [apply (int_of_str_nonneg s n H)|lia].
Qed.

Lemma entry_counter_spec uri item n :
  entry_counter uri item = Ok (Some n) <->
  exists t raw,
    py_get item "track" JNull = Ok t /\ truthy t = true
    /\ py_get t "uri" JNull = Ok (JStr uri)
    /\ py_get t "playcount" JNull = Ok raw
    /\ counter_of raw = Ok (Some n).
Proof.
  unfold entry_counter.
  destruct (py_get item "track" JNull) as [t|e] eqn:Et; cbn [bind].
  - destruct (truthy t) eqn:Ht.
    + destruct (py_get t "uri" JNull) as [u|e] eqn:Eu; cbn [bind].
      * destruct u as [|b|z|s|l|kvs];
          try (split; [discriminate|];
               intros (t' & raw & H1 & _ & H3 & _); congruence).
        destruct (String.eqb s uri) eqn:Es.
        -- apply String.eqb_eq in Es. subst s.
           destruct (py_get t "playcount" JNull) as [raw|e] eqn:Ep; cbn [bind].
           ++ split.
              ** intros H. exists t, raw. auto.
              ** intros (t' & raw' & H1 & _ & _ & H4 & H5). congruence.
           ++ split; [discriminate|].
              intros (t' & raw' & H1 & _ & _ & H4 & _). congruence.
        -- apply String.eqb_neq in Es. split; [discriminate|].
           intros (t' & raw & H1 & _ & H3 & _). congruence.
      * split; [discriminate|]. intros (t' & raw & H1 & _ & H3 & _). congruence.
    + split; [discriminate|]. intros (t' & raw & H1 & H2 & _). congruence.
  - split; [discriminate|]. intros (t' & raw & H1 & _). congruence.
Qed.

Lemma scan_entries_none uri l :
  scan_entries uri l = Ok None <-> Forall (no_counter uri) l.
Proof.
  induction l as [|x l IH]; cbn [scan_entries].
  - split; [constructor|reflexivity].
  - unfold no_counter at 1. destruct (entry_counter uri x) as [[n|]|e] eqn:E; cbn [bind].
    + split; [discriminate|]. intros H. inversion H as [|? ? Hx _]. unfold no_counter in Hx.
      congruence.
    + rewrite IH. split; [intros H; constructor; assumption|].
      intros H. inversion H. assumption.
    + split; [discriminate|]. intros H. inversion H as [|? ? Hx _]. unfold no_counter in Hx.
      congruence.
Qed.

Lemma scan_entries_some uri l n :
  scan_entries uri l = Ok (Some n) <->
  exists pre item post,
    l = pre ++ item :: post /\ Forall (no_counter uri) pre
    /\ entry_counter uri item = Ok (Some n).
Proof.
  induction l as [|x l IH]; cbn [scan_entries].
  - split; [discriminate|]. intros (pre & item & post & H & _). destruct pre; discriminate.
  - destruct (entry_counter uri x) as [[m|]|e] eqn:E; cbn [bind].
    + split.
      * intros H. injection H as <-. exists [], x, l. repeat split; [constructor|exact E].
      * intros (pre & item & post & H & Hpre & Hi). destruct pre as [|p pre].
        -- injection H as <- _. congruence.
        -- injection H as <- _. inversion Hpre as [|? ? Hx _]. unfold no_counter in Hx.
           congruence.
    + rewrite IH. split.
      * intros (pre & item & post & -> & Hpre & Hi). exists (x :: pre), item, post.
        repeat split; [constructor; assumption|exact Hi].
      * intros (pre & item & post & H & Hpre & Hi). destruct pre as [|p pre].
        -- injection H as <- _. congruence.
        -- injection H as <- ->. inversion Hpre. exists pre, item, post. auto.
    + split; [discriminate|].
      intros (pre & item & post & H & Hpre & Hi). destruct pre as [|p pre].
      * injection H as <- _. congruence.
      * injection H as <- _. inversion Hpre as [|? ? Hx _]. unfold no_counter in Hx.
        congruence.
Qed.

Lemma extract_playcount_path album_data data album page l tid :
  py_get album_data "data" (JDict []) = Ok data ->
  py_get data "albumUnion" (JDict []) = Ok album ->
  py_get album "tracksV2" (JDict []) = Ok page ->
  py_get page "items" (JList []) = Ok (JList l) ->
  extract_playcount album_data tid = scan_entries (track_uri tid) l.
Proof.
  intros H1 H2 H3 H4. unfold extract_playcount.
  rewrite H1. cbn [bind]. rewrite H2. cbn [bind]. rewrite H3. cbn [bind]. rewrite H4.
  reflexivity.
Qed.

(** A request that failed for good gives the empty dict. *)
Lemma fetch_album_exhausted net :
  (forall k, k < 3 -> retried (net k) = true) -> fetch_album net = Ok (JDict []).
Proof.
  intros H. unfold fetch_album, request.
  destruct (executor_exhausted SPOTIFY_PATHFINDER_URL net H) as (e & evs & _ & He & E & _).
  rewrite E. cbn [fst bind]. rewrite He. reflexivity.
Qed.

(** A response without a usable [data] envelope gives the empty dict. *)
Lemma fetch_album_no_data net r data :
  request SPOTIFY_PATHFINDER_URL net = Ok r ->
  py_get (resp_json r) "data" JNull = Ok data -> truthy data = false ->
  fetch_album net = Ok (JDict []).
Proof.
  intros H1 H2 H3. unfold fetch_album. rewrite H1. cbn [bind]. rewrite H2. cbn [bind].
  rewrite H3. reflexivity.
Qed.

Lemma fetch_album_data net r data :
  request SPOTIFY_PATHFINDER_URL net = Ok r ->
  py_get (resp_json r) "data" JNull = Ok data -> truthy data = true ->
  fetch_album net = Ok (resp_json r).
Proof.
  intros H1 H2 H3. unfold fetch_album. rewrite H1. cbn [bind]. rewrite H2. cbn [bind].
  rewrite H3. reflexivity.
Qed.

Lemma extract_playcount_empty tid : extract_playcount (JDict []) tid = Ok None.
Proof. reflexivity. Qed.

Lemma entry_counter_missing_field uri t :
  py_get t "uri" JNull = Ok (JStr uri) -> py_get t "playcount" JNull = Ok JNull ->
  entry_counter uri (JDict [("track", t)]) = Ok None.
Proof.
  intros Hu Hp. unfold entry_counter. cbn [py_get assoc String.eqb Ascii.eqb Bool.eqb bind].
  destruct (truthy t); [|reflexivity]. rewrite Hu. cbn [bind]. rewrite String.eqb_refl.
  rewrite Hp. reflexivity.
Qed.

Lemma counter_of_non_numeric s : isdigit s = false -> counter_of (JStr s) = Ok None.
Proof. intros H. rewrite counter_of_string, H. reflexivity. Qed.

(** * Keyed upserts *)

Section Upsert.

Variables (row K : Type).
Variable key : row -> K.
Variable same_key : row -> row -> bool.
Variable merge : row -> row -> row.

Hypothesis same_key_spec : forall a b, same_key a b = true <-> key a = key b.
Hypothesis merge_key : forall new old, key (merge new old) = key old.
Hypothesis merge_last : forall w w' r, merge w (merge w' r) = merge w r.

Let up := upsert same_key merge.

Lemma absorb_cons w writes r :
  absorb same_key merge (w :: writes) r
  = absorb same_key merge writes (if same_key w r then merge w r else r).
Proof. reflexivity. Qed.

Lemma upsert_all_cons w rows tbl :
  upsert_all up (w :: rows) tbl = upsert_all up rows (up w tbl).
Proof. reflexivity. Qed.

Lemma existsb_key new tbl :
  existsb (same_key new) tbl = true <-> In (key new) (map key tbl).
Proof.
  rewrite existsb_exists, in_map_iff. split.
  - intros (r & Hin & Hr). exists r. apply same_key_spec in Hr. auto.
  - intros (r & Hk & Hin). exists r. split; [exact Hin|]. apply same_key_spec. auto.
Qed.

Lemma upsert_keys_existing new tbl :
  existsb (same_key new) tbl = true -> map key (up new tbl) = map key tbl.
Proof.
  intros H. unfold up, upsert. rewrite H. rewrite map_map. apply map_ext.
  intros r. destruct (same_key new r); [apply merge_key|reflexivity].
Qed.

Lemma upsert_keys_fresh new tbl :
  existsb (same_key new) tbl = false -> map key (up new tbl) = map key tbl ++ [key new].
Proof. intros H. unfold up, upsert. rewrite H. apply map_app. Qed.

Lemma upsert_nodup new tbl :
  NoDup (map key tbl) -> NoDup (map key (up new tbl)).
Proof.
  intros H. destruct (existsb (same_key new) tbl) eqn:E.
  - rewrite upsert_keys_existing by exact E. exact H.
  - rewrite upsert_keys_fresh by exact E.
    apply NoDup_app; [exact H|repeat constructor; intros []|].
    intros k Hk [<-|[]]. apply existsb_key in Hk. congruence.
Qed.

Lemma upsert_has_key new tbl : In (key new) (map key (up new tbl)).
Proof.
  destruct (existsb (same_key new) tbl) eqn:E.
  - rewrite upsert_keys_existing by exact E. apply existsb_key. exact E.
  - rewrite upsert_keys_fresh by exact E. apply in_or_app. right. left. reflexivity.
Qed.

Lemma upsert_keeps_keys new tbl k :
  In k (map key tbl) -> In k (map key (up new tbl)).
Proof.
  intros H. destruct (existsb (same_key new) tbl) eqn:E.
  - rewrite upsert_keys_existing by exact E. exact H.
  - rewrite upsert_keys_fresh by exact E. apply in_or_app. left. exact H.
Qed.

Lemma upsert_all_nodup rows : forall tbl,
  NoDup (map key tbl) -> NoDup (map key (upsert_all up rows tbl)).
Proof.
  induction rows as [|w rows IH]; intros tbl H; [exact H|].
  rewrite upsert_all_cons. apply IH. apply upsert_nodup. exact H.
Qed.

Lemma upsert_all_keeps_keys rows : forall tbl k,
  In k (map key tbl) -> In k (map key (upsert_all up rows tbl)).
Proof.
  induction rows as [|w rows IH]; intros tbl k H; [exact H|].
  rewrite upsert_all_cons. apply IH. apply upsert_keeps_keys. exact H.
Qed.

Lemma upsert_all_has_keys rows : forall tbl w,
  In w rows -> In (key w) (map key (upsert_all up rows tbl)).
Proof.
  induction rows as [|w' rows IH]; intros tbl w Hin; [destruct Hin|].
  rewrite upsert_all_cons. destruct Hin as [->|Hin].
  - apply upsert_all_keeps_keys. apply upsert_has_key.
  - apply IH. exact Hin.
Qed.

Lemma absorb_key writes : forall r, key (absorb same_key merge writes r) = key r.
Proof.
  induction writes as [|w writes IH]; intros r; [reflexivity|].
  rewrite absorb_cons, IH. destruct (same_key w r); [apply merge_key|reflexivity].
Qed.

(** Writes whose keys are all in the table update it row by row: no row
    is added. *)
Lemma upsert_all_existing rows : forall tbl,
  (forall w, In w rows -> In (key w) (map key tbl)) ->
  upsert_all up rows tbl = map (absorb same_key merge rows) tbl.
Proof.
  induction rows as [|w rows IH]; intros tbl H.
  - cbn. rewrite map_id. reflexivity.
  - rewrite upsert_all_cons.
    assert (E : existsb (same_key w) tbl = true)
      by (apply existsb_key; apply H; left; reflexivity).
    rewrite IH.
    + unfold up at 1, upsert. rewrite E. rewrite map_map. reflexivity.
    + intros w' Hw'. apply upsert_keeps_keys. apply H. right. exact Hw'.
Qed.

Lemma same_key_merge w w' r : same_key w (merge w' r) = same_key w r.
Proof.
  destruct (same_key w r) eqn:E.
  - apply same_key_spec. rewrite merge_key. apply same_key_spec. exact E.
  - destruct (same_key w (merge w' r)) eqn:E'; [|reflexivity].
    apply same_key_spec in E'. rewrite merge_key in E'. apply same_key_spec in E'.
    congruence.
Qed.

(** A row absorbs the last write under its key. *)
Lemma absorb_last writes : forall r,
  absorb same_key merge writes r
  = match last_write same_key writes r with
    | Some w => merge w r
    | None => r
    end.
Proof.
  induction writes as [|w writes IH] using rev_ind; intros r; [reflexivity|].
  unfold absorb, last_write. rewrite !fold_left_app. cbn [fold_left].
  fold (absorb same_key merge writes r). fold (last_write same_key writes r).
  rewrite IH. destruct (last_write same_key writes r) as [w'|].
  - rewrite same_key_merge. destruct (same_key w r); [apply merge_last|reflexivity].
  - destruct (same_key w r); reflexivity.
Qed.

Lemma last_write_in writes : forall r w,
  last_write same_key writes r = Some w -> In w writes /\ same_key w r = true.
Proof.
  induction writes as [|w' writes IH] using rev_ind; intros r w; [discriminate|].
  unfold last_write. rewrite fold_left_app. cbn [fold_left].
  fold (last_write same_key writes r). destruct (same_key w' r) eqn:E.
  - intros H. injection H as <-. split; [apply in_or_app; right; left; reflexivity|exact E].
  - intros H. destruct (IH r w H) as [Hin Hs]. split; [apply in_or_app; auto|exact Hs].
Qed.

Lemma last_write_some writes : forall r w,
  In w writes -> same_key w r = true -> exists w', last_write same_key writes r = Some w'.
Proof.
  induction writes as [|w' writes IH] using rev_ind; intros r w Hin Hs; [destruct Hin|].
  unfold last_write. rewrite fold_left_app. cbn [fold_left].
  fold (last_write same_key writes r). destruct (same_key w' r) eqn:E; [eauto|].
  apply in_app_or in Hin. destruct Hin as [Hin|[->|[]]]; [|congruence].
  apply (IH r w Hin Hs).
Qed.

(** An upsert on a key that is present adds no row and merges the new
    values into the row with that key. *)
Lemma upsert_existing_overwrites new tbl :
  In (key new) (map key tbl) ->
  List.length (up new tbl) = List.length tbl
  /\ map key (up new tbl) = map key tbl
  /\ forall r, In r (up new tbl) -> same_key new r = true ->
       exists old, In old tbl /\ r = merge new old.
Proof.
  intros H. apply existsb_key in H. split; [|split].
  - unfold up, upsert. rewrite H. apply length_map.
  - apply upsert_keys_existing. exact H.
  - intros r Hr Hs. unfold up, upsert in Hr. rewrite H in Hr.
    apply in_map_iff in Hr. destruct Hr as (old & Hold & Hin).
    destruct (same_key new old) eqn:E.
    + exists old. auto.
    + subst r. congruence.
Qed.

(** With unique keys, exactly one row carries a key that is present. *)
Lemma unique_row w : forall tbl,
  NoDup (map key tbl) -> In (key w) (map key tbl) ->
  List.length (filter (same_key w) tbl) = 1.
Proof.
  induction tbl as [|r tbl IH]; intros Hnd Hin; [destruct Hin|].
  cbn [map] in Hnd, Hin. inversion Hnd as [|? ? Hnotin Hnd']; subst.
  cbn [filter]. destruct (same_key w r) eqn:E.
  - apply same_key_spec in E. cbn [List.length]. f_equal.
    assert (Hnone : forall l, ~ In (key w) (map key l) -> filter (same_key w) l = []).
    { induction l as [|x l IHl]; intros Hx; [reflexivity|]. cbn [filter].
      destruct (same_key w x) eqn:Ex.
      - apply same_key_spec in Ex. exfalso. apply Hx. left. auto.
      - apply IHl. intros Hl. apply Hx. right. exact Hl. }
    rewrite Hnone; [reflexivity|]. rewrite E. exact Hnotin.
  - apply IH; [exact Hnd'|]. destruct Hin as [Hk|Hin]; [|exact Hin].
    exfalso. assert (same_key w r = true) by (apply same_key_spec; auto). congruence.
Qed.

End Upsert.

(** * The two snapshot tables *)

Lemma same_stream_key_spec a b :
  same_stream_key a b = true <-> stream_key a = stream_key b.
Proof.
  unfold same_stream_key, stream_key. rewrite !andb_true_iff, !String.eqb_eq, Z.eqb_eq.
  split.
  - intros [[-> ->] ->]. reflexivity.
  - intros H. injection H as -> -> ->. auto.
Qed.

Lemma merge_stream_key new old : stream_key (merge_stream new old) = stream_key old.
Proof. reflexivity. Qed.

Lemma merge_stream_last w w' r : merge_stream w (merge_stream w' r) = merge_stream w r.
Proof. reflexivity. Qed.

Lemma same_health_key_spec a b :
  same_health_key a b = true <-> health_key a = health_key b.
Proof.
  unfold same_health_key, health_key. rewrite andb_true_iff, String.eqb_eq, Z.eqb_eq.
  split.
  - intros [-> ->]. reflexivity.
  - intros H. injection H as -> ->. auto.
Qed.

Lemma merge_health_key now new old :
  health_key (merge_health now new old) = health_key old.
Proof. reflexivity. Qed.

Lemma merge_health_last now w w' r :
  merge_health now w (merge_health now w' r) = merge_health now w r.
Proof. reflexivity. Qed.

(** * The metrics loop *)

Lemma collect_track_metric io user_id day_iso t st :
  collect_track io user_id day_iso t st
  = (m <- track_metric io t ;;
     match m with
     | Some count =>
         Ok (StreamsState
               (execute_stream (StreamRow "spotify" (track_uid t) day_iso count user_id)
                  (s_conn st))
               (processed st + 1) (errors st) (total_playcount st + count)%Z)
     | None => Ok st
     end).
Proof.
  unfold collect_track, track_metric.
  destruct (search_track (isrc t) (search_net io)) as [[info|]|e]; cbn [bind];
    [|reflexivity|reflexivity].
  destruct (fetch_album (album_net io)) as [album_data|e]; cbn [bind]; [|reflexivity].
  destruct (extract_playcount album_data (track_id info)) as [[count|]|e]; reflexivity.
Qed.

Lemma stream_rows_cons io user_id day_iso n t rest :
  stream_rows io user_id day_iso ((n, t) :: rest)
  = match track_metric (io n) t with
    | Ok (Some count) =>
        StreamRow "spotify" (track_uid t) day_iso count user_id
          :: stream_rows io user_id day_iso rest
    | _ => stream_rows io user_id day_iso rest
    end.
Proof. reflexivity. Qed.

Lemma failed_tracks_cons io n t rest :
  failed_tracks io ((n, t) :: rest)
  = match track_metric (io n) t with
    | Raise _ => 1 + failed_tracks io rest
    | Ok _ => failed_tracks io rest
    end.
Proof. reflexivity. Qed.

Lemma streams_loop_effect io user_id day_iso : forall tracks st,
  loop_effect io user_id day_iso tracks st (streams_loop io user_id day_iso tracks st).
Proof.
  induction tracks as [|[n t] tracks IH]; intros st.
  - constructor; cbn; try reflexivity; lia.
  - cbn [streams_loop].
    specialize (IH (streams_step (io n) user_id day_iso t st)).
    unfold streams_step in *. rewrite collect_track_metric in *.
    destruct IH as [H1 H2 H3 H4 H5 H6 H7].
    constructor; rewrite ?stream_rows_cons, ?failed_tracks_cons;
      destruct (track_metric (io n) t) as [[count|]|e]; cbn [bind] in *;
      cbn [s_conn processed errors total_playcount execute_stream committed working
           track_dim streams catalogue_health_status] in *;
      first [ exact H1 | exact H2 | exact H3 | exact H4 | exact H5 | exact H6 | exact H7
            | rewrite H5; cbn [List.length]; lia
            | rewrite H6; lia
            | rewrite H7; unfold stream_counts; cbn [map fold_right playcount]; lia ].
Qed.

Lemma database_eta db :
  Database (track_dim db) (streams db) (catalogue_health_status db) = db.
Proof. destruct db; reflexivity. Qed.

Lemma catalogue_with_streams user_id db rows :
  catalogue user_id (with_streams db rows) = catalogue user_id db.
Proof. reflexivity. Qed.

Lemma catalogue_with_health user_id now db rows :
  catalogue user_id (with_health now db rows) = catalogue user_id db.
Proof. reflexivity. Qed.

(** A metrics run that ends normally, in closed form. *)
Lemma run_streams_ok w user_id day_override db :
  let day_iso := streams_day (s_today w) day_override in
  let rows := stream_rows (s_io w) user_id day_iso (catalogue user_id db) in
  let o := run_streams_collection w user_id day_override db in
  s_status o = Ok tt ->
  s_db o = with_streams db rows
  /\ s_processed o = List.length rows
  /\ s_errors o = failed_tracks (s_io w) (catalogue user_id db)
  /\ s_total o = stream_counts rows
  /\ s_alerts o
     = (if (0 <? List.length rows) && (stream_counts rows =? 0)%Z
        then send_telegram_alert (s_telegram w) (ZeroStreams day_iso)
        else []).
Proof.
  intros day_iso rows o. subst o rows. unfold run_streams_collection.
  fold day_iso. fold (catalogue user_id db).
  destruct (get_spotify_token (token_net w)); [|discriminate].
  destruct (sniffed w); [|discriminate].
  destruct (s_connect w); [|discriminate].
  pose proof (streams_loop_effect (s_io w) user_id day_iso (catalogue user_id db)
                (StreamsState (db_open db) 0 0 0%Z)) as E.
  destruct (loop_commit w); [|discriminate].
  destruct (refresh_view w); [|discriminate].
  destruct (final_commit w); [|discriminate].
  intros _. destruct E as [H1 H2 H3 H4 H5 H6 H7].
  cbn [s_conn processed errors total_playcount db_open committed working] in *.
  cbn [s_db s_processed s_errors s_total s_alerts with_conn s_conn commit committed working
       processed errors total_playcount].
  rewrite H5, H6, H7. cbn [Nat.add Z.add]. repeat split.
  unfold with_streams. rewrite <- H2, <- H3, <- H4. symmetry. apply database_eta.
Qed.

(** * The availability loop *)

Lemma check_track_row w user_id n t st :
  check_track w user_id n t st
  = (r <- health_row_of w user_id n t ;;
     match r with
     | None => Ok st
     | Some row =>
         let c := execute_health (h_now w) row (h_conn st) in
         Ok (HealthState (if (checked_count st + 1) mod 10 =? 0 then commit c else c)
               (checked_count st + 1))
     end).
Proof.
  unfold check_track, health_row_of.
  destruct ((String.length (title t) =? 0) || (String.length (artist t) =? 0));
    [reflexivity|].
  destruct (check_apple_music_api (artist t) (title t) (apple_net (h_io w n)));
    reflexivity.
Qed.

Lemma upsert_all_snoc {row : Type} (up : row -> list row -> list row) rows r tbl :
  upsert_all up (rows ++ [r]) tbl = up r (upsert_all up rows tbl).
Proof. unfold upsert_all. rewrite fold_left_app. reflexivity. Qed.

Lemma committed_batches_full {A : Type} (rows : list A) (r : A) :
  (List.length rows + 1) mod 10 = 0 -> committed_batches (rows ++ [r]) = rows ++ [r].
Proof.
  intros H. unfold committed_batches. rewrite length_app. cbn [List.length].
  pose proof (Nat.div_mod_eq (List.length rows + 1) 10) as E. rewrite H in E.
  replace (10 * ((List.length rows + 1) / 10)) with (List.length (rows ++ [r]))
    by (rewrite length_app; cbn [List.length]; lia).
  apply firstn_all.
Qed.

Lemma committed_batches_open {A : Type} (rows : list A) (r : A) :
  (List.length rows + 1) mod 10 <> 0 ->
  committed_batches (rows ++ [r]) = committed_batches rows.
Proof.
  intros H. unfold committed_batches. rewrite length_app. cbn [List.length].
  pose proof (Nat.div_mod_eq (List.length rows + 1) 10) as E1.
  pose proof (Nat.div_mod_eq (List.length rows) 10) as E2.
  pose proof (Nat.mod_upper_bound (List.length rows + 1) 10) as B1.
  pose proof (Nat.mod_upper_bound (List.length rows) 10) as B2.
  assert (Hq : (List.length rows + 1) / 10 = List.length rows / 10) by lia.
  rewrite Hq. rewrite firstn_app.
  replace (10 * (List.length rows / 10) - List.length rows) with 0 by lia.
  cbn [firstn]. apply app_nil_r.
Qed.

Lemma health_inv_step now db st done row :
  health_inv now db st done ->
  let c := execute_health now row (h_conn st) in
  health_inv now db
    (HealthState (if (checked_count st + 1) mod 10 =? 0 then commit c else c)
       (checked_count st + 1))
    (done ++ [row]).
Proof.
  intros [Hc Hw Hcm] c.
  assert (Ew : working c = with_health now db (done ++ [row])).
  { subst c. cbn [execute_health working]. rewrite Hw. unfold with_health.
    cbn [track_dim streams catalogue_health_status]. rewrite upsert_all_snoc. reflexivity. }
  assert (Ec : committed c = with_health now db (committed_batches done))
    by (subst c; cbn [execute_health committed]; exact Hcm).
  rewrite Hc. destruct ((List.length done + 1) mod 10 =? 0) eqn:E.
  - apply Nat.eqb_eq in E. constructor; cbn [h_conn checked_count commit working committed].
    + rewrite length_app. reflexivity.
    + exact Ew.
    + rewrite committed_batches_full by exact E. exact Ew.
  - apply Nat.eqb_neq in E. constructor; cbn [h_conn checked_count].
    + rewrite length_app. reflexivity.
    + exact Ew.
    + rewrite committed_batches_open by exact E. exact Ec.
Qed.

Lemma health_rows_cons w user_id n t rest :
  health_rows w user_id ((n, t) :: rest)
  = match health_row_of w user_id n t with
    | Raise e => ([], Some e)
    | Ok None => health_rows w user_id rest
    | Ok (Some row) =>
        (row :: fst (health_rows w user_id rest), snd (health_rows w user_id rest))
    end.
Proof.
  cbn [health_rows]. destruct (health_row_of w user_id n t) as [[row|]|e]; try reflexivity.
  destruct (health_rows w user_id rest). reflexivity.
Qed.

(** The loop writes the rows [health_rows] lists and stops where it stops. *)
Lemma health_loop_inv w user_id db : forall tracks st done,
  health_inv (h_now w) db st done ->
  snd (health_loop w user_id tracks st) = snd (health_rows w user_id tracks)
  /\ health_inv (h_now w) db (fst (health_loop w user_id tracks st))
       (done ++ fst (health_rows w user_id tracks)).
Proof.
  induction tracks as [|[n t] tracks IH]; intros st done Hinv.
  - cbn. rewrite app_nil_r. auto.
  - cbn [health_loop]. rewrite health_rows_cons, check_track_row.
    destruct (health_row_of w user_id n t) as [[row|]|e]; cbn [bind fst snd].
    + destruct (IH _ (done ++ [row]) (health_inv_step (h_now w) db st done row Hinv))
        as [H1 H2].
      split; [exact H1|]. rewrite <- app_assoc in H2. exact H2.
    + apply IH. exact Hinv.
    + rewrite app_nil_r. auto.
Qed.

Lemma committed_batches_nil {A : Type} : committed_batches (@nil A) = [].
Proof. reflexivity. Qed.

(** An availability run, in closed form. *)
Lemma run_health_spec w user_id db :
  h_client w = Ok tt -> h_connect w = Ok tt ->
  let rows := fst (health_rows w user_id (catalogue user_id db)) in
  let o := run_catalogue_health_check w user_id db in
  h_checked o = List.length rows
  /\ match snd (health_rows w user_id (catalogue user_id db)) with
     | None => h_status o = Ok tt /\ h_db o = with_health (h_now w) db rows
     | Some e =>
         h_status o = Raise e
         /\ h_db o = with_health (h_now w) db (committed_batches rows)
     end.
Proof.
  intros Hc Hd rows o. subst o rows. unfold run_catalogue_health_check. rewrite Hc, Hd.
  fold (catalogue user_id db).
  assert (Hinit : health_inv (h_now w) db (HealthState (db_open db) 0) []).
  { constructor; cbn [h_conn checked_count db_open working committed List.length].
    - reflexivity.
    - unfold with_health. cbn. symmetry. apply database_eta.
    - unfold with_health. cbn. symmetry. apply database_eta. }
  destruct (health_loop_inv w user_id db (catalogue user_id db) _ [] Hinit) as [H1 H2].
  destruct (health_loop w user_id (catalogue user_id db) (HealthState (db_open db) 0))
    as [st failure].
  cbn [fst snd app] in H1, H2. rewrite <- H1. destruct H2 as [Hn Hw Hcm].
  destruct failure as [e|]; cbn [h_checked h_status h_db commit rollback committed working];
    (split; [exact Hn|split; [reflexivity|assumption]]).
Qed.

(** * Running a synchronisation twice *)

Lemma stream_rows_settled ws : forall t0 r w,
  In r (upsert_all upsert_stream ws t0) ->
  last_write same_stream_key ws r = Some w -> playcount r = playcount w.
Proof.
  induction ws as [|w0 ws IH] using rev_ind; intros t0 r w Hin Hlast; [discriminate|].
  rewrite upsert_all_snoc in Hin.
  unfold last_write in Hlast. rewrite fold_left_app in Hlast. cbn [fold_left] in Hlast.
  fold (last_write same_stream_key ws r) in Hlast.
  unfold upsert_stream at 1, upsert in Hin.
  destruct (existsb (same_stream_key w0) (upsert_all upsert_stream ws t0)) eqn:E.
  - apply in_map_iff in Hin. destruct Hin as (r0 & Hr & Hin0).
    destruct (same_stream_key w0 r0) eqn:E0.
    + subst r. assert (Hs : same_stream_key w0 (merge_stream w0 r0) = true).
      { apply same_stream_key_spec. rewrite merge_stream_key.
        apply same_stream_key_spec. exact E0. }
      rewrite Hs in Hlast. injection Hlast as <-. reflexivity.
    + subst r0. rewrite E0 in Hlast. apply (IH t0 r w Hin0 Hlast).
  - apply in_app_or in Hin. destruct Hin as [Hin0|[<-|[]]].
    + assert (E0 : same_stream_key w0 r = false).
      { destruct (same_stream_key w0 r) eqn:E0; [|reflexivity].
        assert (existsb (same_stream_key w0) (upsert_all upsert_stream ws t0) = true)
          by (apply existsb_exists; eauto).
        congruence. }
      rewrite E0 in Hlast. apply (IH t0 r w Hin0 Hlast).
    + assert (Hs : same_stream_key w0 w0 = true) by (apply same_stream_key_spec; reflexivity).
      rewrite Hs in Hlast. injection Hlast as <-. reflexivity.
Qed.

Lemma stream_keys_present ws t0 w :
  In w ws -> In (stream_key w) (map stream_key (upsert_all upsert_stream ws t0)).
Proof.
  apply (upsert_all_has_keys stream_row _ stream_key same_stream_key merge_stream
           same_stream_key_spec merge_stream_key).
Qed.

(** Writing the same rows again leaves the table as it is. *)
Lemma rerun_streams_same ws t0 :
  upsert_all upsert_stream ws (upsert_all upsert_stream ws t0)
  = upsert_all upsert_stream ws t0.
Proof.
  unfold upsert_stream at 1.
  rewrite (upsert_all_existing stream_row _ stream_key same_stream_key merge_stream
             same_stream_key_spec merge_stream_key).
  - rewrite <- (map_id (upsert_all upsert_stream ws t0)) at 2.
    apply map_ext_in. intros r Hr.
    rewrite (absorb_last stream_row _ stream_key same_stream_key merge_stream
               same_stream_key_spec merge_stream_key merge_stream_last).
    destruct (last_write same_stream_key ws r) as [w|] eqn:E; [|reflexivity].
    pose proof (stream_rows_settled ws t0 r w Hr E) as Hp.
    destruct r. unfold merge_stream. cbn in *. rewrite Hp. reflexivity.
  - intros w Hw. apply stream_keys_present. exact Hw.
Qed.

Lemma streams_status_any_db w user_id day_override db db' :
  s_status (run_streams_collection w user_id day_override db)
  = s_status (run_streams_collection w user_id day_override db').
Proof.
  unfold run_streams_collection.
  destruct (get_spotify_token (token_net w)); [|reflexivity].
  destruct (sniffed w); [|reflexivity].
  destruct (s_connect w); [|reflexivity].
  destruct (loop_commit w); [|reflexivity].
  destruct (refresh_view w); [|reflexivity].
  destruct (final_commit w); reflexivity.
Qed.

Lemma health_row_of_later w now user_id n t :
  health_row_of (later_on w now) user_id n t = health_row_of w user_id n t.
Proof. reflexivity. Qed.

Lemma health_rows_later w now user_id tracks :
  health_rows (later_on w now) user_id tracks = health_rows w user_id tracks.
Proof.
  induction tracks as [|[n t] tracks IH]; [reflexivity|].
  rewrite !health_rows_cons, health_row_of_later, IH. reflexivity.
Qed.

Lemma upsert_stream_overwrites new tbl :
  In (stream_key new) (map stream_key tbl) ->
  List.length (upsert_stream new tbl) = List.length tbl
  /\ map stream_key (upsert_stream new tbl) = map stream_key tbl
  /\ forall r, In r (upsert_stream new tbl) -> same_stream_key new r = true ->
       playcount r = playcount new.
Proof.
  intros H.
  destruct (upsert_existing_overwrites stream_row _ stream_key same_stream_key merge_stream
              same_stream_key_spec merge_stream_key new tbl H) as (H1 & H2 & H3).
  split; [exact H1|]. split; [exact H2|].
  intros r Hr Hs. destruct (H3 r Hr Hs) as (old & _ & ->). reflexivity.
Qed.

Lemma upsert_health_overwrites now new tbl :
  In (health_key new) (map health_key tbl) ->
  List.length (upsert_health now new tbl) = List.length tbl
  /\ map health_key (upsert_health now new tbl) = map health_key tbl
  /\ forall r, In r (upsert_health now new tbl) -> same_health_key new r = true ->
       apple_music_status r = apple_music_status new
       /\ spotify_status r = spotify_status new
       /\ updated_at r = Some now.
Proof.
  intros H.
  destruct (upsert_existing_overwrites health_row _ health_key same_health_key
              (merge_health now) same_health_key_spec (merge_health_key now) new tbl H)
    as (H1 & H2 & H3).
  split; [exact H1|]. split; [exact H2|].
  intros r Hr Hs. destruct (H3 r Hr Hs) as (old & _ & ->). repeat split.
Qed.

Lemma health_ok_setup w user_id db :
  h_status (run_catalogue_health_check w user_id db) = Ok tt ->
  h_client w = Ok tt /\ h_connect w = Ok tt.
Proof.
  unfold run_catalogue_health_check.
  destruct (h_client w) as [[]|e]; [|discriminate].
  destruct (h_connect w) as [[]|e]; [|discriminate]. auto.
Qed.

Lemma run_health_ok w user_id db :
  h_status (run_catalogue_health_check w user_id db) = Ok tt ->
  snd (health_rows w user_id (catalogue user_id db)) = None
  /\ h_db (run_catalogue_health_check w user_id db)
     = with_health (h_now w) db (fst (health_rows w user_id (catalogue user_id db))).
Proof.
  intros H. destruct (health_ok_setup w user_id db H) as [Hc Hd].
  destruct (run_health_spec w user_id db Hc Hd) as [_ Hspec].
  destruct (snd (health_rows w user_id (catalogue user_id db))) as [e|].
  - destruct Hspec as [Hs _]. congruence.
  - destruct Hspec as [_ Hdb]. auto.
Qed.

Lemma last_write_same_key {row K : Type} (key : row -> K) (same_key : row -> row -> bool) :
  (forall a b, same_key a b = true <-> key a = key b) ->
  forall ws r r', key r = key r' -> last_write same_key ws r = last_write same_key ws r'.
Proof.
  intros Hspec ws r r' Hk. unfold last_write.
  assert (E : forall w, same_key w r = same_key w r').
  { intros w. destruct (same_key w r) eqn:E1; destruct (same_key w r') eqn:E2;
      try reflexivity.
    - apply Hspec in E1. assert (same_key w r' = true) by (apply Hspec; congruence).
      congruence.
    - apply Hspec in E2. assert (same_key w r = true) by (apply Hspec; congruence).
      congruence. }
  generalize (@None row). induction ws as [|w ws IH]; intros acc; [reflexivity|].
  cbn [fold_left]. rewrite E. apply IH.
Qed.

Lemma key_row_exists {row K : Type} (key : row -> K) (same_key : row -> row -> bool) :
  (forall a b, same_key a b = true <-> key a = key b) ->
  forall w tbl, In (key w) (map key tbl) -> exists r, In r tbl /\ same_key w r = true.
Proof.
  intros Hspec w tbl H. apply in_map_iff in H. destruct H as (r & Hk & Hin).
  exists r. split; [exact Hin|]. apply Hspec. auto.
Qed.

(** C1.  A second run for the same user and date, with the same upstream
    answers, adds no row: each key the run writes is held by exactly one row
    of its snapshot table, and that row carries the values of the second
    run.  In [streams] the conflicting row gets the new play count; in
    [catalogue_health_status] it gets the new statuses and the time of the
    second run. *)
Theorem rerun_overwrites :
  forall (sw : streams_world) (hw : health_world) (later : Z) (user_id : string)
         (day_override : option day) (db : database),
    let o1 := run_streams_collection sw user_id day_override db in
    let o2 := run_streams_collection sw user_id day_override (s_db o1) in
    let rows :=
      stream_rows (s_io sw) user_id (streams_day (s_today sw) day_override)
        (catalogue user_id db) in
    let h1 := run_catalogue_health_check hw user_id db in
    let h2 := run_catalogue_health_check (later_on hw later) user_id (h_db h1) in
    let hrows := fst (health_rows hw user_id (catalogue user_id db)) in
    (forall new tbl,
        In (stream_key new) (map stream_key tbl) ->
        List.length (upsert_stream new tbl) = List.length tbl
        /\ map stream_key (upsert_stream new tbl) = map stream_key tbl
        /\ forall r, In r (upsert_stream new tbl) -> same_stream_key new r = true ->
             playcount r = playcount new)
    /\ (forall now new tbl,
          In (health_key new) (map health_key tbl) ->
          List.length (upsert_health now new tbl) = List.length tbl
          /\ map health_key (upsert_health now new tbl) = map health_key tbl
          /\ forall r, In r (upsert_health now new tbl) -> same_health_key new r = true ->
               apple_music_status r = apple_music_status new
               /\ spotify_status r = spotify_status new
               /\ updated_at r = Some now)
    /\ (s_status o1 = Ok tt ->
     s_status o2 = Ok tt
     /\ streams (s_db o2) = streams (s_db o1)
     /\ (NoDup (map stream_key (streams db)) ->
         NoDup (map stream_key (streams (s_db o2))))
     /\ forall w, In w rows ->
          (NoDup (map stream_key (streams db)) ->
           List.length (filter (same_stream_key w) (streams (s_db o2))) = 1)
          /\ (exists r, In r (streams (s_db o2)) /\ same_stream_key w r = true)
          /\ forall r, In r (streams (s_db o2)) -> same_stream_key w r = true ->
               exists w', last_write same_stream_key rows r = Some w'
                          /\ playcount r = playcount w')
    /\ (h_status h1 = Ok tt ->
        h_status h2 = Ok tt
        /\ map health_key (catalogue_health_status (h_db h2))
           = map health_key (catalogue_health_status (h_db h1))
        /\ (NoDup (map health_key (catalogue_health_status db)) ->
            NoDup (map health_key (catalogue_health_status (h_db h2))))
        /\ forall w, In w hrows ->
             (NoDup (map health_key (catalogue_health_status db)) ->
              List.length (filter (same_health_key w) (catalogue_health_status (h_db h2))) = 1)
             /\ (exists r, In r (catalogue_health_status (h_db h2))
                           /\ same_health_key w r = true)
             /\ forall r, In r (catalogue_health_status (h_db h2)) ->
                  same_health_key w r = true ->
                  exists w', last_write same_health_key hrows r = Some w'
                             /\ apple_music_status r = apple_music_status w'
                             /\ spotify_status r = spotify_status w'
                             /\ updated_at r = Some later).
Proof.
  intros sw hw later user_id day_override db o1 o2 rows h1 h2 hrows.
  split; [exact upsert_stream_overwrites|]. split; [exact upsert_health_overwrites|].
  split.
  - (* streams *)
    intros Hok1.
    assert (Hok2 : s_status o2 = Ok tt).
    { subst o2. rewrite (streams_status_any_db sw user_id day_override (s_db o1) db).
      exact Hok1. }
    destruct (run_streams_ok sw user_id day_override db Hok1) as (Hdb1 & _).
    destruct (run_streams_ok sw user_id day_override (s_db o1) Hok2) as (Hdb2 & _).
    fold o1 in Hdb1. fold o2 in Hdb2. fold rows in Hdb1.
    rewrite Hdb1 in Hdb2. rewrite catalogue_with_streams in Hdb2. fold rows in Hdb2.
    assert (E2 : streams (s_db o2) = upsert_all upsert_stream rows (streams db)).
    { rewrite Hdb2. unfold with_streams. cbn [streams]. apply rerun_streams_same. }
    assert (E1 : streams (s_db o1) = upsert_all upsert_stream rows (streams db))
      by (rewrite Hdb1; reflexivity).
    split; [exact Hok2|]. split; [congruence|]. split.
    + intros Hnd. rewrite E2.
      apply (upsert_all_nodup stream_row _ stream_key same_stream_key merge_stream
               same_stream_key_spec merge_stream_key). exact Hnd.
    + intros w Hw. rewrite E2.
      pose proof (stream_keys_present rows (streams db) w Hw) as Hkey. split; [|split].
      * intros Hnd.
        apply (unique_row stream_row _ stream_key same_stream_key same_stream_key_spec);
          [|exact Hkey].
        apply (upsert_all_nodup stream_row _ stream_key same_stream_key merge_stream
                 same_stream_key_spec merge_stream_key). exact Hnd.
      * apply (key_row_exists stream_key same_stream_key same_stream_key_spec). exact Hkey.
      * intros r Hr Hs.
        destruct (last_write_some stream_row same_stream_key rows r w Hw Hs) as [w' Hl].
        exists w'. split; [exact Hl|].
        apply (stream_rows_settled rows (streams db) r w' Hr Hl).
  - (* availability *)
    intros Hok1. destruct (run_health_ok hw user_id db Hok1) as [Hnone Hdb1].
    destruct (health_ok_setup hw user_id db Hok1) as [Hc Hd].
    fold h1 in Hdb1. fold hrows in Hdb1.
    destruct (run_health_spec (later_on hw later) user_id (h_db h1) Hc Hd) as [_ Hspec].
    fold h2 in Hspec. rewrite Hdb1 in Hspec.
    rewrite catalogue_with_health, health_rows_later, Hnone in Hspec.
    fold hrows in Hspec. destruct Hspec as [Hok2 Hdb2]. cbn [later_on h_now] in Hdb2.
    set (t1 := upsert_all (upsert_health (h_now hw)) hrows (catalogue_health_status db)).
    assert (E1 : catalogue_health_status (h_db h1) = t1) by (rewrite Hdb1; reflexivity).
    assert (Hkeys : forall w, In w hrows -> In (health_key w) (map health_key t1)).
    { intros w Hw.
      apply (upsert_all_has_keys health_row _ health_key same_health_key
               (merge_health (h_now hw)) same_health_key_spec (merge_health_key (h_now hw))).
      exact Hw. }
    assert (E2 : catalogue_health_status (h_db h2)
                 = map (absorb same_health_key (merge_health later) hrows) t1).
    { rewrite Hdb2. unfold with_health. cbn [catalogue_health_status]. fold t1.
      unfold upsert_health at 1.
      apply (upsert_all_existing health_row _ health_key same_health_key
               (merge_health later) same_health_key_spec (merge_health_key later)).
      exact Hkeys. }
    assert (Ek : map health_key (catalogue_health_status (h_db h2)) = map health_key t1).
    { rewrite E2, map_map. apply map_ext. intros r.
      apply (absorb_key health_row _ health_key same_health_key (merge_health later)
               (merge_health_key later)). }
    assert (Hnd1 : NoDup (map health_key (catalogue_health_status db)) ->
                   NoDup (map health_key t1)).
    { intros Hnd.
      apply (upsert_all_nodup health_row _ health_key same_health_key
               (merge_health (h_now hw)) same_health_key_spec (merge_health_key (h_now hw))).
      exact Hnd. }
    split; [exact Hok2|]. split; [rewrite Ek, E1; reflexivity|].
    split; [intros Hnd; rewrite Ek; auto|].
    intros w Hw. split; [|split].
    + intros Hnd.
      apply (unique_row health_row _ health_key same_health_key same_health_key_spec).
      * rewrite Ek. auto.
      * rewrite Ek. auto.
    + apply (key_row_exists health_key same_health_key same_health_key_spec).
      rewrite Ek. auto.
    + intros r Hr Hs. rewrite E2 in Hr. apply in_map_iff in Hr.
      destruct Hr as (r1 & Hr & Hin1).
      assert (Hk : health_key r = health_key r1).
      { rewrite <- Hr.
        apply (absorb_key health_row _ health_key same_health_key (merge_health later)
                 (merge_health_key later)). }
      rewrite (last_write_same_key health_key same_health_key same_health_key_spec
                 hrows r r1 Hk).
      assert (Hs1 : same_health_key w r1 = true).
      { apply same_health_key_spec. rewrite <- Hk. apply same_health_key_spec. exact Hs. }
      destruct (last_write_some health_row same_health_key hrows r1 w Hw Hs1) as [w' Hl].
      exists w'. split; [exact Hl|].
      rewrite (absorb_last health_row _ health_key same_health_key (merge_health later)
                 same_health_key_spec (merge_health_key later) (merge_health_last later))
        in Hr.
      rewrite Hl in Hr. subst r. cbn. auto.
Qed.


(** The end-to-end scenario: one track with code ISRC123, a candidate that
    carries the code, a counter of 4821 for its URI. *)
Example end_to_end_scenario :
  let o := run_streams_collection sample_streams_world "user-2" None sample_db in
  s_status o = Ok tt
  /\ streams (s_db o) = [StreamRow "spotify" "uid-3" 19999%Z 4821%Z "user-2"]
  /\ s_processed o = 1 /\ s_errors o = 0.
Proof. vm_compute. repeat split. Qed.

(** * The metrics extractor: the contract *)

Lemma streams_step_no_metric io user_id day_iso t st :
  track_metric io t = Ok None -> streams_step io user_id day_iso t st = st.
Proof.
  intros H. unfold streams_step. rewrite collect_track_metric, H. reflexivity.
Qed.

Lemma streams_step_error io user_id day_iso t st e :
  track_metric io t = Raise e ->
  streams_step io user_id day_iso t st
  = StreamsState (s_conn st) (processed st) (errors st + 1) (total_playcount st).
Proof.
  intros H. unfold streams_step. rewrite collect_track_metric, H. reflexivity.
Qed.

Lemma py_get_not_object v k d : not_object v -> py_get v k d = Raise no_get.
Proof. intros H. destruct v; try reflexivity. exfalso. apply (H kvs). reflexivity. Qed.

(** A node of the path that is there and is no object. *)
Lemma extract_playcount_null_node album_data tid :
  (exists data,
      py_get album_data "data" (JDict []) = Ok data
      /\ (not_object data
          \/ exists album,
               py_get data "albumUnion" (JDict []) = Ok album
               /\ (not_object album
                   \/ exists page,
                        py_get album "tracksV2" (JDict []) = Ok page /\ not_object page))) ->
  extract_playcount album_data tid = Raise no_get.
Proof.
  intros (data & H1 & [Hd|(album & H2 & [Ha|(page & H3 & Hp)])]);
    unfold extract_playcount; rewrite H1; cbn [bind].
  - rewrite (py_get_not_object data _ _ Hd). reflexivity.
  - rewrite H2. cbn [bind]. rewrite (py_get_not_object album _ _ Ha). reflexivity.
  - rewrite H2. cbn [bind]. rewrite H3. cbn [bind].
    rewrite (py_get_not_object page _ _ Hp). reflexivity.
Qed.

Lemma scan_entries_raises uri pre item post e :
  Forall (no_counter uri) pre -> entry_counter uri item = Raise e ->
  scan_entries uri (pre ++ item :: post) = Raise e.
Proof.
  intros Hpre Hi. induction Hpre as [|x pre Hx _ IH]; cbn [app scan_entries].
  - rewrite Hi. reflexivity.
  - unfold no_counter in Hx. rewrite Hx. cbn [bind]. exact IH.
Qed.

Lemma entry_counter_target uri item t raw :
  py_get item "track" JNull = Ok t -> truthy t = true ->
  py_get t "uri" JNull = Ok (JStr uri) -> py_get t "playcount" JNull = Ok raw ->
  entry_counter uri item = counter_of raw.
Proof.
  intros Ht Htr Hu Hp. unfold entry_counter. rewrite Ht. cbn [bind]. rewrite Htr, Hu.
  cbn [bind]. rewrite String.eqb_refl, Hp. reflexivity.
Qed.

Lemma counter_of_sound raw n :
  counter_of raw = Ok (Some n) ->
  (0 <= n)%Z
  /\ ((exists s, raw = JStr s /\ isdigit s = true /\ int_of_str s = Ok n)
      \/ (raw = JInt n /\ (0 < n)%Z)).
Proof.
  intros H. split; [apply (counter_of_nonneg raw n H)|]. apply counter_of_spec. exact H.
Qed.

Lemma counter_of_digits s :
  ascii_digits s = true -> String.length s <= INT_MAX_STR_DIGITS ->
  counter_of (JStr s) = Ok (Some (digits_value s)).
Proof.
  intros Hd Hl. apply counter_of_spec. left. exists s. split; [reflexivity|].
  split; [apply isdigit_ascii_digits; exact Hd|apply int_of_str_digits; assumption].
Qed.

Lemma counter_of_positive n : (0 < n)%Z -> counter_of (JInt n) = Ok (Some n).
Proof. intros H. apply counter_of_spec. right. auto. Qed.

Lemma counter_of_other raw :
  (forall s, raw <> JStr s) -> (forall n, raw = JInt n -> (n <= 0)%Z) ->
  counter_of raw = Ok None.
Proof.
  intros Hs Hn. destruct (counter_of raw) as [[n|]|e] eqn:E; [| reflexivity |].
  - apply counter_of_spec in E. destruct E as [(s & -> & _)|[-> Hp]].
    + exfalso. apply (Hs s). reflexivity.
    + specialize (Hn n eq_refl). lia.
  - apply counter_of_raises in E. destruct E as (s & -> & _).
    exfalso. apply (Hs s). reflexivity.
Qed.

Lemma counter_of_refused s :
  isdigit s = true -> int_of_str s = Raise invalid_literal ->
  counter_of (JStr s) = Raise invalid_literal.
Proof. intros Hd Hi. rewrite counter_of_string, Hd, Hi. reflexivity. Qed.

Lemma extract_playcount_nonneg album_data tid n :
  extract_playcount album_data tid = Ok (Some n) -> (0 <= n)%Z.
Proof.
  unfold extract_playcount.
  destruct (py_get album_data "data" (JDict [])) as [data|]; cbn [bind]; [|discriminate].
  destruct (py_get data "albumUnion" (JDict [])) as [album|]; cbn [bind]; [|discriminate].
  destruct (py_get album "tracksV2" (JDict [])) as [page|]; cbn [bind]; [|discriminate].
  destruct (py_get page "items" (JList [])) as [items|]; cbn [bind]; [|discriminate].
  destruct (py_iter items) as [l|]; cbn [bind]; [|discriminate]. intros H.
  apply scan_entries_some in H. destruct H as (pre & item & post & _ & _ & H).
  apply entry_counter_spec in H. destruct H as (t & raw & _ & _ & _ & _ & H).
  apply counter_of_nonneg in H. exact H.
Qed.

(** C5, as the code has it.  Along the path [data], [albumUnion],
    [tracksV2], [items] the extractor walks the entries in order and yields
    the counter of the first entry that has the target URI and a usable
    counter field.  Usable are a string that [isdigit()] accepts and [int()]
    converts, which every string of one to 4300 ASCII digits is (the string
    0 included), and an integer above zero; whatever is yielded is a
    non-negative integer read from such a field.  A request that failed for
    good, a missing or empty data envelope, an entry without counter field,
    a string [isdigit()] does not accept and a value that is neither a
    string nor an integer above zero give no metric rather than an
    exception, and then the loop body leaves the connection and the counters
    as they are.  Two shapes are no soft null.  A node of the path, [data],
    [albumUnion] or [tracksV2], that is there and is no object makes the
    extraction raise; so does a string that [isdigit()] accepts and [int()]
    refuses.  The track is then counted as an error. *)
Theorem playcount_extraction_contract :
  (forall album_data data album page l tid,
      py_get album_data "data" (JDict []) = Ok data ->
      py_get data "albumUnion" (JDict []) = Ok album ->
      py_get album "tracksV2" (JDict []) = Ok page ->
      py_get page "items" (JList []) = Ok (JList l) ->
      (forall n,
          extract_playcount album_data tid = Ok (Some n) <->
          exists pre item post t raw,
            l = pre ++ item :: post
            /\ Forall (no_counter (track_uri tid)) pre
            /\ py_get item "track" JNull = Ok t /\ truthy t = true
            /\ py_get t "uri" JNull = Ok (JStr (track_uri tid))
            /\ py_get t "playcount" JNull = Ok raw
            /\ counter_of raw = Ok (Some n))
      /\ (extract_playcount album_data tid = Ok None <->
          Forall (no_counter (track_uri tid)) l)
      /\ (forall pre item post t s,
            l = pre ++ item :: post -> Forall (no_counter (track_uri tid)) pre ->
            py_get item "track" JNull = Ok t -> truthy t = true ->
            py_get t "uri" JNull = Ok (JStr (track_uri tid)) ->
            py_get t "playcount" JNull = Ok (JStr s) ->
            isdigit s = true -> int_of_str s = Raise invalid_literal ->
            extract_playcount album_data tid = Raise invalid_literal))
  /\ (forall raw n,
        counter_of raw = Ok (Some n) ->
        (0 <= n)%Z
        /\ ((exists s, raw = JStr s /\ isdigit s = true /\ int_of_str s = Ok n)
            \/ (raw = JInt n /\ (0 < n)%Z)))
  /\ (forall s, ascii_digits s = true -> String.length s <= INT_MAX_STR_DIGITS ->
        isdigit s = true /\ int_of_str s = Ok (digits_value s)
        /\ counter_of (JStr s) = Ok (Some (digits_value s)))
  /\ (forall s n, isdigit s = true -> int_of_str s = Ok n ->
        counter_of (JStr s) = Ok (Some n))
  /\ (forall n, (0 < n)%Z -> counter_of (JInt n) = Ok (Some n))
  /\ (forall net, (forall k, k < 3 -> retried (net k) = true) ->
        fetch_album net = Ok (JDict []))
  /\ (forall net r data,
        request SPOTIFY_PATHFINDER_URL net = Ok r ->
        py_get (resp_json r) "data" JNull = Ok data -> truthy data = false ->
        fetch_album net = Ok (JDict []))
  /\ (forall tid, extract_playcount (JDict []) tid = Ok None)
  /\ (forall uri t,
        py_get t "uri" JNull = Ok (JStr uri) -> py_get t "playcount" JNull = Ok JNull ->
        no_counter uri (JDict [("track", t)]))
  /\ (forall s, isdigit s = false -> counter_of (JStr s) = Ok None)
  /\ (forall s, is_ascii s = true -> ascii_digits s = false -> counter_of (JStr s) = Ok None)
  /\ (forall raw,
        (forall s, raw <> JStr s) -> (forall n, raw = JInt n -> (n <= 0)%Z) ->
        counter_of raw = Ok None)
  /\ (forall io user_id day_iso t st,
        track_metric io t = Ok None -> streams_step io user_id day_iso t st = st)
  /\ (forall album_data tid,
        (exists data,
            py_get album_data "data" (JDict []) = Ok data
            /\ (not_object data
                \/ exists album,
                     py_get data "albumUnion" (JDict []) = Ok album
                     /\ (not_object album
                         \/ exists page,
                              py_get album "tracksV2" (JDict []) = Ok page
                              /\ not_object page))) ->
        extract_playcount album_data tid = Raise no_get)
  /\ (forall s, isdigit s = true -> int_of_str s = Raise invalid_literal ->
        counter_of (JStr s) = Raise invalid_literal)
  /\ (forall io user_id day_iso t st e,
        track_metric io t = Raise e ->
        streams_step io user_id day_iso t st
        = StreamsState (s_conn st) (processed st) (errors st + 1) (total_playcount st)).
Proof.
  split; [|split; [exact counter_of_sound|split; [|split; [|split; [exact counter_of_positive|
          split; [exact fetch_album_exhausted|split; [exact fetch_album_no_data|
          split; [exact extract_playcount_empty|split; [exact entry_counter_missing_field|
          split; [exact counter_of_non_numeric|split; [|split; [exact counter_of_other|
          split; [exact streams_step_no_metric|split; [exact extract_playcount_null_node|
          split; [exact counter_of_refused|exact streams_step_error]]]]]]]]]]]]]]].
  - intros album_data data album page l tid H1 H2 H3 H4.
    rewrite (extract_playcount_path album_data data album page l tid H1 H2 H3 H4).
    split; [|split].
    + intros n. rewrite scan_entries_some. split.
      * intros (pre & item & post & Hl & Hpre & Hitem).
        apply entry_counter_spec in Hitem. destruct Hitem as (t & raw & Hitem).
        exists pre, item, post, t, raw. tauto.
      * intros (pre & item & post & t & raw & Hl & Hpre & Hitem).
        exists pre, item, post. split; [exact Hl|]. split; [exact Hpre|].
        apply entry_counter_spec. exists t, raw. exact Hitem.
    + apply scan_entries_none.
    + intros pre item post t s -> Hpre Ht Htr Hu Hp Hd Hi.
      apply scan_entries_raises; [exact Hpre|].
      rewrite (entry_counter_target _ item t (JStr s) Ht Htr Hu Hp).
      apply counter_of_refused; assumption.
  - intros s Hd Hl. split; [apply isdigit_ascii_digits; exact Hd|].
    split; [apply int_of_str_digits; assumption|apply counter_of_digits; assumption].
  - intros s n Hd Hi. apply counter_of_spec. left. eauto.
  - intros s Ha Hd. apply counter_of_non_numeric. unfold isdigit. rewrite Ha. exact Hd.
Qed.

(** * Commits *)

Lemma committed_batches_split {A : Type} (rows : list A) :
  exists rest,
    rows = committed_batches rows ++ rest
    /\ List.length rest < 10
    /\ List.length (committed_batches rows) = 10 * (List.length rows / 10).
Proof.
  exists (skipn (10 * (List.length rows / 10)) rows). unfold committed_batches.
  pose proof (Nat.div_mod_eq (List.length rows) 10) as E.
  pose proof (Nat.mod_upper_bound (List.length rows) 10) as B.
  split; [symmetry; apply firstn_skipn|]. split.
  - rewrite length_skipn. lia.
  - rewrite length_firstn. lia.
Qed.

Lemma streams_loop_never_commits io user_id day_iso tracks st :
  committed (s_conn (streams_loop io user_id day_iso tracks st)) = committed (s_conn st).
Proof. apply (le_committed (streams_loop_effect io user_id day_iso tracks st)). Qed.

Lemma run_streams_after_loop w user_id day_override db tok web :
  get_spotify_token (token_net w) = Ok tok -> sniffed w = Ok web -> s_connect w = Ok tt ->
  let rows :=
    stream_rows (s_io w) user_id (streams_day (s_today w) day_override)
      (catalogue user_id db) in
  let o := run_streams_collection w user_id day_override db in
  s_processed o = List.length rows
  /\ s_errors o = failed_tracks (s_io w) (catalogue user_id db)
  /\ (forall e, loop_commit w = Raise e -> s_status o = Raise e /\ s_db o = db)
  /\ (loop_commit w = Ok tt -> s_db o = with_streams db rows).
Proof.
  intros Ht Hs Hc rows o. subst o rows. unfold run_streams_collection.
  rewrite Ht, Hs, Hc. fold (catalogue user_id db).
  pose proof (streams_loop_effect (s_io w) user_id
                (streams_day (s_today w) day_override) (catalogue user_id db)
                (StreamsState (db_open db) 0 0 0%Z)) as [H1 H2 H3 H4 H5 H6 H7].
  cbn [s_conn processed errors total_playcount db_open committed working] in *.
  assert (Hdb : working
                  (s_conn
                     (streams_loop (s_io w) user_id (streams_day (s_today w) day_override)
                        (catalogue user_id db) (StreamsState (db_open db) 0 0 0%Z)))
                = with_streams db
                    (stream_rows (s_io w) user_id (streams_day (s_today w) day_override)
                       (catalogue user_id db))).
  { unfold with_streams. rewrite <- H2, <- H3, <- H4. symmetry. apply database_eta. }
  destruct (loop_commit w) as [[]|e1].
  - destruct (refresh_view w) as [[]|e2]; [destruct (final_commit w) as [[]|e3]|];
      cbn [streams_failed with_conn s_db s_status s_processed s_errors s_conn commit
           rollback committed working processed errors];
      (split; [exact H5|split; [exact H6|split; [intros e He; discriminate|]]]);
      intros _; exact Hdb.
  - cbn [streams_failed s_db s_status s_processed s_errors rollback committed].
    split; [exact H5|]. split; [exact H6|]. split.
    + intros e He. injection He as <-. split; [reflexivity|exact H1].
    + discriminate.
Qed.

(** C3, as the code has it.  The availability run commits after every tenth
    checked track and once at the end: when an exception ends it, the
    complete batches of ten stay in the table and the rows written after the
    last commit, fewer than ten, are rolled back.  The metrics run never
    commits inside its loop: the commit after the loop makes all its rows
    durable at once, and when that commit fails none is. *)
Theorem batched_commit_contract :
  (forall w user_id db,
      h_client w = Ok tt -> h_connect w = Ok tt ->
      let rows := fst (health_rows w user_id (catalogue user_id db)) in
      let o := run_catalogue_health_check w user_id db in
      h_checked o = List.length rows
      /\ (exists rest,
            rows = committed_batches rows ++ rest
            /\ List.length rest < 10
            /\ List.length (committed_batches rows) = 10 * (List.length rows / 10))
      /\ match snd (health_rows w user_id (catalogue user_id db)) with
         | None => h_status o = Ok tt /\ h_db o = with_health (h_now w) db rows
         | Some e =>
             h_status o = Raise e
             /\ h_db o = with_health (h_now w) db (committed_batches rows)
         end)
  /\ (forall io user_id day_iso tracks st,
        committed (s_conn (streams_loop io user_id day_iso tracks st))
        = committed (s_conn st))
  /\ (forall w user_id day_override db tok web,
        get_spotify_token (token_net w) = Ok tok -> sniffed w = Ok web ->
        s_connect w = Ok tt ->
        let rows :=
          stream_rows (s_io w) user_id (streams_day (s_today w) day_override)
            (catalogue user_id db) in
        let o := run_streams_collection w user_id day_override db in
        s_processed o = List.length rows
        /\ (forall e, loop_commit w = Raise e -> s_status o = Raise e /\ s_db o = db)
        /\ (loop_commit w = Ok tt -> s_db o = with_streams db rows)).
Proof.
  split; [|split; [exact streams_loop_never_commits|]].
  - intros w user_id db Hc Hd rows o.
    destruct (run_health_spec w user_id db Hc Hd) as [H1 H2].
    split; [exact H1|]. split; [apply committed_batches_split|exact H2].
  - intros w user_id day_override db tok web Ht Hs Hc rows o.
    destruct (run_streams_after_loop w user_id day_override db tok web Ht Hs Hc)
      as (H1 & _ & H3 & H4).
    split; [exact H1|]. split; [exact H3|exact H4].
Qed.


(** * Failures of a single track *)

Lemma search_track_exhausted isrc net :
  (forall k, k < 3 -> retried (net k) = true) ->
  exists e, search_track isrc net = Raise e /\ is_request_exception e = true.
Proof.
  intros H. unfold search_track, request.
  destruct (executor_exhausted SPOTIFY_SEARCH_URL net H) as (e & evs & _ & He & E & _).
  rewrite E. cbn [fst bind]. eauto.
Qed.

Lemma track_metric_search_down io t :
  (forall k, k < 3 -> retried (search_net io k) = true) ->
  exists e, track_metric io t = Raise e /\ is_request_exception e = true.
Proof.
  intros H. unfold track_metric.
  destruct (search_track_exhausted (isrc t) (search_net io) H) as (e & -> & He).
  cbn [bind]. eauto.
Qed.

Lemma track_metric_album_down io t info :
  search_track (isrc t) (search_net io) = Ok (Some info) ->
  (forall k, k < 3 -> retried (album_net io k) = true) ->
  track_metric io t = Ok None.
Proof.
  intros Hs Ha. unfold track_metric. rewrite Hs. cbn [bind].
  rewrite (fetch_album_exhausted (album_net io) Ha). reflexivity.
Qed.

Lemma streams_status_any_io w io user_id day_override db :
  s_status (run_streams_collection (with_io w io) user_id day_override db)
  = s_status (run_streams_collection w user_id day_override db).
Proof.
  unfold run_streams_collection. cbn [with_io token_net sniffed s_connect loop_commit
    refresh_view final_commit s_telegram].
  destruct (get_spotify_token (token_net w)); [|reflexivity].
  destruct (sniffed w); [|reflexivity].
  destruct (s_connect w); [|reflexivity].
  destruct (loop_commit w); [|reflexivity].
  destruct (refresh_view w); [|reflexivity].
  destruct (final_commit w); reflexivity.
Qed.

Lemma check_spotify_api_down e artist title :
  check_spotify_api (Raise e) artist title = false.
Proof. reflexivity. Qed.

Lemma health_errors_zero w user_id db :
  h_errors (run_catalogue_health_check w user_id db) = 0.
Proof.
  unfold run_catalogue_health_check.
  destruct (h_client w); [|reflexivity]. destruct (h_connect w); [|reflexivity].
  destruct (health_loop w user_id (enumerate_from 0 (select_tracks user_id (db_open db)))
              (HealthState (db_open db) 0)) as [st [e|]]; reflexivity.
Qed.

Lemma check_track_checks_down w user_id n t st :
  (String.length (title t) =? 0) || (String.length (artist t) =? 0) = false ->
  (forall k, k < 3 -> apple_retried (apple_net (h_io w n) k) = true) ->
  exists st',
    check_track w user_id n t st = Ok st'
    /\ checked_count st' = checked_count st + 1
    /\ health_row_of w user_id n t
       = Ok (Some (HealthRow (h_today w) (track_uid t) false
                     (check_spotify_api (spotify_search (h_io w n)) (artist t) (title t))
                     user_id None)).
Proof.
  intros Hmeta Hdown. rewrite check_track_row. unfold health_row_of. rewrite Hmeta.
  rewrite (check_apple_unanswered (artist t) (title t) _ Hdown). cbn [bind].
  eexists. split; [reflexivity|]. split; reflexivity.
Qed.

(** Reading a JSON document raises no request exception. *)
Lemma py_get_raises d k v e : py_get d k v = Raise e -> is_request_exception e = false.
Proof.
  destruct d; cbn [py_get]; try (intros H; injection H as <-; reflexivity).
  destruct (assoc k kvs); discriminate.
Qed.

Lemma py_iter_raises v e : py_iter v = Raise e -> is_request_exception e = false.
Proof.
  destruct v; cbn [py_iter]; try discriminate; intros H; injection H as <-; reflexivity.
Qed.

Lemma similar_value_raises v b e :
  similar_value v b = Raise e -> is_request_exception e = false.
Proof.
  unfold similar_value. destruct (negb (truthy v) || (String.length b =? 0)); [discriminate|].
  destruct v; try discriminate; intros H; injection H as <-; reflexivity.
Qed.

Lemma apple_result_matches_raises artist title r e :
  apple_result_matches artist title r = Raise e -> is_request_exception e = false.
Proof.
  unfold apple_result_matches.
  destruct (py_get r "trackName" (JStr "")) as [tr|e0] eqn:E1; cbn [bind];
    [|intros H; injection H as <-; apply (py_get_raises _ _ _ _ E1)].
  destruct (py_get r "collectionName" (JStr "")) as [al|e0] eqn:E2; cbn [bind];
    [|intros H; injection H as <-; apply (py_get_raises _ _ _ _ E2)].
  destruct (py_get r "artistName" (JStr "")) as [ar|e0] eqn:E3; cbn [bind];
    [|intros H; injection H as <-; apply (py_get_raises _ _ _ _ E3)].
  destruct (similar_value ar artist) as [sa|e0] eqn:E4; cbn [bind];
    [|intros H; injection H as <-; apply (similar_value_raises _ _ _ E4)].
  destruct (reaches sa); [|discriminate].
  destruct (similar_value tr title) as [st|e0] eqn:E5; cbn [bind];
    [|intros H; injection H as <-; apply (similar_value_raises _ _ _ E5)].
  destruct (reaches st); [discriminate|].
  destruct (similar_value al title) as [sal|e0] eqn:E6; cbn [bind];
    [discriminate|intros H; injection H as <-; apply (similar_value_raises _ _ _ E6)].
Qed.

Lemma apple_scan_raises artist title l e :
  apple_scan artist title l = Raise e -> is_request_exception e = false.
Proof.
  induction l as [|r l IH]; cbn [apple_scan]; [discriminate|].
  destruct (apple_result_matches artist title r) as [m|e0] eqn:E; cbn [bind].
  - destruct m; [discriminate|exact IH].
  - intros H. injection H as <-. apply (apple_result_matches_raises _ _ _ _ E).
Qed.

(** What the Catalog A loop does with an attempt it does not answer by
    trying again: it returns its verdict or lets an exception through. *)
Lemma apple_try_decided artist title a :
  apple_retried a = false ->
  (exists found, apple_try artist title a = Ok (Some found))
  \/ exists e, apple_try artist title a = Raise e /\ is_request_exception e = false.
Proof.
  destruct a as [[status body]|e]; cbn [apple_retried apple_try status_code resp_json].
  - intros H. apply orb_false_iff in H. destruct H as [H1 H2]. rewrite H1.
    unfold raise_for_status. cbn [status_code]. rewrite H2. cbn [bind].
    destruct (py_get body "results" (JList [])) as [results|e] eqn:E1; cbn [bind];
      [|right; exists e; split; [reflexivity|apply (py_get_raises _ _ _ _ E1)]].
    destruct (py_iter results) as [l|e] eqn:E2; cbn [bind];
      [|right; exists e; split; [reflexivity|apply (py_iter_raises _ _ E2)]].
    destruct (apple_scan artist title l) as [found|e] eqn:E3; cbn [bind];
      [left; eauto|right; exists e; split; [reflexivity|apply (apple_scan_raises _ _ _ _ E3)]].
  - intros H. right. eauto.
Qed.

(** The exceptions [check_apple_music_api] lets through: those of another
    class than [RequestException], raised by the first attempt it does not
    answer by trying again. *)
Lemma check_apple_raises artist title net e :
  check_apple_music_api artist title net = Raise e <->
  exists k,
    k < 3 /\ (forall k', k' < k -> apple_retried (net k') = true)
    /\ apple_retried (net k) = false
    /\ apple_try artist title (net k) = Raise e
    /\ is_request_exception e = false.
Proof.
  unfold check_apple_music_api. cbn [seq]. split.
  - destruct (apple_retried (net 0)) eqn:R0.
    + rewrite (apple_attempts_skip artist title net 0 _ R0) by lia.
      destruct (apple_retried (net 1)) eqn:R1.
      * rewrite (apple_attempts_skip artist title net 1 _ R1) by lia.
        destruct (apple_retried (net 2)) eqn:R2.
        -- rewrite (apple_attempts_last artist title net R2). discriminate.
        -- cbn [apple_attempts].
           destruct (apple_try_decided artist title _ R2) as [(f & E)|(e' & E & He)];
             rewrite E; [discriminate|]. rewrite He. intros H. injection H as <-.
           exists 2. split; [lia|]. split; [|split; [|split]; assumption].
           intros k' Hk'. destruct k' as [|[|k']]; [assumption|assumption|lia].
      * cbn [apple_attempts].
        destruct (apple_try_decided artist title _ R1) as [(f & E)|(e' & E & He)];
          rewrite E; [discriminate|]. rewrite He. intros H. injection H as <-.
        exists 1. split; [lia|]. split; [|split; [|split]; assumption].
        intros k' Hk'. destruct k' as [|k']; [assumption|lia].
    + cbn [apple_attempts].
      destruct (apple_try_decided artist title _ R0) as [(f & E)|(e' & E & He)];
        rewrite E; [discriminate|]. rewrite He. intros H. injection H as <-.
      exists 0. split; [lia|]. split; [|split; [|split]; assumption]. intros k' Hk'. lia.
  - intros (k & Hk & Hbefore & Hdec & Htry & He).
    destruct k as [|[|[|k]]]; [| | |lia].
    + cbn [apple_attempts]. rewrite Htry, He. reflexivity.
    + rewrite apple_attempts_skip by (try apply Hbefore; lia).
      cbn [apple_attempts]. rewrite Htry, He. reflexivity.
    + rewrite !apple_attempts_skip by (try apply Hbefore; lia).
      cbn [apple_attempts]. rewrite Htry, He. reflexivity.
Qed.

Lemma check_track_escapes w user_id n t st e :
  has_metadata t = true ->
  check_apple_music_api (artist t) (title t) (apple_net (h_io w n)) = Raise e ->
  check_track w user_id n t st = Raise e /\ health_row_of w user_id n t = Raise e.
Proof.
  unfold has_metadata. intros Hm He. apply negb_true_iff in Hm.
  rewrite check_track_row. unfold health_row_of. rewrite Hm, He. split; reflexivity.
Qed.

Lemma step_log_error io user_id day_iso t st e :
  track_metric io t = Raise e -> step_log io user_id day_iso t st = [(isrc t, e)].
Proof. intros H. unfold step_log. rewrite collect_track_metric, H. reflexivity. Qed.

Lemma step_log_quiet io user_id day_iso t st m :
  track_metric io t = Ok m -> step_log io user_id day_iso t st = [].
Proof.
  intros H. unfold step_log. rewrite collect_track_metric, H. cbn [bind].
  destruct m; reflexivity.
Qed.

(** C6, as the code has it.  A search that fails after the retries makes the
    loop body raise: the handler of the loop logs the track and the
    exception, the track is counted as an error and the loop goes on with
    the next track.  A metrics call that fails after the retries is absorbed
    by [fetch_album]: the track yields no metric, nothing is written, no
    error is counted and the loop logs nothing.  A Catalog B call that
    raises gives "not found", and so does a Catalog A call whose three
    attempts are each a rate limit, an error status or a request exception:
    the row is written with that status and the loop goes on.  None of
    these changes how the run ends.  An exception of another class that a
    Catalog A attempt raises is not recoverable: the check lets it through,
    the availability loop has no handler, and the run stops at that track,
    keeps the batches it committed and raises, its error count still 0. *)
Theorem per_track_failure_policy :
  (forall io user_id day_iso t st,
      (forall k, k < 3 -> retried (search_net io k) = true) ->
      exists e,
        is_request_exception e = true
        /\ track_metric io t = Raise e
        /\ step_log io user_id day_iso t st = [(isrc t, e)]
        /\ streams_step io user_id day_iso t st
           = StreamsState (s_conn st) (processed st) (errors st + 1) (total_playcount st))
  /\ (forall io user_id day_iso t st info,
        search_track (isrc t) (search_net io) = Ok (Some info) ->
        (forall k, k < 3 -> retried (album_net io k) = true) ->
        track_metric io t = Ok None /\ streams_step io user_id day_iso t st = st
        /\ step_log io user_id day_iso t st = [])
  /\ (forall io user_id day_iso n t rest st,
        streams_loop io user_id day_iso ((n, t) :: rest) st
        = streams_loop io user_id day_iso rest (streams_step (io n) user_id day_iso t st))
  /\ (forall w io user_id day_override db,
        s_status (run_streams_collection (with_io w io) user_id day_override db)
        = s_status (run_streams_collection w user_id day_override db))
  /\ (forall artist title net,
        (forall k, k < 3 -> apple_retried (net k) = true) ->
        check_apple_music_api artist title net = Ok false)
  /\ (forall e artist title, check_spotify_api (Raise e) artist title = false)
  /\ (forall w user_id n t st,
        has_metadata t = true ->
        (forall k, k < 3 -> apple_retried (apple_net (h_io w n) k) = true) ->
        exists st',
          check_track w user_id n t st = Ok st'
          /\ checked_count st' = checked_count st + 1
          /\ health_row_of w user_id n t
             = Ok (Some (HealthRow (h_today w) (track_uid t) false
                           (check_spotify_api (spotify_search (h_io w n)) (artist t)
                              (title t))
                           user_id None)))
  /\ (forall artist title net e,
        check_apple_music_api artist title net = Raise e <->
        exists k,
          k < 3 /\ (forall k', k' < k -> apple_retried (net k') = true)
          /\ apple_retried (net k) = false
          /\ apple_try artist title (net k) = Raise e
          /\ is_request_exception e = false)
  /\ (forall w user_id n t rest st e,
        has_metadata t = true ->
        check_apple_music_api (artist t) (title t) (apple_net (h_io w n)) = Raise e ->
        health_loop w user_id ((n, t) :: rest) st = (st, Some e)
        /\ health_rows w user_id ((n, t) :: rest) = ([], Some e))
  /\ (forall w user_id db e,
        h_client w = Ok tt -> h_connect w = Ok tt ->
        snd (health_rows w user_id (catalogue user_id db)) = Some e ->
        let o := run_catalogue_health_check w user_id db in
        h_status o = Raise e
        /\ h_db o
           = with_health (h_now w) db
               (committed_batches (fst (health_rows w user_id (catalogue user_id db))))
        /\ h_errors o = 0).
Proof.
  split; [|split; [|split; [reflexivity|split; [exact streams_status_any_io|
          split; [exact check_apple_unanswered|split; [exact check_spotify_api_down|
          split; [|split; [exact check_apple_raises|split]]]]]]]].
  - intros io user_id day_iso t st H.
    destruct (track_metric_search_down io t H) as (e & He & Hreq).
    exists e. split; [exact Hreq|]. split; [exact He|].
    split; [apply step_log_error; exact He|].
    apply (streams_step_error io user_id day_iso t st e He).
  - intros io user_id day_iso t st info Hs Ha.
    pose proof (track_metric_album_down io t info Hs Ha) as H.
    split; [exact H|]. split; [apply streams_step_no_metric; exact H|].
    apply (step_log_quiet io user_id day_iso t st None H).
  - intros w user_id n t st Hm. apply check_track_checks_down.
    unfold has_metadata in Hm. apply negb_true_iff in Hm. exact Hm.
  - intros w user_id n t rest st e Hm He. cbn [health_loop]. rewrite health_rows_cons.
    destruct (check_track_escapes w user_id n t st e Hm He) as [-> ->]. split; reflexivity.
  - intros w user_id db e Hc Hd Hfail o.
    destruct (run_health_spec w user_id db Hc Hd) as (_ & Hs). rewrite Hfail in Hs.
    destruct Hs as [Hs Hdb]. split; [exact Hs|]. split; [exact Hdb|].
    apply health_errors_zero.
Qed.

(** * The anomaly alert *)

Lemma track_metric_nonneg io t n : track_metric io t = Ok (Some n) -> (0 <= n)%Z.
Proof.
  unfold track_metric.
  destruct (search_track (isrc t) (search_net io)) as [[info|]|e]; cbn [bind];
    [|discriminate|discriminate].
  destruct (fetch_album (album_net io)) as [album_data|e]; cbn [bind]; [|discriminate].
  apply extract_playcount_nonneg.
Qed.

Lemma stream_rows_in io user_id day_iso : forall tracks r,
  In r (stream_rows io user_id day_iso tracks) ->
  stream_date r = day_iso /\ platform r = "spotify" /\ s_user_id r = user_id
  /\ (0 <= playcount r)%Z.
Proof.
  induction tracks as [|[n t] tracks IH]; intros r Hin; [destruct Hin|].
  rewrite stream_rows_cons in Hin.
  destruct (track_metric (io n) t) as [[count|]|e] eqn:E; try (apply IH; exact Hin).
  destruct Hin as [<-|Hin]; [|apply IH; exact Hin].
  cbn. repeat split. apply (track_metric_nonneg (io n) t count E).
Qed.

Lemma stream_counts_cons r rows :
  stream_counts (r :: rows) = (playcount r + stream_counts rows)%Z.
Proof. reflexivity. Qed.

Lemma stream_counts_nonneg rows :
  (forall r, In r rows -> (0 <= playcount r)%Z) -> (0 <= stream_counts rows)%Z.
Proof.
  induction rows as [|r rows IH]; intros Hpos; [cbn; lia|].
  rewrite stream_counts_cons.
  assert (0 <= playcount r)%Z by (apply Hpos; left; reflexivity).
  assert (0 <= stream_counts rows)%Z by (apply IH; intros x Hx; apply Hpos; right; exact Hx).
  lia.
Qed.

Lemma stream_counts_zero rows :
  (forall r, In r rows -> (0 <= playcount r)%Z) ->
  (stream_counts rows = 0%Z <-> forall r, In r rows -> playcount r = 0%Z).
Proof.
  induction rows as [|r rows IH]; intros Hpos.
  - split; [intros _ r []|reflexivity].
  - rewrite stream_counts_cons.
    assert (H0 : (0 <= playcount r)%Z) by (apply Hpos; left; reflexivity).
    assert (Hrest : forall x, In x rows -> (0 <= playcount x)%Z)
      by (intros x Hx; apply Hpos; right; exact Hx).
    pose proof (stream_counts_nonneg rows Hrest) as Hsum.
    specialize (IH Hrest). split.
    + intros H r' [<-|Hr']; [lia|]. apply IH; [lia|exact Hr'].
    + intros H. rewrite (H r) by (left; reflexivity).
      assert (stream_counts rows = 0)%Z
        by (apply IH; intros x Hx; apply H; right; exact Hx).
      lia.
Qed.

Lemma send_telegram_alert_alert tg a :
  existsb (fun ev => is_zero_streams (alert_of ev)) (send_telegram_alert tg a)
  = is_zero_streams a.
Proof.
  unfold send_telegram_alert.
  destruct (tg_configured tg); cbn [negb]; [destruct (tg_post_ok tg)|];
    cbn [existsb alert_of]; apply orb_false_r.
Qed.

Lemma failed_run_no_anomaly w user_id day_override db e :
  s_status (run_streams_collection w user_id day_override db) = Raise e ->
  anomaly_reported (run_streams_collection w user_id day_override db) = false.
Proof.
  unfold run_streams_collection, anomaly_reported.
  destruct (get_spotify_token (token_net w));
    [|intros _; cbn [streams_failed s_alerts]; apply send_telegram_alert_alert].
  destruct (sniffed w);
    [|intros _; cbn [streams_failed s_alerts]; apply send_telegram_alert_alert].
  destruct (s_connect w);
    [|intros _; cbn [streams_failed s_alerts]; apply send_telegram_alert_alert].
  destruct (loop_commit w);
    [|intros _; cbn [streams_failed s_alerts]; apply send_telegram_alert_alert].
  destruct (refresh_view w);
    [|intros _; cbn [streams_failed s_alerts]; apply send_telegram_alert_alert].
  destruct (final_commit w);
    [|intros _; cbn [streams_failed s_alerts]; apply send_telegram_alert_alert].
  discriminate.
Qed.

Lemma run_streams_any_telegram w tg user_id day_override db :
  let o := run_streams_collection w user_id day_override db in
  let o' := run_streams_collection (with_telegram w tg) user_id day_override db in
  s_status o' = s_status o /\ s_db o' = s_db o /\ s_processed o' = s_processed o
  /\ s_errors o' = s_errors o /\ s_total o' = s_total o.
Proof.
  unfold run_streams_collection. cbn [with_telegram token_net sniffed s_connect s_io
    loop_commit refresh_view final_commit s_telegram s_today].
  destruct (get_spotify_token (token_net w)); [|repeat split].
  destruct (sniffed w); [|repeat split].
  destruct (s_connect w); [|repeat split].
  destruct (loop_commit w); [|repeat split].
  destruct (refresh_view w); [|repeat split].
  destruct (final_commit w); repeat split.
Qed.

Lemma anomaly_reported_ok w user_id day_override db :
  let o := run_streams_collection w user_id day_override db in
  s_status o = Ok tt ->
  (anomaly_reported o = true <-> 0 < s_processed o /\ s_total o = 0%Z).
Proof.
  intros o Hok.
  destruct (run_streams_ok w user_id day_override db Hok) as (_ & Hp & _ & Ht & Ha).
  fold o in Hp, Ht, Ha. unfold anomaly_reported. rewrite Ha, Hp, Ht.
  destruct ((0 <? List.length
                    (stream_rows (s_io w) user_id (streams_day (s_today w) day_override)
                       (catalogue user_id db)))
            && (stream_counts
                  (stream_rows (s_io w) user_id (streams_day (s_today w) day_override)
                     (catalogue user_id db)) =? 0)%Z) eqn:E.
  - rewrite send_telegram_alert_alert. cbn [is_zero_streams].
    apply andb_true_iff in E. destruct E as [E1 E2].
    apply Nat.ltb_lt in E1. apply Z.eqb_eq in E2. tauto.
  - cbn [existsb]. split; [discriminate|]. intros [H1 H2].
    apply andb_false_iff in E. destruct E as [E|E].
    + apply Nat.ltb_ge in E. lia.
    + apply Z.eqb_neq in E. contradiction.
Qed.

Lemma send_telegram_alert_sent tg a :
  existsb (fun ev => match ev with
                     | Sent a => is_zero_streams a
                     | _ => false
                     end) (send_telegram_alert tg a)
  = is_zero_streams a && tg_configured tg && tg_post_ok tg.
Proof.
  unfold send_telegram_alert.
  destruct (tg_configured tg), (tg_post_ok tg); cbn [negb existsb];
    rewrite ?orb_false_r, ?andb_true_r, ?andb_false_r; reflexivity.
Qed.

Lemma anomaly_alerted_reported w user_id day_override db :
  let o := run_streams_collection w user_id day_override db in
  anomaly_alerted o
  = anomaly_reported o && tg_configured (s_telegram w) && tg_post_ok (s_telegram w).
Proof.
  unfold run_streams_collection, anomaly_alerted, anomaly_reported.
  repeat match goal with
         | |- context [match ?x with Ok _ => _ | Raise _ => _ end] => destruct x
         end;
    try (destruct st; cbn [streams_failed s_alerts]);
    cbn [streams_failed s_alerts];
    try (rewrite send_telegram_alert_sent, send_telegram_alert_alert; reflexivity).
  match goal with |- context [if ?c then _ else _] => destruct c end.
  - rewrite send_telegram_alert_sent, send_telegram_alert_alert. reflexivity.
  - reflexivity.
Qed.

(** Once the commit after the loop has succeeded the rows are durable; when
    the refresh or the last commit then fails, the run raises and reports
    its error, not the anomaly. *)
Lemma late_failure_no_anomaly w user_id day_override db tok web e :
  get_spotify_token (token_net w) = Ok tok -> sniffed w = Ok web -> s_connect w = Ok tt ->
  loop_commit w = Ok tt ->
  refresh_view w = Raise e \/ (refresh_view w = Ok tt /\ final_commit w = Raise e) ->
  let o := run_streams_collection w user_id day_override db in
  s_status o = Raise e
  /\ streams (s_db o)
     = upsert_all upsert_stream
         (stream_rows (s_io w) user_id (streams_day (s_today w) day_override)
            (catalogue user_id db)) (streams db)
  /\ s_processed o
     = List.length (stream_rows (s_io w) user_id (streams_day (s_today w) day_override)
                      (catalogue user_id db))
  /\ s_total o
     = stream_counts (stream_rows (s_io w) user_id (streams_day (s_today w) day_override)
                        (catalogue user_id db))
  /\ anomaly_reported o = false.
Proof.
  intros Ht Hs Hc Hl Hlate o.
  assert (Hrep : anomaly_reported o = false).
  { destruct Hlate as [Hr|[Hr Hf]];
      apply (failed_run_no_anomaly w user_id day_override db e);
      unfold run_streams_collection; rewrite Ht, Hs, Hc, Hl, Hr; [|rewrite Hf]; reflexivity. }
  pose proof (streams_loop_effect (s_io w) user_id (streams_day (s_today w) day_override)
                (catalogue user_id db) (StreamsState (db_open db) 0 0 0%Z)) as E.
  destruct E as [_ _ _ E4 E5 _ E7]. cbn [s_conn working db_open streams processed
    total_playcount] in E4, E5, E7.
  assert (Hrun : s_status o = Raise e
                 /\ streams (s_db o)
                    = streams (working (s_conn
                        (streams_loop (s_io w) user_id (streams_day (s_today w) day_override)
                           (catalogue user_id db) (StreamsState (db_open db) 0 0 0%Z))))
                 /\ s_processed o
                    = processed
                        (streams_loop (s_io w) user_id (streams_day (s_today w) day_override)
                           (catalogue user_id db) (StreamsState (db_open db) 0 0 0%Z))
                 /\ s_total o
                    = total_playcount
                        (streams_loop (s_io w) user_id (streams_day (s_today w) day_override)
                           (catalogue user_id db) (StreamsState (db_open db) 0 0 0%Z))).
  { unfold o, run_streams_collection, catalogue. rewrite Ht, Hs, Hc, Hl.
    destruct Hlate as [Hr|[Hr Hf]]; rewrite Hr; [|rewrite Hf]; repeat split. }
  destruct Hrun as (H1 & H2 & H3 & H4).
  split; [exact H1|]. split; [rewrite H2; exact E4|].
  split; [rewrite H3, E5; reflexivity|]. split; [rewrite H4, E7; lia|exact Hrep].
Qed.

(** C7, as the code has it.  [send_telegram_alert] is called with the
    zero-streams warning exactly when the run ends normally, the commits and
    the view refresh included, with processed > 0 and the counters it
    persisted adding up to zero, which is when every one of them is zero.
    The warning is sent only if, besides, the bot is configured and the POST
    goes through.  A run whose refresh or last commit fails has committed
    its rows before: whatever it persisted, it reports its error and not the
    anomaly.  What the transport does leaves the status, the tables and the
    counts of the run as they are. *)
Theorem anomaly_alert_policy :
  forall w user_id day_override db,
    let rows :=
      stream_rows (s_io w) user_id (streams_day (s_today w) day_override)
        (catalogue user_id db) in
    let o := run_streams_collection w user_id day_override db in
    (anomaly_reported o = true <->
     s_status o = Ok tt /\ 0 < s_processed o /\ s_total o = 0%Z)
    /\ (anomaly_alerted o = true <->
        s_status o = Ok tt /\ 0 < s_processed o /\ s_total o = 0%Z
        /\ tg_configured (s_telegram w) = true /\ tg_post_ok (s_telegram w) = true)
    /\ (s_status o = Ok tt ->
        s_processed o = List.length rows
        /\ s_total o = stream_counts rows
        /\ (s_total o = 0%Z <-> forall r, In r rows -> playcount r = 0%Z))
    /\ (forall tok web e,
          get_spotify_token (token_net w) = Ok tok -> sniffed w = Ok web ->
          s_connect w = Ok tt -> loop_commit w = Ok tt ->
          refresh_view w = Raise e \/ (refresh_view w = Ok tt /\ final_commit w = Raise e) ->
          s_status o = Raise e
          /\ streams (s_db o) = upsert_all upsert_stream rows (streams db)
          /\ s_processed o = List.length rows
          /\ s_total o = stream_counts rows
          /\ anomaly_reported o = false /\ anomaly_alerted o = false)
    /\ (forall tg,
          let o' := run_streams_collection (with_telegram w tg) user_id day_override db in
          s_status o' = s_status o /\ s_db o' = s_db o /\ s_processed o' = s_processed o
          /\ s_errors o' = s_errors o /\ s_total o' = s_total o).
Proof.
  intros w user_id day_override db rows o.
  assert (Hrep : anomaly_reported o = true <->
                 s_status o = Ok tt /\ 0 < s_processed o /\ s_total o = 0%Z).
  { destruct (s_status o) as [[]|e] eqn:Es.
    + pose proof (anomaly_reported_ok w user_id day_override db Es) as H.
      fold o in H. tauto.
    + pose proof (failed_run_no_anomaly w user_id day_override db e Es) as H.
      fold o in H. rewrite H.
      split; [discriminate|]. intros [H' _]. discriminate. }
  pose proof (anomaly_alerted_reported w user_id day_override db) as Hsent.
  fold o in Hsent.
  split; [exact Hrep|]. split; [|split; [|split]].
  - rewrite Hsent, !andb_true_iff, Hrep. tauto.
  - intros Hok.
    destruct (run_streams_ok w user_id day_override db Hok) as (_ & Hp & _ & Ht & _).
    fold o in Hp, Ht. fold rows in Hp, Ht.
    split; [exact Hp|]. split; [exact Ht|].
    rewrite Ht. apply stream_counts_zero. intros r Hr.
    apply (stream_rows_in _ _ _ _ r Hr).
  - intros tok web e Ht Hs Hc Hl Hlate.
    destruct (late_failure_no_anomaly w user_id day_override db tok web e Ht Hs Hc Hl Hlate)
      as (H1 & H2 & H3 & H4 & H5).
    fold o in H1, H2, H3, H4, H5. fold rows in H2, H3, H4.
    repeat (split; [assumption|]). rewrite Hsent, H5. reflexivity.
  - intros tg. apply run_streams_any_telegram.
Qed.

(** * Snapshot dates *)

Lemma health_rows_in w user_id : forall tracks h,
  In h (fst (health_rows w user_id tracks)) -> check_date h = h_today w.
Proof.
  induction tracks as [|[n t] tracks IH]; intros h Hin; [destruct Hin|].
  rewrite health_rows_cons in Hin.
  destruct (health_row_of w user_id n t) as [[row|]|e] eqn:E; cbn [fst] in Hin.
  - destruct Hin as [<-|Hin]; [|apply IH; exact Hin].
    unfold health_row_of in E.
    destruct ((String.length (title t) =? 0) || (String.length (artist t) =? 0));
      [discriminate|].
    destruct (check_apple_music_api (artist t) (title t) (apple_net (h_io w n)));
      cbn [bind] in E; [|discriminate].
    injection E as <-. reflexivity.
  - apply IH. exact Hin.
  - destruct Hin.
Qed.

Lemma run_all_tasks_success w user_id db :
  t_status (run_all_tasks w user_id None db) = Success ->
  t_db (run_all_tasks w user_id None db)
  = with_health (h_now (w_health w))
      (with_streams db
         (stream_rows (s_io (w_streams w)) user_id
            (streams_day (s_today (w_streams w)) None) (catalogue user_id db)))
      (fst (health_rows (w_health w) user_id (catalogue user_id db))).
Proof.
  unfold run_all_tasks. cbn [override_day health_wanted].
  destruct (s_status (run_streams_collection (w_streams w) user_id None db))
    as [[]|e] eqn:Es; [|discriminate].
  destruct (w_playlists w) as [[]|e]; [|discriminate].
  destruct (h_status (run_catalogue_health_check (w_health w) user_id
              (s_db (run_streams_collection (w_streams w) user_id None db))))
    as [[]|e] eqn:Eh; [|discriminate].
  intros _. cbn [t_db].
  destruct (run_streams_ok (w_streams w) user_id None db Es) as (Hdb & _).
  destruct (run_health_ok (w_health w) user_id _ Eh) as (_ & Hh).
  rewrite Hh, Hdb, catalogue_with_streams. reflexivity.
Qed.

(** C10.  Without a date override the metrics run stamps every row it writes
    with the day before [date.today()]; the availability check, which takes
    no date at all, stamps every row with [date.today()].  In one
    orchestrated run, where the clock does not go back between the two, the
    rows of the two tables therefore carry different dates. *)
Theorem default_snapshot_dates :
  forall w user_id db,
    let rows :=
      stream_rows (s_io (w_streams w)) user_id
        (streams_day (s_today (w_streams w)) None) (catalogue user_id db) in
    let hrows := fst (health_rows (w_health w) user_id (catalogue user_id db)) in
    let o := run_all_tasks w user_id None db in
    (forall r, In r rows -> stream_date r = (s_today (w_streams w) - 1)%Z)
    /\ (forall h, In h hrows -> check_date h = h_today (w_health w))
    /\ (t_status o = Success ->
        t_db o = with_health (h_now (w_health w)) (with_streams db rows) hrows)
    /\ ((s_today (w_streams w) <= h_today (w_health w))%Z ->
        forall r h, In r rows -> In h hrows -> stream_date r <> check_date h).
Proof.
  intros w user_id db rows hrows o.
  assert (H1 : forall r, In r rows -> stream_date r = (s_today (w_streams w) - 1)%Z)
    by (intros r Hr; apply (stream_rows_in _ _ _ _ r Hr)).
  assert (H2 : forall h, In h hrows -> check_date h = h_today (w_health w))
    by (intros h Hh; apply (health_rows_in _ _ _ h Hh)).
  split; [exact H1|]. split; [exact H2|]. split.
  - apply run_all_tasks_success.
  - intros Hclock r h Hr Hh. rewrite (H1 r Hr), (H2 h Hh). lia.
Qed.


(** * The executor's pauses and answers *)

Lemma executor_events url net :
  let evs := snd (spotify_request_with_retries url net) in
  (attempts_made evs = 1 /\ slept evs = 0 /\ warnings evs = 0
   /\ retried (net 0) = false)
  \/ (attempts_made evs = 2 /\ slept evs = 1 /\ warnings evs = 1
      /\ retried (net 0) = true /\ retried (net 1) = false)
  \/ (attempts_made evs = 3 /\ slept evs = 3 /\ warnings evs = 2
      /\ retried (net 0) = true /\ retried (net 1) = true /\ retried (net 2) = false)
  \/ (attempts_made evs = 3 /\ slept evs = 3 /\ warnings evs = 3
      /\ forall k, k < 3 -> retried (net k) = true).
Proof.
  unfold spotify_request_with_retries, retried. cbn [seq retry_loop].
  destruct (attempt_outcome (net 0)) as [r0|e0] eqn:A0; [left; repeat split|].
  destruct (is_request_exception e0) eqn:E0; [|left; repeat split; exact E0].
  right. cbn [Nat.ltb Nat.leb].
  destruct (attempt_outcome (net 1)) as [r1|e1] eqn:A1; [left; repeat split|].
  destruct (is_request_exception e1) eqn:E1; [|left; repeat split; exact E1].
  right. cbn [Nat.ltb Nat.leb].
  destruct (attempt_outcome (net 2)) as [r2|e2] eqn:A2; [left; repeat split|].
  destruct (is_request_exception e2) eqn:E2; [|left; repeat split; exact E2].
  right. repeat split.
  intros k Hk. destruct k as [|[|[|k]]]; [rewrite A0|rewrite A1|rewrite A2|lia]; assumption.
Qed.

(** X1.  Whatever the network does, the executor makes between one and
    three attempts and sleeps 1 second after a first failed attempt and 2
    after a second one, never after the third: with [n] attempts made it has
    slept [2^(n-1) - 1] seconds, 3 at most.  It logs one warning for each
    attempt that raised a request exception, which is every attempt exactly
    when all three did. *)
Theorem executor_backoff : forall url net,
  let evs := snd (spotify_request_with_retries url net) in
  1 <= attempts_made evs <= 3
  /\ slept evs = 2 ^ (attempts_made evs - 1) - 1
  /\ attempts_made evs - 1 <= warnings evs <= attempts_made evs
  /\ (warnings evs = attempts_made evs <-> forall k, k < 3 -> retried (net k) = true).
Proof.
  intros url net evs.
  destruct (executor_events url net)
    as [(Ha & Hs & Hw & H0)|[(Ha & Hs & Hw & H0 & H1)|[(Ha & Hs & Hw & H0 & H1 & H2)
        |(Ha & Hs & Hw & Hall)]]];
    fold evs in Ha, Hs, Hw; rewrite Ha, Hs, Hw;
    (split; [lia|]); (split; [reflexivity|]); (split; [lia|]).
  - split; [discriminate|]. intros Hall. rewrite (Hall 0) in H0 by lia. discriminate.
  - split; [discriminate|]. intros Hall. rewrite (Hall 1) in H1 by lia. discriminate.
  - split; [discriminate|]. intros Hall. rewrite (Hall 2) in H2 by lia. discriminate.
  - split; [intros _; exact Hall|reflexivity].
Qed.


Lemma raise_for_status_ok r r' :
  raise_for_status r = Ok r' ->
  r' = r /\ ((status_code r < 400)%Z \/ (600 <= status_code r)%Z).
Proof.
  unfold raise_for_status.
  destruct ((400 <=? status_code r)%Z && (status_code r <? 600)%Z) eqn:E; [discriminate|].
  intros H. injection H as <-. split; [reflexivity|].
  apply andb_false_iff in E. destruct E as [E|E].
  - apply Z.leb_gt in E. left. exact E.
  - apply Z.ltb_ge in E. right. exact E.
Qed.

(** X2.  A response the executor returns is the answer of one of its three
    attempts, every attempt before it raised a request exception, and its
    status is never one from 400 to 599. *)
Theorem executor_returns_success : forall url net r,
  request url net = Ok r ->
  ((status_code r < 400)%Z \/ (600 <= status_code r)%Z)
  /\ exists k,
       k < 3 /\ net k = Responds r /\ forall k', k' < k -> retried (net k') = true.
Proof.
  intros url net r H. unfold request in H.
  destruct (executor_cases net) as [Hall|(k & Hk & Hb & Hn)].
  - destruct (executor_exhausted url net Hall) as (e & evs & _ & _ & E & _).
    rewrite E in H. discriminate.
  - destruct (executor_decided url net k Hk Hb Hn) as (evs & E & _).
    rewrite E in H. cbn [fst] in H. unfold attempt_outcome in H.
    destruct (net k) as [r'|e] eqn:Ek; [|discriminate].
    destruct (raise_for_status_ok r' r H) as [-> Hs].
    split; [exact Hs|]. exists k. auto.
Qed.


(** * Python's strings *)

Lemma startswith_app p : forall s,
  startswith s p = true <-> exists rest, s = (p ++ rest)%string.
Proof.
  unfold startswith. induction p as [|c p IH]; intros s.
  - split; [intros _; exists s; reflexivity|]. intros _. destruct s; reflexivity.
  - destruct s as [|d s]; cbn [String.prefix String.append].
    + split; [discriminate|]. intros (rest & H). discriminate.
    + destruct (ascii_dec c d) as [->|Hne].
      * rewrite IH. split.
        -- intros (rest & ->). exists rest. reflexivity.
        -- intros (rest & H). injection H as ->. exists rest. reflexivity.
      * split; [discriminate|]. intros (rest & H). injection H as H _. congruence.
Qed.

(** * Sniffing the web player's tokens *)

Lemma py_split_once_bearer rest :
  py_split_once " "%char ("Bearer " ++ rest) = ["Bearer"; rest].
Proof. reflexivity. Qed.

Lemma on_resp_other resp fut : carries_token resp = false -> on_resp resp fut = Ok fut.
Proof.
  unfold carries_token, on_resp. cbv zeta.
  destruct (contains "/pathfinder/v2/query" (wr_url resp) && (wr_status resp =? 200)%Z);
    [|reflexivity].
  destruct (header "authorization" (wr_request_headers resp)) as [auth|]; [|reflexivity].
  cbn [andb]. intros ->. rewrite andb_false_r. reflexivity.
Qed.

Lemma on_resp_token resp fut :
  carries_token resp = true ->
  exists tok,
    header "authorization" (wr_request_headers resp) = Some ("Bearer " ++ tok)%string
    /\ on_resp resp fut
       = Ok (match fut with
             | None => Some (tok, header "client-token" (wr_request_headers resp))
             | Some _ => fut
             end).
Proof.
  unfold carries_token, on_resp. cbv zeta.
  destruct (contains "/pathfinder/v2/query" (wr_url resp) && (wr_status resp =? 200)%Z);
    [|discriminate].
  destruct (header "authorization" (wr_request_headers resp)) as [auth|]; [|discriminate].
  cbn [andb]. intros H. rewrite H.
  apply startswith_app in H. destruct H as (tok & ->).
  exists tok. split; [reflexivity|].
  cbn [nonempty String.append String.length Nat.eqb negb andb].
  change (String "B" (String "e" (String "a" (String "r" (String "e" (String "r"
            (String " " tok))))))) with ("Bearer " ++ tok)%string.
  rewrite py_split_once_bearer. cbn [py_index nth_error bind].
  destruct fut; reflexivity.
Qed.

Lemma deliver_done resps : forall x, deliver resps (Some x) = Ok (Some x).
Proof.
  induction resps as [|resp resps IH]; intros x; [reflexivity|].
  cbn [deliver]. destruct (carries_token resp) eqn:E.
  - destruct (on_resp_token resp (Some x) E) as (tok & _ & ->). cbn [bind]. apply IH.
  - rewrite (on_resp_other resp (Some x) E). cbn [bind]. apply IH.
Qed.

Lemma deliver_first resps :
  match find carries_token resps with
  | Some resp =>
      exists tok,
        header "authorization" (wr_request_headers resp) = Some ("Bearer " ++ tok)%string
        /\ deliver resps None
           = Ok (Some (tok, header "client-token" (wr_request_headers resp)))
  | None => deliver resps None = Ok None
  end.
Proof.
  induction resps as [|resp resps IH]; [reflexivity|].
  cbn [find deliver]. destruct (carries_token resp) eqn:E.
  - destruct (on_resp_token resp None E) as (tok & Hauth & ->). cbn [bind].
    exists tok. split; [exact Hauth|]. apply deliver_done.
  - rewrite (on_resp_other resp None E). cbn [bind]. exact IH.
Qed.

(** X3.  Once the browser is up and the page loaded, [sniff_tokens] answers
    with the tokens of the first response that comes from the pathfinder
    endpoint with status 200 to a request authorised by a bearer token: the
    text after [Bearer ] and that request's [client-token] header, if any.
    Later responses change nothing, and when no response qualifies within
    the wait the call raises the timeout. *)
Theorem sniff_tokens_first_response : forall br,
  b_launch br = Ok tt -> b_goto br = Ok tt ->
  match find carries_token (b_responses br) with
  | Some resp =>
      exists tok,
        header "authorization" (wr_request_headers resp) = Some ("Bearer " ++ tok)%string
        /\ sniff_tokens br = Ok (tok, header "client-token" (wr_request_headers resp))
  | None => sniff_tokens br = Raise sniff_timeout
  end.
Proof.
  intros br Hl Hg. unfold sniff_tokens. rewrite Hl, Hg. cbn [bind].
  pose proof (deliver_first (b_responses br)) as H.
  destruct (find carries_token (b_responses br)) as [resp|].
  - destruct H as (tok & Hauth & ->). exists tok. split; [exact Hauth|reflexivity].
  - rewrite H. reflexivity.
Qed.


(** X4.  The tokens [sniff_tokens] returns go back out unchanged in the
    headers [fetch_album] builds: the [Authorization] header is the very
    header of the request the tokens were read from, and a [Client-Token]
    header is sent exactly when that request carried a non-empty
    [client-token], with its value. *)
Theorem sniffed_tokens_round_trip : forall br tok cli,
  sniff_tokens br = Ok (tok, cli) ->
  exists resp,
    find carries_token (b_responses br) = Some resp
    /\ header "Authorization" (fetch_album_headers tok cli)
       = header "authorization" (wr_request_headers resp)
    /\ cli = header "client-token" (wr_request_headers resp)
    /\ header "Client-Token" (fetch_album_headers tok cli)
       = (if nonempty cli then cli else None).
Proof.
  intros br tok cli H. unfold sniff_tokens in H.
  destruct (b_launch br) as [[]|e] eqn:El; cbn [bind] in H; [|discriminate].
  destruct (b_goto br) as [[]|e] eqn:Eg; cbn [bind] in H; [|discriminate].
  pose proof (deliver_first (b_responses br)) as Hd.
  destruct (find carries_token (b_responses br)) as [resp|].
  - destruct Hd as (tok' & Hauth & Hd). rewrite Hd in H. cbn [bind] in H.
    injection H as H1 H2. subst tok' cli. exists resp. split; [reflexivity|].
    rewrite Hauth. split; [reflexivity|]. split; [reflexivity|].
    unfold fetch_album_headers.
    destruct (header "client-token" (wr_request_headers resp)) as [c|]; [|reflexivity].
    destruct (nonempty (Some c)); reflexivity.
  - rewrite Hd in H. discriminate.
Qed.


(** * The playlist collection *)

Lemma py_split_nonempty sep s : py_split sep s <> [].
Proof.
  destruct s as [|c s]; cbn [py_split]; [discriminate|].
  destruct (Ascii.eqb c sep); [discriminate|].
  destruct (py_split sep s); discriminate.
Qed.

Lemma py_last_cons {A : Type} (x : A) l : l <> [] -> py_last (x :: l) = py_last l.
Proof.
  intros Hl. unfold py_last. cbn [rev].
  destruct (rev l) as [|y l'] eqn:E; [|reflexivity].
  apply (f_equal (@rev A)) in E. rewrite rev_involutive in E. contradiction.
Qed.

Lemma py_split_plain sep : forall s, ~ In sep (chars s) -> py_split sep s = [s].
Proof.
  induction s as [|c s IH]; intros Hno; [reflexivity|].
  cbn [py_split]. destruct (Ascii.eqb c sep) eqn:E.
  - apply Ascii.eqb_eq in E. subst c. exfalso. apply Hno. left. reflexivity.
  - rewrite IH; [reflexivity|]. intros Hin. apply Hno. right. exact Hin.
Qed.

Lemma py_split_single sep : forall s w, py_split sep s = [w] -> s = w.
Proof.
  induction s as [|c s IH]; intros w H; cbn [py_split] in H.
  - injection H as <-. reflexivity.
  - destruct (Ascii.eqb c sep).
    + injection H as _ H. destruct (py_split_nonempty sep s H).
    + destruct (py_split sep s) as [|x xs] eqn:Ex;
        [destruct (py_split_nonempty sep s Ex)|].
      injection H as <- ->. rewrite (IH x eq_refl). reflexivity.
Qed.

(** The last piece of a split is the text after the last separator. *)
Lemma py_last_split sep : forall s,
  exists pre t,
    py_last (py_split sep s) = Ok t /\ ~ In sep (chars t) /\ s = (pre ++ t)%string.
Proof.
  induction s as [|c s (pre & t & Hlast & Hno & Hs)].
  - exists "", "". repeat split. intros [].
  - cbn [py_split]. destruct (Ascii.eqb c sep) eqn:E.
    + exists (String c pre), t. rewrite py_last_cons by apply py_split_nonempty.
      split; [exact Hlast|]. split; [exact Hno|]. rewrite Hs at 1. reflexivity.
    + destruct (py_split sep s) as [|w ws] eqn:Ew; [destruct (py_split_nonempty sep s Ew)|].
      destruct ws as [|w' ws].
      * exists "", (String c w). cbn in Hlast. injection Hlast as <-.
        split; [reflexivity|]. split.
        -- intros [Hc|Hin]; [|contradiction].
           subst c. rewrite Ascii.eqb_refl in E. discriminate.
        -- rewrite (py_split_single sep s w Ew). reflexivity.
      * exists (String c pre), t.
        rewrite py_last_cons by discriminate.
        rewrite py_last_cons in Hlast by discriminate.
        split; [exact Hlast|]. split; [exact Hno|]. rewrite Hs at 1. reflexivity.
Qed.

Lemma chars_app s t : chars (s ++ t) = chars s ++ chars t.
Proof. induction s as [|c s IH]; cbn; [reflexivity|]. f_equal. exact IH. Qed.

Lemma strip_uri_prefixed rest :
  PlaylistFollowers.strip_uri ("spotify:playlist:" ++ rest)
  = py_last (py_split ":"%char rest).
Proof.
  unfold PlaylistFollowers.strip_uri.
  assert (H : startswith ("spotify:playlist:" ++ rest) "spotify:playlist:" = true)
    by (apply startswith_app; exists rest; reflexivity).
  rewrite H.
  change (py_split ":"%char ("spotify:playlist:" ++ rest))
    with ("spotify" :: "playlist" :: py_split ":"%char rest).
  rewrite !py_last_cons; [reflexivity|apply py_split_nonempty|discriminate].
Qed.

Lemma strip_uri_plain s :
  ~ In ":"%char (chars s) -> PlaylistFollowers.strip_uri s = Ok s.
Proof.
  intros Hno. unfold PlaylistFollowers.strip_uri.
  destruct (startswith s "spotify:playlist:") eqn:E; [|reflexivity].
  apply startswith_app in E. destruct E as (rest & ->).
  exfalso. apply Hno. rewrite chars_app. apply in_or_app. left.
  cbn. tauto.
Qed.

(** X5.  The identifier a playlist is requested under: one that does not
    start with [spotify:playlist:] is used as it is; for one that does, the
    text after its last colon is used, which is the identifier itself when
    that has no colon.  The result never raises, is an end of the stored
    text, and is left as it is when processed again; after the prefix it
    holds no colon. *)
Theorem strip_uri_contract : forall s,
  (startswith s "spotify:playlist:" = false -> PlaylistFollowers.strip_uri s = Ok s)
  /\ (forall x, ~ In ":"%char (chars x) ->
        PlaylistFollowers.strip_uri ("spotify:playlist:" ++ x) = Ok x)
  /\ exists pre t,
       PlaylistFollowers.strip_uri s = Ok t
       /\ s = (pre ++ t)%string
       /\ PlaylistFollowers.strip_uri t = Ok t
       /\ (startswith s "spotify:playlist:" = true -> ~ In ":"%char (chars t)).
Proof.
  intros s. split; [|split].
  - intros H. unfold PlaylistFollowers.strip_uri. rewrite H. reflexivity.
  - intros x Hno. rewrite strip_uri_prefixed, (py_split_plain ":"%char x Hno). reflexivity.
  - destruct (startswith s "spotify:playlist:") eqn:E.
    + apply startswith_app in E. destruct E as (rest & ->).
      destruct (py_last_split ":"%char rest) as (pre & t & Hlast & Hno & Hrest).
      exists ("spotify:playlist:" ++ pre)%string, t.
      rewrite strip_uri_prefixed. split; [exact Hlast|]. split.
      * rewrite Hrest at 1. reflexivity.
      * split; [apply strip_uri_plain; exact Hno|]. intros _. exact Hno.
    + exists "", s. unfold PlaylistFollowers.strip_uri. rewrite E.
      split; [reflexivity|]. split; [reflexivity|]. split; [reflexivity|discriminate].
Qed.


(** X6.  [get_playlist_followers] never raises; what it returns is decided
    by the answer to its one GET.  It is [None] for a failed request, for a
    status other than 200, for a body that is not an object and for a
    [followers] entry that is not one; a missing [followers] entry gives 0,
    and a [followers] object gives its [total], or 0 without one. *)
Theorem get_playlist_followers_cases : forall net pid,
  let a := net (PlaylistFollowers.SPOTIFY_PLAYLIST_URL ++ pid)%string in
  (forall e, a = Fails e -> PlaylistFollowers.get_playlist_followers net pid = JNull)
  /\ (forall r, a = Responds r -> status_code r <> 200%Z ->
        PlaylistFollowers.get_playlist_followers net pid = JNull)
  /\ (forall r, a = Responds r -> status_code r = 200%Z ->
        PlaylistFollowers.get_playlist_followers net pid
        = match resp_json r with
          | JDict body =>
              match assoc "followers" body with
              | None => JInt 0
              | Some (JDict node) =>
                  match assoc "total" node with
                  | Some total => total
                  | None => JInt 0
                  end
              | Some _ => JNull
              end
          | _ => JNull
          end).
Proof.
  intros net pid a. unfold PlaylistFollowers.get_playlist_followers. fold a.
  split; [|split].
  - intros e ->. reflexivity.
  - intros r -> Hs. apply Z.eqb_neq in Hs. rewrite Hs.
    destruct (status_code r =? 404)%Z; reflexivity.
  - intros r -> Hs. apply Z.eqb_eq in Hs. rewrite Hs.
    destruct (resp_json r) as [|b|z|s|l|body]; try reflexivity.
    cbn [py_get bind]. destruct (assoc "followers" body) as [v|]; cbn [bind].
    + destruct v as [|b|z|s|l|node]; try reflexivity.
      cbn [py_get]. destruct (assoc "total" node); reflexivity.
    + reflexivity.
Qed.


Lemma same_follower_key_spec a b :
  PlaylistFollowers.same_follower_key a b = true
  <-> PlaylistFollowers.follower_key a = PlaylistFollowers.follower_key b.
Proof.
  unfold PlaylistFollowers.same_follower_key, PlaylistFollowers.follower_key.
  rewrite !andb_true_iff, !String.eqb_eq, Z.eqb_eq. split.
  - intros [[-> ->] ->]. reflexivity.
  - intros H. injection H as -> -> ->. auto.
Qed.

Lemma merge_follower_key new old :
  PlaylistFollowers.follower_key (PlaylistFollowers.merge_follower new old)
  = PlaylistFollowers.follower_key old.
Proof. reflexivity. Qed.

Lemma merge_follower_last w w' r :
  PlaylistFollowers.merge_follower w (PlaylistFollowers.merge_follower w' r)
  = PlaylistFollowers.merge_follower w r.
Proof. reflexivity. Qed.

Lemma collect_playlist_row net accepts user_id day_iso p st :
  PlaylistFollowers.collect_playlist net accepts user_id day_iso p st
  = (r <- PlaylistFollowers.follower_row_of net accepts user_id day_iso p ;;
     match r with
     | None =>
         Ok (PlaylistFollowers.PlaylistState (PlaylistFollowers.pl_conn st)
               (PlaylistFollowers.pl_processed st) (PlaylistFollowers.pl_errors st + 1))
     | Some row =>
         Ok (PlaylistFollowers.PlaylistState
               (PlaylistFollowers.write_follower row (PlaylistFollowers.pl_conn st))
               (PlaylistFollowers.pl_processed st + 1) (PlaylistFollowers.pl_errors st))
     end).
Proof.
  unfold PlaylistFollowers.collect_playlist, PlaylistFollowers.follower_row_of,
    PlaylistFollowers.execute_follower.
  destruct (PlaylistFollowers.playlist_id p) as [raw|]; [|reflexivity].
  destruct (PlaylistFollowers.strip_uri raw) as [pid|e]; cbn [bind]; [|reflexivity].
  destruct (PlaylistFollowers.get_playlist_followers net pid) as [|b|z|s|l|kvs];
    cbn [PlaylistFollowers.followers]; try reflexivity;
    match goal with
    | |- context [PlaylistFollowers.adaptable ?v] =>
        destruct (PlaylistFollowers.adaptable v); [|reflexivity]
    end;
    match goal with
    | |- context [accepts ?r] => destruct (accepts r) as [[]|e]; reflexivity
    end.
Qed.

Lemma follower_rows_cons io user_id day_iso n p rest :
  PlaylistFollowers.follower_rows io user_id day_iso ((n, p) :: rest)
  = let fr := PlaylistFollowers.follower_rows io user_id day_iso rest in
    match PlaylistFollowers.follower_row_of (PlaylistFollowers.p_io io n)
            (PlaylistFollowers.p_execute io n) user_id day_iso p with
    | Raise e => ([], 0, Some e)
    | Ok None => (fst (fst fr), S (snd (fst fr)), snd fr)
    | Ok (Some row) => (row :: fst (fst fr), snd (fst fr), snd fr)
    end.
Proof.
  cbn [PlaylistFollowers.follower_rows].
  destruct (PlaylistFollowers.follower_row_of (PlaylistFollowers.p_io io n)
              (PlaylistFollowers.p_execute io n) user_id day_iso p) as [[row|]|e];
    [| |reflexivity];
    destruct (PlaylistFollowers.follower_rows io user_id day_iso rest) as [[rows failed] f];
    reflexivity.
Qed.

Lemma playlist_loop_spec io user_id day_iso : forall playlists st,
  let fr := PlaylistFollowers.follower_rows io user_id day_iso playlists in
  let res := PlaylistFollowers.playlist_loop io user_id day_iso playlists st in
  snd res = snd fr
  /\ PlaylistFollowers.playlist_inv st (fst res) (fst (fst fr)) (snd (fst fr)).
Proof.
  induction playlists as [|[n p] rest IH]; intros st.
  - cbn. split; [reflexivity|]. constructor; cbn; auto.
  - cbv zeta. rewrite follower_rows_cons. cbn [PlaylistFollowers.playlist_loop].
    rewrite collect_playlist_row.
    destruct (PlaylistFollowers.follower_row_of (PlaylistFollowers.p_io io n)
              (PlaylistFollowers.p_execute io n) user_id day_iso p) as [[row|]|e];
      cbn [bind].
    + match goal with
      | |- context [PlaylistFollowers.playlist_loop io user_id day_iso rest ?s] =>
          destruct (IH s) as [Hf [H1 H2 H3 H4 H5]]
      end.
      cbn [fst snd]. split; [exact Hf|].
      cbn [PlaylistFollowers.pl_conn PlaylistFollowers.pl_processed
           PlaylistFollowers.pl_errors PlaylistFollowers.write_follower
           PlaylistFollowers.durable PlaylistFollowers.pending
           PlaylistFollowers.user_playlists PlaylistFollowers.playlist_followers] in *.
      constructor; cbn [List.length]; try assumption; lia.
    + match goal with
      | |- context [PlaylistFollowers.playlist_loop io user_id day_iso rest ?s] =>
          destruct (IH s) as [Hf [H1 H2 H3 H4 H5]]
      end.
      cbn [fst snd]. split; [exact Hf|].
      cbn [PlaylistFollowers.pl_conn PlaylistFollowers.pl_processed
           PlaylistFollowers.pl_errors] in *.
      constructor; try assumption; lia.
    + cbn. split; [reflexivity|]. constructor; cbn; auto.
Qed.

Lemma follower_rows_count io user_id day_iso : forall playlists,
  let fr := PlaylistFollowers.follower_rows io user_id day_iso playlists in
  List.length (fst (fst fr)) + snd (fst fr) <= List.length playlists
  /\ (snd fr = None ->
      List.length (fst (fst fr)) + snd (fst fr) = List.length playlists).
Proof.
  induction playlists as [|[n p] rest [IH1 IH2]]; [cbn; auto|].
  cbv zeta. rewrite follower_rows_cons. cbv zeta.
  destruct (PlaylistFollowers.follower_row_of (PlaylistFollowers.p_io io n)
              (PlaylistFollowers.p_execute io n) user_id day_iso p) as [[row|]|e];
    cbn [fst snd List.length].
  - split; [lia|]. intros H. specialize (IH2 H). lia.
  - split; [lia|]. intros H. specialize (IH2 H). lia.
  - split; [lia|discriminate].
Qed.

Lemma tables_eta db :
  PlaylistFollowers.Tables (PlaylistFollowers.user_playlists db)
    (PlaylistFollowers.playlist_followers db) = db.
Proof. destruct db; reflexivity. Qed.

(** The outcome of a run whose token and connection are there. *)
Lemma run_playlist_spec w user_id day_override db bearer :
  PlaylistFollowers.get_spotify_token (PlaylistFollowers.p_token w) = Ok bearer ->
  PlaylistFollowers.p_connect w = Ok tt ->
  let day_iso := PlaylistFollowers.playlist_day (PlaylistFollowers.p_today w) day_override in
  let fr :=
    PlaylistFollowers.follower_rows w user_id day_iso
      (PlaylistFollowers.playlists_of user_id db) in
  let o := PlaylistFollowers.run_playlist_followers_collection w user_id day_override db in
  PlaylistFollowers.p_processed o = List.length (fst (fst fr))
  /\ PlaylistFollowers.p_errors o = snd (fst fr)
  /\ match snd fr, PlaylistFollowers.p_commit w with
     | None, Ok _ =>
         PlaylistFollowers.p_status o = Ok tt
         /\ PlaylistFollowers.p_db o = PlaylistFollowers.with_followers db (fst (fst fr))
     | None, Raise e =>
         PlaylistFollowers.p_status o = Raise e /\ PlaylistFollowers.p_db o = db
     | Some e, _ => PlaylistFollowers.p_status o = Raise e /\ PlaylistFollowers.p_db o = db
     end.
Proof.
  intros Htok Hconn day_iso fr o. subst o fr.
  unfold PlaylistFollowers.run_playlist_followers_collection. rewrite Htok, Hconn.
  fold day_iso. fold (PlaylistFollowers.playlists_of user_id db).
  destruct (playlist_loop_spec w user_id day_iso
              (PlaylistFollowers.playlists_of user_id db)
              (PlaylistFollowers.PlaylistState (PlaylistFollowers.session_open db) 0 0))
    as [Hf [H1 H2 H3 H4 H5]].
  destruct (PlaylistFollowers.playlist_loop w user_id day_iso
              (PlaylistFollowers.playlists_of user_id db)
              (PlaylistFollowers.PlaylistState (PlaylistFollowers.session_open db) 0 0))
    as [st failure].
  cbn [fst snd PlaylistFollowers.pl_conn PlaylistFollowers.pl_processed
       PlaylistFollowers.pl_errors PlaylistFollowers.session_open
       PlaylistFollowers.durable PlaylistFollowers.pending] in *.
  rewrite <- Hf.
  destruct failure as [e|].
  - cbn. repeat split; assumption.
  - destruct (PlaylistFollowers.p_commit w) as [[]|e].
    + cbn. repeat split; try assumption.
      unfold PlaylistFollowers.with_followers. rewrite <- H2, <- H3.
      symmetry. apply tables_eta.
    + cbn. repeat split; assumption.
Qed.

(** * Writing the same rows again, and the rows a run leaves alone *)

Section UpsertAgain.

Variables (row K : Type).
Variable key : row -> K.
Variable same_key : row -> row -> bool.
Variable merge : row -> row -> row.

Hypothesis same_key_spec : forall a b, same_key a b = true <-> key a = key b.
Hypothesis merge_key : forall new old, key (merge new old) = key old.
Hypothesis merge_last : forall w w' r, merge w (merge w' r) = merge w r.
Hypothesis merge_self : forall w, merge w w = w.

Let up := upsert same_key merge.

(** A row of the table holds what the last write under its key gave it. *)
Lemma upsert_all_settled ws : forall t0 r w,
  In r (upsert_all up ws t0) -> last_write same_key ws r = Some w -> merge w r = r.
Proof.
  induction ws as [|w0 ws IH] using rev_ind; intros t0 r w Hin Hlast; [discriminate|].
  rewrite upsert_all_snoc in Hin.
  unfold last_write in Hlast. rewrite fold_left_app in Hlast. cbn [fold_left] in Hlast.
  fold (last_write same_key ws r) in Hlast.
  unfold up at 1, upsert in Hin.
  destruct (existsb (same_key w0) (upsert_all up ws t0)) eqn:E.
  - apply in_map_iff in Hin. destruct Hin as (r0 & Hr & Hin0).
    destruct (same_key w0 r0) eqn:E0.
    + subst r. assert (Hs : same_key w0 (merge w0 r0) = true).
      { apply same_key_spec. rewrite merge_key. apply same_key_spec. exact E0. }
      rewrite Hs in Hlast. injection Hlast as <-. apply merge_last.
    + subst r0. rewrite E0 in Hlast. apply (IH t0 r w Hin0 Hlast).
  - apply in_app_or in Hin. destruct Hin as [Hin0|[<-|[]]].
    + assert (E0 : same_key w0 r = false).
      { destruct (same_key w0 r) eqn:E0; [|reflexivity].
        assert (existsb (same_key w0) (upsert_all up ws t0) = true)
          by (apply existsb_exists; eauto).
        congruence. }
      rewrite E0 in Hlast. apply (IH t0 r w Hin0 Hlast).
    + assert (Hs : same_key w0 w0 = true) by (apply same_key_spec; reflexivity).
      rewrite Hs in Hlast. injection Hlast as <-. apply merge_self.
Qed.

Lemma upsert_all_again ws t0 :
  upsert_all up ws (upsert_all up ws t0) = upsert_all up ws t0.
Proof.
  unfold up at 1.
  rewrite (upsert_all_existing row K key same_key merge same_key_spec merge_key).
  - rewrite <- (map_id (upsert_all up ws t0)) at 2.
    apply map_ext_in. intros r Hr.
    rewrite (absorb_last row K key same_key merge same_key_spec merge_key merge_last).
    destruct (last_write same_key ws r) as [w|] eqn:E; [|reflexivity].
    apply (upsert_all_settled ws t0 r w Hr E).
  - intros w Hw.
    apply (upsert_all_has_keys row K key same_key merge same_key_spec merge_key). exact Hw.
Qed.

(** A row no write shares its key with stays in the table as it is. *)
Lemma upsert_all_untouched ws : forall t0 r,
  In r t0 -> (forall w, In w ws -> same_key w r = false) -> In r (upsert_all up ws t0).
Proof.
  induction ws as [|w0 ws IH]; intros t0 r Hin Hno; [exact Hin|].
  rewrite (upsert_all_cons row same_key merge). apply IH.
  - unfold up, upsert. destruct (existsb (same_key w0) t0).
    + apply in_map_iff. exists r. rewrite (Hno w0) by (left; reflexivity). auto.
    + apply in_or_app. left. exact Hin.
  - intros w Hw. apply Hno. right. exact Hw.
Qed.

(** No write removes a row, and each adds one at most. *)
Lemma upsert_all_length ws : forall t0,
  List.length t0 <= List.length (upsert_all up ws t0) <= List.length t0 + List.length ws.
Proof.
  induction ws as [|w0 ws IH]; intros t0; [cbn; lia|].
  rewrite (upsert_all_cons row same_key merge). specialize (IH (up w0 t0)).
  assert (H : List.length t0 <= List.length (up w0 t0) <= List.length t0 + 1).
  { unfold up, upsert. destruct (existsb (same_key w0) t0).
    - rewrite length_map. lia.
    - rewrite length_app. cbn. lia. }
  fold up. cbn [List.length]. lia.
Qed.

(** Every row of the table after the writes was there before or has the
    key of a write. *)
Lemma upsert_all_origin ws : forall t0 r,
  In r (upsert_all up ws t0) ->
  In (key r) (map key t0) \/ exists w, In w ws /\ key r = key w.
Proof.
  induction ws as [|w0 ws IH]; intros t0 r Hin; [left; apply in_map; exact Hin|].
  rewrite (upsert_all_cons row same_key merge) in Hin.
  destruct (IH _ _ Hin) as [Hk|(w & Hw & Hk)].
  - unfold up, upsert in Hk. destruct (existsb (same_key w0) t0).
    + left. rewrite map_map in Hk. apply in_map_iff in Hk.
      destruct Hk as (r0 & Hk & Hr0). apply in_map_iff. exists r0. split; [|exact Hr0].
      rewrite <- Hk. destruct (same_key w0 r0); [rewrite merge_key|]; reflexivity.
    + rewrite map_app in Hk. apply in_app_or in Hk. destruct Hk as [Hk|[Hk|[]]].
      * left. exact Hk.
      * right. exists w0. split; [left; reflexivity|]. symmetry. exact Hk.
  - right. exists w. split; [right; exact Hw|exact Hk].
Qed.

End UpsertAgain.

Lemma merge_follower_self w : PlaylistFollowers.merge_follower w w = w.
Proof. destruct w; reflexivity. Qed.

Lemma strip_uri_total s : exists t, PlaylistFollowers.strip_uri s = Ok t.
Proof.
  unfold PlaylistFollowers.strip_uri.
  destruct (startswith s "spotify:playlist:"); [|eauto].
  destruct (py_last_split ":"%char s) as (pre & t & H & _). eauto.
Qed.

Lemma follower_row_of_fields net accepts user_id day_iso p r :
  PlaylistFollowers.follower_row_of net accepts user_id day_iso p = Ok (Some r) ->
  PlaylistFollowers.f_platform r = "spotify"
  /\ PlaylistFollowers.snapshot_date r = day_iso
  /\ PlaylistFollowers.f_user_id r = user_id
  /\ PlaylistFollowers.f_playlist_uid r = PlaylistFollowers.playlist_uid p
  /\ PlaylistFollowers.followers r <> JNull.
Proof.
  unfold PlaylistFollowers.follower_row_of.
  destruct (PlaylistFollowers.playlist_id p) as [raw|]; [|discriminate].
  destruct (PlaylistFollowers.strip_uri raw) as [t|e]; cbn [bind]; [|discriminate].
  destruct (PlaylistFollowers.get_playlist_followers net t) as [|b|z|s|l|kvs];
    try discriminate;
    match goal with
    | |- context [PlaylistFollowers.adaptable ?v] =>
        destruct (PlaylistFollowers.adaptable v); [|discriminate]
    end;
    match goal with
    | |- context [accepts ?x] => destruct (accepts x) as [[]|e]; cbn [bind]; [|discriminate]
    end;
    intros H; injection H as <-; cbn; repeat split; discriminate.
Qed.

(** The loop body gets past a playlist exactly when the playlist passes. *)
Lemma follower_row_of_passes w user_id day_iso n p :
  (exists r,
      PlaylistFollowers.follower_row_of (PlaylistFollowers.p_io w n)
        (PlaylistFollowers.p_execute w n) user_id day_iso p = Ok r)
  <-> PlaylistFollowers.playlist_passes w user_id day_iso (n, p).
Proof.
  unfold PlaylistFollowers.follower_row_of, PlaylistFollowers.playlist_passes. cbn [fst snd].
  destruct (PlaylistFollowers.playlist_id p) as [raw|].
  - destruct (strip_uri_total raw) as (pid & Hpid). rewrite Hpid. cbn [bind].
    set (found := PlaylistFollowers.get_playlist_followers (PlaylistFollowers.p_io w n) pid).
    split.
    + intros (r & Hr). exists raw, pid. split; [reflexivity|]. split; [exact Hpid|].
      cbv zeta. fold found.
      destruct found as [|b|z|s|l|kvs]; [left; reflexivity|right..];
        match type of Hr with
        | context [PlaylistFollowers.adaptable ?v] =>
            destruct (PlaylistFollowers.adaptable v); [|discriminate]
        end;
        (split; [reflexivity|]);
        match type of Hr with
        | context [PlaylistFollowers.p_execute w n ?x] =>
            destruct (PlaylistFollowers.p_execute w n x) as [[]|e]; [reflexivity|discriminate]
        end.
    + intros (raw' & pid' & Hraw & Hpid' & Hfound). injection Hraw as <-.
      rewrite Hpid in Hpid'. injection Hpid' as <-. cbv zeta in Hfound. fold found in Hfound.
      destruct Hfound as [->|[Ha He]]; [eauto|].
      destruct found as [|b|z|s|l|kvs]; [eauto|..]; rewrite Ha, He; cbn [bind]; eauto.
  - split; [intros (r & Hr); discriminate|].
    intros (raw & pid & Hraw & _). discriminate.
Qed.

Lemma follower_rows_failure w user_id day_iso : forall playlists,
  snd (PlaylistFollowers.follower_rows w user_id day_iso playlists) = None <->
  forall np, In np playlists -> PlaylistFollowers.playlist_passes w user_id day_iso np.
Proof.
  induction playlists as [|[n p] rest IH].
  - cbn. split; [intros _ np []|reflexivity].
  - rewrite follower_rows_cons. cbv zeta.
    pose proof (follower_row_of_passes w user_id day_iso n p) as Hp.
    destruct (PlaylistFollowers.follower_row_of (PlaylistFollowers.p_io w n)
                (PlaylistFollowers.p_execute w n) user_id day_iso p) as [r|e].
    + assert (Hiff : snd (PlaylistFollowers.follower_rows w user_id day_iso rest) = None <->
                     forall np, In np ((n, p) :: rest) ->
                                PlaylistFollowers.playlist_passes w user_id day_iso np).
      { rewrite IH. split.
        - intros H np [<-|Hin]; [apply Hp; eauto|apply H; exact Hin].
        - intros H np Hin. apply H. right. exact Hin. }
      destruct r as [row|]; cbn [fst snd]; exact Hiff.
    + cbn [snd]. split; [discriminate|]. intros H. exfalso.
      assert (Hpass : PlaylistFollowers.playlist_passes w user_id day_iso (n, p))
        by (apply H; left; reflexivity).
      apply Hp in Hpass. destruct Hpass as (r & Hr). discriminate.
Qed.

Lemma follower_rows_in io user_id day_iso : forall playlists r,
  In r (fst (fst (PlaylistFollowers.follower_rows io user_id day_iso playlists))) ->
  PlaylistFollowers.f_platform r = "spotify"
  /\ PlaylistFollowers.snapshot_date r = day_iso
  /\ PlaylistFollowers.f_user_id r = user_id
  /\ PlaylistFollowers.followers r <> JNull
  /\ In (PlaylistFollowers.f_playlist_uid r)
       (map (fun np => PlaylistFollowers.playlist_uid (snd np)) playlists).
Proof.
  induction playlists as [|[n p] rest IH]; intros r Hin; [destruct Hin|].
  rewrite follower_rows_cons in Hin. cbv zeta in Hin.
  destruct (PlaylistFollowers.follower_row_of (PlaylistFollowers.p_io io n)
              (PlaylistFollowers.p_execute io n) user_id day_iso p) as [[row|]|e] eqn:E;
    cbn [fst snd] in Hin.
  - destruct Hin as [<-|Hin].
    + destruct (follower_row_of_fields _ _ _ _ _ _ E) as (H1 & H2 & H3 & H4 & H5).
      repeat split; try assumption. left. symmetry. exact H4.
    + destruct (IH r Hin) as (H1 & H2 & H3 & H4 & H5).
      repeat split; try assumption. right. exact H5.
  - destruct (IH r Hin) as (H1 & H2 & H3 & H4 & H5).
    repeat split; try assumption. right. exact H5.
  - destruct Hin.
Qed.

Lemma run_playlist_setup w user_id day_override db :
  PlaylistFollowers.p_status
    (PlaylistFollowers.run_playlist_followers_collection w user_id day_override db) = Ok tt ->
  (exists bearer,
      PlaylistFollowers.get_spotify_token (PlaylistFollowers.p_token w) = Ok bearer)
  /\ PlaylistFollowers.p_connect w = Ok tt.
Proof.
  unfold PlaylistFollowers.run_playlist_followers_collection.
  destruct (PlaylistFollowers.get_spotify_token (PlaylistFollowers.p_token w)) as [bearer|e];
    [|discriminate].
  destruct (PlaylistFollowers.p_connect w) as [[]|e]; [|discriminate].
  intros _. eauto.
Qed.

Lemma run_playlist_cases w user_id day_override db :
  let day_iso := PlaylistFollowers.playlist_day (PlaylistFollowers.p_today w) day_override in
  let fr :=
    PlaylistFollowers.follower_rows w user_id day_iso
      (PlaylistFollowers.playlists_of user_id db) in
  let o := PlaylistFollowers.run_playlist_followers_collection w user_id day_override db in
  (PlaylistFollowers.p_status o = Ok tt
   /\ PlaylistFollowers.p_db o = PlaylistFollowers.with_followers db (fst (fst fr))
   /\ PlaylistFollowers.p_processed o = List.length (fst (fst fr))
   /\ PlaylistFollowers.p_errors o = snd (fst fr)
   /\ snd fr = None
   /\ PlaylistFollowers.p_commit w = Ok tt
   /\ (exists bearer,
         PlaylistFollowers.get_spotify_token (PlaylistFollowers.p_token w) = Ok bearer)
   /\ PlaylistFollowers.p_connect w = Ok tt)
  \/ (exists e,
        PlaylistFollowers.p_status o = Raise e /\ PlaylistFollowers.p_db o = db
        /\ PlaylistFollowers.p_processed o <= List.length (fst (fst fr))
        /\ PlaylistFollowers.p_errors o <= snd (fst fr)
        /\ (PlaylistFollowers.get_spotify_token (PlaylistFollowers.p_token w) = Raise e
            \/ PlaylistFollowers.p_connect w = Raise e
            \/ snd fr = Some e
            \/ PlaylistFollowers.p_commit w = Raise e)).
Proof.
  intros day_iso fr o.
  destruct (PlaylistFollowers.get_spotify_token (PlaylistFollowers.p_token w))
    as [bearer|e] eqn:Et.
  - destruct (PlaylistFollowers.p_connect w) as [[]|e] eqn:Ec.
    + destruct (run_playlist_spec w user_id day_override db bearer Et Ec)
        as (Hp & He & Hs).
      fold day_iso in Hp, He, Hs. fold fr in Hp, He, Hs. fold o in Hp, He, Hs.
      destruct (snd fr) as [e|] eqn:Ef.
      * right. exists e. destruct Hs as [Hs Hdb]. rewrite Hp, He. repeat split; auto.
      * destruct (PlaylistFollowers.p_commit w) as [[]|e] eqn:Ecm.
        -- left. destruct Hs as [Hs Hdb]. repeat split; eauto.
        -- right. exists e. destruct Hs as [Hs Hdb]. rewrite Hp, He. repeat split; auto.
    + right. exists e. subst o.
      unfold PlaylistFollowers.run_playlist_followers_collection. rewrite Et, Ec.
      cbn. repeat split; auto; lia.
  - right. exists e. subst o.
    unfold PlaylistFollowers.run_playlist_followers_collection. rewrite Et.
    cbn. repeat split; auto; lia.
Qed.

(** X7.  The playlist run counts every playlist it gets to exactly once: as
    processed when a follower count came back, which is when it writes the
    row, and as an error otherwise.  A run that ends normally has gone
    through all the user's playlists on the platform, so the two counts add
    up to their number, and its table is the old one with the rows it
    counted written to it. *)
Theorem playlist_run_accounting : forall w user_id day_override db,
  let day_iso := PlaylistFollowers.playlist_day (PlaylistFollowers.p_today w) day_override in
  let rows :=
    fst (fst (PlaylistFollowers.follower_rows w user_id day_iso
                (PlaylistFollowers.playlists_of user_id db))) in
  let o := PlaylistFollowers.run_playlist_followers_collection w user_id day_override db in
  PlaylistFollowers.p_processed o + PlaylistFollowers.p_errors o
  <= List.length (PlaylistFollowers.playlists_of user_id db)
  /\ (PlaylistFollowers.p_status o = Ok tt ->
      PlaylistFollowers.p_processed o + PlaylistFollowers.p_errors o
      = List.length (PlaylistFollowers.playlists_of user_id db)
      /\ PlaylistFollowers.p_processed o = List.length rows
      /\ PlaylistFollowers.p_db o = PlaylistFollowers.with_followers db rows).
Proof.
  intros w user_id day_override db day_iso rows o.
  destruct (follower_rows_count w user_id day_iso
              (PlaylistFollowers.playlists_of user_id db)) as [Hle Heq].
  destruct (run_playlist_cases w user_id day_override db)
    as [(Hs & Hdb & Hp & He & Hf & _)|(e & Hs & Hdb & Hp & He & _)];
    fold day_iso in Hp, He, Hdb; fold o in Hs, Hdb, Hp, He.
  - fold day_iso in Hf. specialize (Heq Hf). split; [lia|]. intros _.
    split; [lia|]. split; [exact Hp|exact Hdb].
  - split; [lia|]. rewrite Hs. discriminate.
Qed.


(** X8.  The playlist run ends normally exactly when the token request, the
    connection and the commit succeed and the loop gets past every playlist
    of the user: the playlist has an identifier, and the follower count, if
    one came back, can be bound to the INSERT and is accepted by the
    database.  A request for a playlist that fails never stops the run; a
    count that is an object does, for psycopg2 cannot adapt a dict.  When
    the run raises, at whatever point, the tables are as they were before
    it; and it never changes the list of playlists. *)
Theorem playlist_run_failure : forall w user_id day_override db,
  let day_iso := PlaylistFollowers.playlist_day (PlaylistFollowers.p_today w) day_override in
  let o := PlaylistFollowers.run_playlist_followers_collection w user_id day_override db in
  (PlaylistFollowers.p_status o = Ok tt <->
   (exists bearer,
       PlaylistFollowers.get_spotify_token (PlaylistFollowers.p_token w) = Ok bearer)
   /\ PlaylistFollowers.p_connect w = Ok tt
   /\ (forall np, In np (PlaylistFollowers.playlists_of user_id db) ->
         PlaylistFollowers.playlist_passes w user_id day_iso np)
   /\ PlaylistFollowers.p_commit w = Ok tt)
  /\ (forall n p raw pid,
        PlaylistFollowers.playlist_id p = Some raw ->
        PlaylistFollowers.strip_uri raw = Ok pid ->
        PlaylistFollowers.get_playlist_followers (PlaylistFollowers.p_io w n) pid = JNull ->
        PlaylistFollowers.playlist_passes w user_id day_iso (n, p))
  /\ (forall n p raw pid kvs,
        PlaylistFollowers.playlist_id p = Some raw ->
        PlaylistFollowers.strip_uri raw = Ok pid ->
        PlaylistFollowers.get_playlist_followers (PlaylistFollowers.p_io w n) pid
        = JDict kvs ->
        In (n, p) (PlaylistFollowers.playlists_of user_id db) ->
        exists e, PlaylistFollowers.p_status o = Raise e)
  /\ (forall e, PlaylistFollowers.p_status o = Raise e -> PlaylistFollowers.p_db o = db)
  /\ PlaylistFollowers.user_playlists (PlaylistFollowers.p_db o)
     = PlaylistFollowers.user_playlists db.
Proof.
  intros w user_id day_override db day_iso o.
  pose proof (follower_rows_failure w user_id day_iso
                (PlaylistFollowers.playlists_of user_id db)) as Hnone.
  assert (Hiff : PlaylistFollowers.p_status o = Ok tt <->
            (exists bearer,
                PlaylistFollowers.get_spotify_token (PlaylistFollowers.p_token w) = Ok bearer)
            /\ PlaylistFollowers.p_connect w = Ok tt
            /\ (forall np, In np (PlaylistFollowers.playlists_of user_id db) ->
                  PlaylistFollowers.playlist_passes w user_id day_iso np)
            /\ PlaylistFollowers.p_commit w = Ok tt).
  { destruct (run_playlist_cases w user_id day_override db)
      as [(Hs & Hdb & _ & _ & Hf & Hcm & Htok & Hconn)|(e & Hs & Hdb & _ & _ & Hwhy)];
      fold day_iso in Hdb; fold o in Hs, Hdb.
    - fold day_iso in Hf. split; [|intros _; exact Hs]. intros _.
      pose proof (proj1 Hnone Hf). auto.
    - fold day_iso in Hwhy. rewrite Hs. split; [discriminate|].
      intros ((bearer & Htok) & Hconn & Hids & Hcm).
      destruct Hwhy as [H|[H|[H|H]]]; try congruence.
      pose proof (proj2 Hnone Hids). congruence. }
  split; [exact Hiff|]. split; [|split; [|split]].
  - intros n p raw pid Hraw Hpid Hfound. exists raw, pid. cbn [fst snd].
    split; [exact Hraw|]. split; [exact Hpid|]. left. exact Hfound.
  - intros n p raw pid kvs Hraw Hpid Hfound Hin.
    destruct (PlaylistFollowers.p_status o) as [[]|e] eqn:Es; [|eauto]. exfalso.
    destruct (proj1 Hiff eq_refl) as (_ & _ & Hpass & _).
    destruct (Hpass (n, p) Hin) as (raw' & pid' & Hraw' & Hpid' & Hf). cbn [fst snd] in *.
    rewrite Hraw in Hraw'. injection Hraw' as <-. rewrite Hpid in Hpid'.
    injection Hpid' as <-. rewrite Hfound in Hf.
    destruct Hf as [Hf|[Hf _]]; discriminate.
  - destruct (run_playlist_cases w user_id day_override db)
      as [(Hs & Hdb & _)|(e & Hs & Hdb & _)]; fold o in Hs, Hdb.
    + intros e He. rewrite Hs in He. discriminate.
    + intros _ _. exact Hdb.
  - destruct (run_playlist_cases w user_id day_override db)
      as [(Hs & Hdb & _)|(e & Hs & Hdb & _)]; fold o in Hdb; rewrite Hdb; reflexivity.
Qed.


Lemma follower_key_scope user_id day_iso db io r w :
  In w (fst (fst (PlaylistFollowers.follower_rows io user_id day_iso
                    (PlaylistFollowers.playlists_of user_id db)))) ->
  PlaylistFollowers.follower_key r = PlaylistFollowers.follower_key w ->
  follower_in_scope user_id day_iso db r.
Proof.
  intros Hw Hk. destruct (follower_rows_in _ _ _ _ _ Hw) as (H1 & H2 & _ & _ & H5).
  unfold PlaylistFollowers.follower_key in Hk. injection Hk as E1 E2 E3.
  unfold follower_in_scope. rewrite E1, E2, E3. repeat split; assumption.
Qed.

(** X9.  Running the playlist collection again for the same user and day
    with the same answers changes nothing: the second run ends normally
    with the same counts and leaves the table exactly as the first run left
    it, with no duplicate key when there was none, and one row for every key
    the run writes. *)
Theorem playlist_rerun_idempotent : forall w user_id day_override db,
  let day_iso := PlaylistFollowers.playlist_day (PlaylistFollowers.p_today w) day_override in
  let rows :=
    fst (fst (PlaylistFollowers.follower_rows w user_id day_iso
                (PlaylistFollowers.playlists_of user_id db))) in
  let o1 := PlaylistFollowers.run_playlist_followers_collection w user_id day_override db in
  let o2 :=
    PlaylistFollowers.run_playlist_followers_collection w user_id day_override
      (PlaylistFollowers.p_db o1) in
  PlaylistFollowers.p_status o1 = Ok tt ->
  PlaylistFollowers.p_status o2 = Ok tt
  /\ PlaylistFollowers.p_db o2 = PlaylistFollowers.p_db o1
  /\ PlaylistFollowers.p_processed o2 = PlaylistFollowers.p_processed o1
  /\ PlaylistFollowers.p_errors o2 = PlaylistFollowers.p_errors o1
  /\ (NoDup (map PlaylistFollowers.follower_key (PlaylistFollowers.playlist_followers db)) ->
      NoDup (map PlaylistFollowers.follower_key
               (PlaylistFollowers.playlist_followers (PlaylistFollowers.p_db o2))))
  /\ forall r, In r rows ->
       In (PlaylistFollowers.follower_key r)
          (map PlaylistFollowers.follower_key
             (PlaylistFollowers.playlist_followers (PlaylistFollowers.p_db o2)))
       /\ (NoDup (map PlaylistFollowers.follower_key
                    (PlaylistFollowers.playlist_followers db)) ->
           List.length
             (filter (PlaylistFollowers.same_follower_key r)
                (PlaylistFollowers.playlist_followers (PlaylistFollowers.p_db o2))) = 1).
Proof.
  intros w user_id day_override db day_iso rows o1 o2 Hok.
  destruct (run_playlist_cases w user_id day_override db)
    as [(_ & Hdb1 & Hp1 & He1 & Hf1 & Hcm & (bearer & Htok) & Hconn)|(e & Hs & _)];
    [|fold o1 in Hs; congruence].
  fold day_iso in Hdb1, Hp1, He1, Hf1. fold rows in Hdb1, Hp1. fold o1 in Hdb1, Hp1, He1.
  assert (Hsame : PlaylistFollowers.playlists_of user_id (PlaylistFollowers.p_db o1)
                  = PlaylistFollowers.playlists_of user_id db)
    by (rewrite Hdb1; reflexivity).
  destruct (run_playlist_cases w user_id day_override (PlaylistFollowers.p_db o1))
    as [(Hs2 & Hdb2 & Hp2 & He2 & _)|(e & _ & _ & _ & _ & Hwhy)].
  - fold day_iso in Hdb2, Hp2, He2. fold o2 in Hs2, Hdb2, Hp2, He2.
    rewrite Hsame in Hdb2, Hp2, He2. fold rows in Hdb2, Hp2.
    assert (Hdb : PlaylistFollowers.p_db o2 = PlaylistFollowers.p_db o1).
    { rewrite Hdb2. rewrite Hdb1 at 2. rewrite Hdb1 at 1.
      unfold PlaylistFollowers.with_followers.
      cbn [PlaylistFollowers.user_playlists PlaylistFollowers.playlist_followers].
      f_equal.
      apply (upsert_all_again _ _ PlaylistFollowers.follower_key
               PlaylistFollowers.same_follower_key PlaylistFollowers.merge_follower
               same_follower_key_spec merge_follower_key merge_follower_last
               merge_follower_self). }
    split; [exact Hs2|]. split; [exact Hdb|]. split; [congruence|]. split; [congruence|].
    rewrite Hdb, Hdb1. unfold PlaylistFollowers.with_followers.
    cbn [PlaylistFollowers.playlist_followers].
    assert (Hnd : NoDup (map PlaylistFollowers.follower_key
                           (PlaylistFollowers.playlist_followers db)) ->
                  NoDup (map PlaylistFollowers.follower_key
                           (upsert_all PlaylistFollowers.upsert_follower rows
                              (PlaylistFollowers.playlist_followers db)))).
    { apply (upsert_all_nodup _ _ PlaylistFollowers.follower_key
               PlaylistFollowers.same_follower_key PlaylistFollowers.merge_follower
               same_follower_key_spec merge_follower_key). }
    split; [exact Hnd|]. intros r Hr.
    assert (Hin : In (PlaylistFollowers.follower_key r)
                    (map PlaylistFollowers.follower_key
                       (upsert_all PlaylistFollowers.upsert_follower rows
                          (PlaylistFollowers.playlist_followers db)))).
    { apply (upsert_all_has_keys _ _ PlaylistFollowers.follower_key
               PlaylistFollowers.same_follower_key PlaylistFollowers.merge_follower
               same_follower_key_spec merge_follower_key). exact Hr. }
    split; [exact Hin|]. intros Hno.
    apply (unique_row _ _ PlaylistFollowers.follower_key PlaylistFollowers.same_follower_key
             same_follower_key_spec); [apply Hnd; exact Hno|exact Hin].
  - fold day_iso in Hwhy. rewrite Hsame in Hwhy.
    destruct Hwhy as [H|[H|[H|H]]]; congruence.
Qed.


(** X10.  Whatever its outcome, the playlist run removes no row of
    [playlist_followers] and adds at most one for each of the user's
    playlists.  It writes only under the platform [spotify], the day of the
    run and the uid of one of the user's playlists on the platform: a row
    under any other key is still there unchanged, and a key that is new is
    one of these. *)
Theorem playlist_run_frame : forall w user_id day_override db,
  let day_iso := PlaylistFollowers.playlist_day (PlaylistFollowers.p_today w) day_override in
  let o := PlaylistFollowers.run_playlist_followers_collection w user_id day_override db in
  let old := PlaylistFollowers.playlist_followers db in
  let new := PlaylistFollowers.playlist_followers (PlaylistFollowers.p_db o) in
  List.length old <= List.length new
  /\ List.length new
     <= List.length old + List.length (PlaylistFollowers.playlists_of user_id db)
  /\ (forall r, In r old -> ~ follower_in_scope user_id day_iso db r -> In r new)
  /\ (forall r, In r new ->
        In (PlaylistFollowers.follower_key r) (map PlaylistFollowers.follower_key old)
        \/ follower_in_scope user_id day_iso db r).
Proof.
  intros w user_id day_override db day_iso o old new.
  destruct (run_playlist_cases w user_id day_override db)
    as [(_ & Hdb & _)|(e & _ & Hdb & _)]; fold o in Hdb; subst new; rewrite Hdb.
  - fold day_iso. unfold PlaylistFollowers.with_followers.
    cbn [PlaylistFollowers.playlist_followers]. fold old.
    set (rows := fst (fst (PlaylistFollowers.follower_rows w
                             user_id day_iso (PlaylistFollowers.playlists_of user_id db)))).
    pose proof (upsert_all_length _ PlaylistFollowers.same_follower_key
                  PlaylistFollowers.merge_follower rows old) as Hlen.
    change (upsert PlaylistFollowers.same_follower_key PlaylistFollowers.merge_follower)
      with PlaylistFollowers.upsert_follower in Hlen.
    destruct (follower_rows_count w user_id day_iso
                (PlaylistFollowers.playlists_of user_id db)) as [Hle _].
    fold rows in Hle.
    split; [lia|]. split; [lia|]. split.
    + intros r Hr Hout.
      apply (upsert_all_untouched _ PlaylistFollowers.same_follower_key
               PlaylistFollowers.merge_follower); [exact Hr|].
      intros x Hx. destruct (PlaylistFollowers.same_follower_key x r) eqn:E; [|reflexivity].
      exfalso. apply Hout. apply same_follower_key_spec in E.
      apply (follower_key_scope user_id day_iso db w r x Hx).
      symmetry. exact E.
    + intros r Hr.
      destruct (upsert_all_origin _ _ PlaylistFollowers.follower_key
                  PlaylistFollowers.same_follower_key PlaylistFollowers.merge_follower
                  merge_follower_key rows old r Hr) as [H|(x & Hx & Hk)]; [left; exact H|].
      right. apply (follower_key_scope user_id day_iso db w r x Hx Hk).
  - fold old. split; [lia|]. split; [lia|]. split; [intros r Hr _; exact Hr|].
    intros r Hr. left. apply in_map. exact Hr.
Qed.


(** * The HTTP endpoints *)

Lemma nonempty_some s : nonempty (Some s) = true <-> s <> "".
Proof.
  cbn [nonempty]. destruct s; cbn; split; congruence.
Qed.

(** X11.  Without a configured token, or with an empty one, every request
    passes [check_token].  With a token configured a request passes exactly
    when its [x-automation-token] header is the token, or the header is
    absent or empty and its [token] query parameter is the token: a
    non-empty header that is wrong is not made up for by the query
    parameter. *)
Theorem check_token_policy : forall AUTOMATION_TOKEN req,
  (nonempty AUTOMATION_TOKEN = false -> check_token AUTOMATION_TOKEN req = true)
  /\ (forall configured,
        AUTOMATION_TOKEN = Some configured -> configured <> "" ->
        (check_token AUTOMATION_TOKEN req = true <->
         header_token req = Some configured
         \/ (nonempty (header_token req) = false /\ query_token req = Some configured))).
Proof.
  intros tok req. split.
  - intros H. unfold check_token. rewrite H. reflexivity.
  - intros configured -> Hne. unfold check_token.
    apply nonempty_some in Hne. rewrite Hne. cbn [negb].
    destruct (header_token req) as [h|] eqn:Eh.
    + destruct (nonempty (Some h)) eqn:En.
      * rewrite String.eqb_eq. split.
        -- intros ->. left. reflexivity.
        -- intros [H|[H _]]; [injection H as ->; reflexivity|discriminate].
      * destruct (query_token req) as [q|].
        -- rewrite String.eqb_eq. split.
           ++ intros ->. right. auto.
           ++ intros [H|[_ H]]; [|injection H as ->; reflexivity].
              injection H as ->. congruence.
        -- split; [discriminate|]. intros [H|[_ H]]; [|discriminate].
           injection H as ->. congruence.
    + cbn [nonempty]. destruct (query_token req) as [q|].
      * rewrite String.eqb_eq. split.
        -- intros ->. right. auto.
        -- intros [H|[_ H]]; [discriminate|injection H as ->; reflexivity].
      * split; [discriminate|]. intros [H|[_ H]]; discriminate.
Qed.


Lemma dispatch_state tok ep req service s : state (dispatch tok ep req service s) = s.
Proof.
  destruct ep; cbn [dispatch];
    unfold run_manual, run_streams_only, run_followers_only, run_health_only;
    destruct (check_token tok req); cbn [negb]; try reflexivity;
    destruct (request_data req) as [data|e]; cbn [bind]; try reflexivity;
    destruct (py_get data "user_id" JNull) as [user_id|e]; cbn [bind]; try reflexivity;
    try (destruct (py_get data "date" JNull) as [date|e]; cbn [bind]; try reflexivity);
    destruct (truthy user_id); cbn [negb]; try reflexivity;
    try (destruct (py_get data "date" JNull) as [date|e]; try reflexivity);
    try (destruct service; reflexivity).
  destruct (running_task s) as [t|]; [destruct (done t)|]; reflexivity.
Qed.

Lemma dispatch_unauthorized tok ep req service s :
  check_token tok req = false ->
  answer (dispatch tok ep req service s) = Ok unauthorized
  /\ calls (dispatch tok ep req service s) = [].
Proof.
  intros H. destruct ep; cbn [dispatch];
    unfold run_manual, run_streams_only, run_followers_only, run_health_only;
    rewrite H; split; reflexivity.
Qed.

Lemma dispatch_calls tok ep req service s :
  calls (dispatch tok ep req service s) <> [] ->
  check_token tok req = true
  /\ exists data user_id,
       request_data req = Ok data /\ py_get data "user_id" JNull = Ok user_id
       /\ truthy user_id = true.
Proof.
  destruct ep; cbn [dispatch]; handler_cases tok req service s; cbn [calls];
    intros H; try (exfalso; apply H; reflexivity);
    (split; [reflexivity|]); exists data, user_id; auto.
Qed.

Lemma dispatch_idle tok ep req service s :
  running_task s = None -> status_of (dispatch tok ep req service s) <> Some 429%Z.
Proof.
  intros Hidle. destruct ep; cbn [dispatch]; handler_cases tok req service s;
    cbn [status_of answer unauthorized user_id_required completed]; try discriminate.
Qed.

Lemma serve_idle tok : forall reqs s h,
  running_task s = None -> In h (serve tok reqs s) ->
  state h = s /\ status_of h <> Some 429%Z.
Proof.
  induction reqs as [|[[ep req] service] rest IH]; intros s h Hs Hin; [destruct Hin|].
  cbn [serve] in Hin. destruct Hin as [<-|Hin].
  - split; [apply dispatch_state|apply dispatch_idle; exact Hs].
  - rewrite dispatch_state in Hin. apply IH; assumption.
Qed.

Lemma py_get_dict data k default v k' default' :
  py_get data k default = Ok v -> exists v', py_get data k' default' = Ok v'.
Proof.
  destruct data as [|b|z|s|l|kvs]; try discriminate. intros _.
  cbn [py_get]. destruct (assoc k' kvs); eauto.
Qed.

(** X12.  The four POST endpoints open with the same two checks, in this
    order: a request that does not pass [check_token] is answered 403 and
    starts nothing, whatever its body; work is started only for a request
    that passed the check and whose body carries a truthy [user_id].  No
    handler ever assigns [running_task]: the state a handler leaves is the
    state it found, so a server that starts idle never answers 429, and
    [/run] answers every valid request with 202 and starts a thread for
    it. *)
Theorem endpoints_gatekeeping : forall AUTOMATION_TOKEN,
  (forall ep req service s,
      let h := dispatch AUTOMATION_TOKEN ep req service s in
      state h = s
      /\ (check_token AUTOMATION_TOKEN req = false ->
          answer h = Ok unauthorized /\ calls h = [])
      /\ (calls h <> [] ->
          check_token AUTOMATION_TOKEN req = true
          /\ exists data user_id,
               request_data req = Ok data /\ py_get data "user_id" JNull = Ok user_id
               /\ truthy user_id = true))
  /\ (forall reqs h,
        In h (serve AUTOMATION_TOKEN reqs initial_server) ->
        state h = initial_server /\ status_of h <> Some 429%Z)
  /\ (forall req data user_id,
        check_token AUTOMATION_TOKEN req = true -> request_data req = Ok data ->
        py_get data "user_id" JNull = Ok user_id -> truthy user_id = true ->
        exists date,
          py_get data "date" JNull = Ok date
          /\ run_manual AUTOMATION_TOKEN req initial_server
             = Handled (Ok (JDict [("status", JStr "started"); ("user_id", user_id)], 202%Z))
                 [StartThread user_id date] initial_server).
Proof.
  intros tok. split; [|split].
  - intros ep req service s h. split; [apply dispatch_state|].
    split; [apply dispatch_unauthorized|apply dispatch_calls].
  - intros reqs h Hin. apply (serve_idle tok reqs initial_server h eq_refl Hin).
  - intros req data user_id Htok Hdata Huser Htruthy.
    destruct (py_get_dict data "user_id" JNull user_id "date" JNull Huser) as (date & Hdate).
    exists date. split; [exact Hdate|].
    unfold run_manual. rewrite Htok, Hdata. cbn [negb bind]. rewrite Huser. cbn [bind].
    rewrite Hdate. cbn [bind]. rewrite Htruthy. reflexivity.
Qed.


(** * The metrics run: alerts, failures and what it leaves alone *)

Lemma send_telegram_alert_one tg a : map alert_of (send_telegram_alert tg a) = [a].
Proof.
  unfold send_telegram_alert.
  destruct (tg_configured tg); cbn [negb]; [destruct (tg_post_ok tg)|]; reflexivity.
Qed.

(** X13.  A metrics run hands [send_telegram_alert] one alert at most.  A
    run that raises hands it exactly one, the error alert with the exception
    the run re-raises, at whatever step it failed; a run that ends normally
    hands it the zero-streams warning for the day of the run or nothing. *)
Theorem streams_run_alerts : forall w user_id day_override db,
  let day_iso := streams_day (s_today w) day_override in
  let o := run_streams_collection w user_id day_override db in
  (forall e, s_status o = Raise e -> map alert_of (s_alerts o) = [CollectionError e])
  /\ (s_status o = Ok tt ->
      map alert_of (s_alerts o) = [] \/ map alert_of (s_alerts o) = [ZeroStreams day_iso])
  /\ List.length (s_alerts o) <= 1.
Proof.
  intros w user_id day_override db day_iso o. subst o. unfold run_streams_collection.
  fold day_iso.
  assert (Hfail : forall e st,
             (forall e', s_status (streams_failed w e db st) = Raise e' ->
                         map alert_of (s_alerts (streams_failed w e db st))
                         = [CollectionError e'])
             /\ (s_status (streams_failed w e db st) = Ok tt ->
                 map alert_of (s_alerts (streams_failed w e db st)) = []
                 \/ map alert_of (s_alerts (streams_failed w e db st))
                    = [ZeroStreams day_iso])
             /\ List.length (s_alerts (streams_failed w e db st)) <= 1).
  { intros e st. destruct st as [st|]; cbn [streams_failed s_status s_alerts];
      (split; [intros e' H; injection H as <-; apply send_telegram_alert_one|]);
      (split; [discriminate|]);
      rewrite <- (length_map alert_of), send_telegram_alert_one; cbn; lia. }
  destruct (get_spotify_token (token_net w)); [|apply Hfail].
  destruct (sniffed w); [|apply Hfail].
  destruct (s_connect w); [|apply Hfail].
  destruct (loop_commit w); [|apply Hfail].
  destruct (refresh_view w); [|apply Hfail].
  destruct (final_commit w); [|apply Hfail].
  cbn [s_status s_alerts]. split; [discriminate|].
  match goal with
  | |- context [if ?c then _ else _] => destruct c
  end.
  - split; [intros _; right; apply send_telegram_alert_one|].
    rewrite <- (length_map alert_of), send_telegram_alert_one. cbn. lia.
  - split; [intros _; left; reflexivity|cbn; lia].
Qed.


Lemma run_streams_early w user_id day_override db e :
  get_spotify_token (token_net w) = Raise e
  \/ ((exists tok, get_spotify_token (token_net w) = Ok tok) /\ sniffed w = Raise e)
  \/ ((exists tok, get_spotify_token (token_net w) = Ok tok)
      /\ (exists web, sniffed w = Ok web) /\ s_connect w = Raise e) ->
  let o := run_streams_collection w user_id day_override db in
  s_status o = Raise e /\ s_db o = db /\ s_processed o = 0 /\ s_errors o = 0.
Proof.
  intros H o. subst o. unfold run_streams_collection.
  destruct H as [->|[((tok & ->) & ->)|((tok & ->) & (web & ->) & ->)]];
    cbn; repeat split.
Qed.

Lemma run_streams_late w user_id day_override db tok web :
  get_spotify_token (token_net w) = Ok tok -> sniffed w = Ok web -> s_connect w = Ok tt ->
  loop_commit w = Ok tt ->
  let o := run_streams_collection w user_id day_override db in
  (forall e, refresh_view w = Raise e -> s_status o = Raise e)
  /\ (forall e, refresh_view w = Ok tt -> final_commit w = Raise e -> s_status o = Raise e)
  /\ (refresh_view w = Ok tt -> final_commit w = Ok tt -> s_status o = Ok tt).
Proof.
  intros Ht Hs Hc Hl o. subst o. unfold run_streams_collection.
  rewrite Ht, Hs, Hc, Hl. repeat split.
  - intros e ->. reflexivity.
  - intros e -> ->. reflexivity.
  - intros -> ->. reflexivity.
Qed.

(** X14.  Where a metrics run fails decides what it leaves behind.  When
    the token, the web tokens or the connection cannot be had, or the commit
    after the loop fails, the run raises that exception and the tables are
    as before.  Once that commit has succeeded the rows of the run are
    durable: when the view refresh or the last commit then fails, the run
    still raises, with its rows in the table. *)
Theorem streams_failure_durability : forall w user_id day_override db,
  let rows :=
    stream_rows (s_io w) user_id (streams_day (s_today w) day_override)
      (catalogue user_id db) in
  let o := run_streams_collection w user_id day_override db in
  (forall e,
      get_spotify_token (token_net w) = Raise e
      \/ ((exists tok, get_spotify_token (token_net w) = Ok tok) /\ sniffed w = Raise e)
      \/ ((exists tok, get_spotify_token (token_net w) = Ok tok)
          /\ (exists web, sniffed w = Ok web) /\ s_connect w = Raise e) ->
      s_status o = Raise e /\ s_db o = db /\ s_processed o = 0 /\ s_errors o = 0)
  /\ (forall tok web,
        get_spotify_token (token_net w) = Ok tok -> sniffed w = Ok web ->
        s_connect w = Ok tt ->
        (forall e, loop_commit w = Raise e -> s_status o = Raise e /\ s_db o = db)
        /\ (loop_commit w = Ok tt ->
            s_db o = with_streams db rows
            /\ (forall e, refresh_view w = Raise e -> s_status o = Raise e)
            /\ (forall e, refresh_view w = Ok tt -> final_commit w = Raise e ->
                  s_status o = Raise e)
            /\ (refresh_view w = Ok tt -> final_commit w = Ok tt -> s_status o = Ok tt))).
Proof.
  intros w user_id day_override db rows o. split.
  - intros e H. apply (run_streams_early w user_id day_override db e H).
  - intros tok web Ht Hs Hc.
    destruct (run_streams_after_loop w user_id day_override db tok web Ht Hs Hc)
      as (_ & _ & Hbad & Hgood).
    split; [exact Hbad|]. intros Hl. split; [apply Hgood; exact Hl|].
    apply (run_streams_late w user_id day_override db tok web Ht Hs Hc Hl).
Qed.


Lemma run_streams_db_cases w user_id day_override db :
  let rows :=
    stream_rows (s_io w) user_id (streams_day (s_today w) day_override)
      (catalogue user_id db) in
  let o := run_streams_collection w user_id day_override db in
  (s_db o = db \/ s_db o = with_streams db rows)
  /\ ((s_processed o = 0 /\ s_errors o = 0)
      \/ (s_processed o = List.length rows
          /\ s_errors o = failed_tracks (s_io w) (catalogue user_id db))).
Proof.
  intros rows o.
  destruct (get_spotify_token (token_net w)) as [tok|e] eqn:Et.
  - destruct (sniffed w) as [web|e] eqn:Es.
    + destruct (s_connect w) as [[]|e] eqn:Ec.
      * destruct (run_streams_after_loop w user_id day_override db tok web Et Es Ec)
          as (Hp & He & Hbad & Hgood).
        split; [|right; split; assumption].
        destruct (loop_commit w) as [[]|e].
        -- right. apply Hgood. reflexivity.
        -- left. apply (Hbad e). reflexivity.
      * destruct (run_streams_early w user_id day_override db e) as (_ & H1 & H2 & H3);
          [right; right; eauto|auto].
    + destruct (run_streams_early w user_id day_override db e) as (_ & H1 & H2 & H3);
        [right; left; eauto|auto].
  - destruct (run_streams_early w user_id day_override db e) as (_ & H1 & H2 & H3);
      [left; exact Et|auto].
Qed.

Lemma stream_rows_uid io user_id day_iso : forall tracks r,
  In r (stream_rows io user_id day_iso tracks) ->
  In (s_track_uid r) (map (fun nt => track_uid (snd nt)) tracks).
Proof.
  induction tracks as [|[n t] tracks IH]; intros r Hin; [destruct Hin|].
  rewrite stream_rows_cons in Hin.
  destruct (track_metric (io n) t) as [[count|]|e]; try (right; apply IH; exact Hin).
  destruct Hin as [<-|Hin]; [left; reflexivity|right; apply IH; exact Hin].
Qed.

Lemma skipped_tracks_cons io n t rest :
  skipped_tracks io ((n, t) :: rest)
  = match track_metric (io n) t with
    | Ok None => 1 + skipped_tracks io rest
    | _ => skipped_tracks io rest
    end.
Proof. reflexivity. Qed.

Lemma stream_rows_count io user_id day_iso : forall tracks,
  List.length (stream_rows io user_id day_iso tracks) + failed_tracks io tracks
  + skipped_tracks io tracks = List.length tracks.
Proof.
  induction tracks as [|[n t] tracks IH]; [reflexivity|].
  rewrite stream_rows_cons, failed_tracks_cons, skipped_tracks_cons.
  destruct (track_metric (io n) t) as [[count|]|e]; cbn [List.length]; lia.
Qed.

Lemma stream_key_scope user_id day_iso db io r x :
  In x (stream_rows io user_id day_iso (catalogue user_id db)) ->
  stream_key r = stream_key x -> in_scope user_id day_iso db r.
Proof.
  intros Hx Hk. destruct (stream_rows_in _ _ _ _ _ Hx) as (H1 & H2 & _).
  pose proof (stream_rows_uid _ _ _ _ _ Hx) as H3.
  unfold stream_key in Hk. injection Hk as E1 E2 E3.
  unfold in_scope. rewrite E1, E2, E3. repeat split; assumption.
Qed.

(** X15.  Whatever its outcome, the metrics run leaves [track_dim] and
    [catalogue_health_status] as they are, removes no row of [streams] and
    adds at most one for each track of the user's catalogue.  It writes only
    under the platform [spotify], the day of the run and the uid of a track
    of that catalogue: a row under any other key is still there unchanged,
    and a key that is new is one of these. *)
Theorem streams_run_frame : forall w user_id day_override db,
  let day_iso := streams_day (s_today w) day_override in
  let o := run_streams_collection w user_id day_override db in
  track_dim (s_db o) = track_dim db
  /\ catalogue_health_status (s_db o) = catalogue_health_status db
  /\ List.length (streams db) <= List.length (streams (s_db o))
  /\ List.length (streams (s_db o))
     <= List.length (streams db) + List.length (catalogue user_id db)
  /\ (forall r, In r (streams db) -> ~ in_scope user_id day_iso db r ->
        In r (streams (s_db o)))
  /\ (forall r, In r (streams (s_db o)) ->
        In (stream_key r) (map stream_key (streams db)) \/ in_scope user_id day_iso db r).
Proof.
  intros w user_id day_override db day_iso o.
  destruct (run_streams_db_cases w user_id day_override db) as [[Hdb|Hdb] _];
    fold o in Hdb; fold day_iso in Hdb; rewrite Hdb.
  - repeat split; try lia; [intros r Hr _; exact Hr|].
    intros r Hr. left. apply in_map. exact Hr.
  - unfold with_streams. cbn [track_dim streams catalogue_health_status].
    set (rows := stream_rows (s_io w) user_id day_iso (catalogue user_id db)).
    pose proof (upsert_all_length _ same_stream_key merge_stream rows (streams db)) as Hlen.
    change (upsert same_stream_key merge_stream) with upsert_stream in Hlen.
    pose proof (stream_rows_count (s_io w) user_id day_iso (catalogue user_id db)) as Hcount.
    fold rows in Hcount.
    split; [reflexivity|]. split; [reflexivity|]. split; [lia|]. split; [lia|]. split.
    + intros r Hr Hout.
      apply (upsert_all_untouched _ same_stream_key merge_stream); [exact Hr|].
      intros x Hx. destruct (same_stream_key x r) eqn:E; [|reflexivity].
      exfalso. apply Hout. apply same_stream_key_spec in E.
      apply (stream_key_scope user_id day_iso db (s_io w) r x Hx). symmetry. exact E.
    + intros r Hr.
      destruct (upsert_all_origin _ _ stream_key same_stream_key merge_stream
                  merge_stream_key rows (streams db) r Hr) as [H|(x & Hx & Hk)];
        [left; exact H|].
      right. apply (stream_key_scope user_id day_iso db (s_io w) r x Hx Hk).
Qed.


(** X16.  The counters of a metrics run account for every track of the
    catalogue at most once: [processed] counts the tracks a counter was
    found and written for, [errors] the tracks whose processing raised, and
    a track with no candidate or no counter is in neither.  Once the tokens
    and the connection are there the three groups add up to the catalogue,
    whether or not the run then ends normally. *)
Theorem streams_run_accounting : forall w user_id day_override db,
  let o := run_streams_collection w user_id day_override db in
  s_processed o + s_errors o <= List.length (catalogue user_id db)
  /\ (forall tok web,
        get_spotify_token (token_net w) = Ok tok -> sniffed w = Ok web ->
        s_connect w = Ok tt ->
        s_processed o + s_errors o + skipped_tracks (s_io w) (catalogue user_id db)
        = List.length (catalogue user_id db)).
Proof.
  intros w user_id day_override db o.
  pose proof (stream_rows_count (s_io w) user_id
                (streams_day (s_today w) day_override) (catalogue user_id db)) as Hcount.
  split.
  - destruct (run_streams_db_cases w user_id day_override db) as [_ [[Hp He]|[Hp He]]];
      fold o in Hp, He; rewrite Hp, He; lia.
  - intros tok web Ht Hs Hc.
    destruct (run_streams_after_loop w user_id day_override db tok web Ht Hs Hc)
      as (Hp & He & _).
    fold o in Hp, He. rewrite Hp, He. exact Hcount.
Qed.


(** * The availability run: the tracks it checks and what it leaves alone *)

Lemma health_row_of_cases w user_id n t :
  (has_metadata t = false /\ health_row_of w user_id n t = Ok None)
  \/ (has_metadata t = true
      /\ ((exists row,
              health_row_of w user_id n t = Ok (Some row)
              /\ h_track_uid row = track_uid t /\ check_date row = h_today w
              /\ h_user_id row = user_id /\ updated_at row = None)
          \/ exists e, health_row_of w user_id n t = Raise e)).
Proof.
  unfold health_row_of, has_metadata.
  destruct ((String.length (title t) =? 0) || (String.length (artist t) =? 0));
    cbn [negb]; [left; auto|right].
  split; [reflexivity|].
  destruct (check_apple_music_api (artist t) (title t) (apple_net (h_io w n))) as [b|e];
    cbn [bind]; [left|right; eauto].
  eexists. split; [reflexivity|]. repeat split.
Qed.

Lemma health_rows_uids w user_id : forall tracks,
  exists rest,
    map track_uid (filter has_metadata (map snd tracks))
    = map h_track_uid (fst (health_rows w user_id tracks)) ++ rest
    /\ (snd (health_rows w user_id tracks) = None -> rest = []).
Proof.
  induction tracks as [|[n t] tracks (rest & IH1 & IH2)].
  - exists []. split; [reflexivity|auto].
  - rewrite health_rows_cons. cbn [map snd filter].
    destruct (health_row_of_cases w user_id n t)
      as [[Hm ->]|[Hm [(row & -> & Hu & _)|(e & ->)]]]; rewrite Hm.
    + exists rest. split; assumption.
    + exists rest. cbn [fst snd map app]. rewrite Hu, IH1. split; [reflexivity|exact IH2].
    + eexists. cbn [fst snd map app]. split; [reflexivity|discriminate].
Qed.

Lemma health_rows_scope w user_id db r :
  In r (fst (health_rows w user_id (catalogue user_id db))) ->
  health_in_scope user_id (h_today w) db r.
Proof.
  intros Hr. split; [apply (health_rows_in w user_id _ r Hr)|].
  destruct (health_rows_uids w user_id (catalogue user_id db)) as (rest & Hu & _).
  unfold checked_tracks. rewrite Hu. apply in_or_app. left. apply in_map. exact Hr.
Qed.

Lemma with_health_nil now db : with_health now db [] = db.
Proof. unfold with_health. cbn. apply database_eta. Qed.

Lemma committed_batches_incl {A : Type} (rows : list A) x :
  In x (committed_batches rows) -> In x rows.
Proof.
  destruct (committed_batches_split rows) as (rest & H & _). intros Hx.
  rewrite H. apply in_or_app. left. exact Hx.
Qed.

Lemma run_health_db_cases w user_id db :
  let rows := fst (health_rows w user_id (catalogue user_id db)) in
  let o := run_catalogue_health_check w user_id db in
  exists written,
    h_db o = with_health (h_now w) db written
    /\ (forall r, In r written -> In r rows)
    /\ List.length written <= List.length rows
    /\ h_checked o <= List.length rows
    /\ (h_status o = Ok tt ->
        written = rows /\ h_checked o = List.length rows
        /\ snd (health_rows w user_id (catalogue user_id db)) = None).
Proof.
  intros rows o.
  destruct (h_client w) as [[]|e] eqn:Ecl.
  - destruct (h_connect w) as [[]|e] eqn:Eco.
    + destruct (run_health_spec w user_id db Ecl Eco) as [Hn Hs].
      fold rows in Hn, Hs. fold o in Hn, Hs.
      destruct (snd (health_rows w user_id (catalogue user_id db))) as [e|].
      * destruct Hs as [Hs Hdb]. exists (committed_batches rows).
        split; [exact Hdb|]. split; [apply committed_batches_incl|].
        destruct (committed_batches_split rows) as (rest & H & _ & _).
        split; [rewrite H at 2; rewrite length_app; lia|]. split; [lia|].
        rewrite Hs. discriminate.
      * destruct Hs as [Hs Hdb]. exists rows. repeat split; auto; lia.
    + exists []. subst o. unfold run_catalogue_health_check. rewrite Ecl, Eco.
      cbn [h_db h_checked h_status]. rewrite with_health_nil.
      repeat split; try (cbn; lia); try discriminate; try (intros r []); try contradiction.
  - exists []. subst o. unfold run_catalogue_health_check. rewrite Ecl.
    cbn [h_db h_checked h_status]. rewrite with_health_nil.
    repeat split; try (cbn; lia); try discriminate; try (intros r []); try contradiction.
Qed.

(** X17.  The availability run checks the tracks of the catalogue that have
    both a title and an artist, in order, and passes over the others without
    a row or a count.  It never counts more tracks than these; a run that
    ends normally has counted them all and leaves, for each of them, a row
    for the day of the run. *)
Theorem health_run_coverage : forall w user_id db,
  let o := run_catalogue_health_check w user_id db in
  let rows := fst (health_rows w user_id (catalogue user_id db)) in
  h_checked o <= List.length (checked_tracks user_id db)
  /\ (h_status o = Ok tt ->
      h_checked o = List.length (checked_tracks user_id db)
      /\ map h_track_uid rows = map track_uid (checked_tracks user_id db)
      /\ forall t, In t (checked_tracks user_id db) ->
           In (h_today w, track_uid t)
              (map health_key (catalogue_health_status (h_db o)))).
Proof.
  intros w user_id db o rows.
  destruct (health_rows_uids w user_id (catalogue user_id db)) as (rest & Hu & Hnone).
  fold (checked_tracks user_id db) in Hu. fold rows in Hu.
  assert (Hlen : List.length rows <= List.length (checked_tracks user_id db)).
  { rewrite <- (length_map track_uid (checked_tracks user_id db)), Hu, length_app,
      length_map. lia. }
  destruct (run_health_db_cases w user_id db) as (written & Hdb & _ & _ & Hc & Hok).
  fold o in Hdb, Hc, Hok. fold rows in Hc, Hok.
  split; [lia|]. intros Hs. destruct (Hok Hs) as (-> & Hn & Hf).
  rewrite (Hnone Hf), app_nil_r in Hu.
  split; [rewrite Hn, <- (length_map h_track_uid rows), <- Hu, length_map; reflexivity|].
  split; [symmetry; exact Hu|].
  intros t Ht. rewrite Hdb. unfold with_health. cbn [catalogue_health_status].
  assert (Hin : In (track_uid t) (map h_track_uid rows))
    by (rewrite <- Hu; apply in_map; exact Ht).
  apply in_map_iff in Hin. destruct Hin as (r & Hr & Hin).
  assert (Hk : health_key r = (h_today w, track_uid t)).
  { unfold health_key. rewrite Hr, (health_rows_in w user_id _ r Hin). reflexivity. }
  rewrite <- Hk.
  apply (upsert_all_has_keys _ _ health_key same_health_key (merge_health (h_now w))
           same_health_key_spec (merge_health_key (h_now w))). exact Hin.
Qed.


Lemma health_key_scope w user_id db r x :
  In x (fst (health_rows w user_id (catalogue user_id db))) ->
  health_key r = health_key x -> health_in_scope user_id (h_today w) db r.
Proof.
  intros Hx Hk. destruct (health_rows_scope w user_id db x Hx) as [H1 H2].
  unfold health_key in Hk. injection Hk as E1 E2.
  unfold health_in_scope. rewrite E1, E2. split; assumption.
Qed.

(** X18.  Whatever its outcome, the availability run leaves [track_dim] and
    [streams] as they are, removes no row of [catalogue_health_status] and
    adds at most one for each track it checks.  It writes only under the day
    [date.today()] gave and the uid of a checked track: a row under any
    other key, such as one of an earlier day, is still there unchanged, and
    a key that is new is one of these. *)
Theorem health_run_frame : forall w user_id db,
  let o := run_catalogue_health_check w user_id db in
  let old := catalogue_health_status db in
  let new := catalogue_health_status (h_db o) in
  track_dim (h_db o) = track_dim db
  /\ streams (h_db o) = streams db
  /\ List.length old <= List.length new
  /\ List.length new <= List.length old + List.length (checked_tracks user_id db)
  /\ (forall r, In r old -> ~ health_in_scope user_id (h_today w) db r -> In r new)
  /\ (forall r, In r new ->
        In (health_key r) (map health_key old)
        \/ health_in_scope user_id (h_today w) db r).
Proof.
  intros w user_id db o old new.
  destruct (run_health_db_cases w user_id db) as (written & Hdb & Hsub & Hlen & _).
  fold o in Hdb. subst new. rewrite Hdb. unfold with_health.
  cbn [track_dim streams catalogue_health_status]. fold old.
  destruct (health_rows_uids w user_id (catalogue user_id db)) as (rest & Hu & _).
  fold (checked_tracks user_id db) in Hu.
  assert (Hrows : List.length (fst (health_rows w user_id (catalogue user_id db)))
                  <= List.length (checked_tracks user_id db)).
  { rewrite <- (length_map track_uid (checked_tracks user_id db)), Hu, length_app,
      length_map. lia. }
  pose proof (upsert_all_length _ same_health_key (merge_health (h_now w)) written old)
    as Hup.
  change (upsert same_health_key (merge_health (h_now w))) with (upsert_health (h_now w))
    in Hup.
  split; [reflexivity|]. split; [reflexivity|]. split; [lia|]. split; [lia|]. split.
  - intros r Hr Hout.
    apply (upsert_all_untouched _ same_health_key (merge_health (h_now w))); [exact Hr|].
    intros x Hx. destruct (same_health_key x r) eqn:E; [|reflexivity].
    exfalso. apply Hout. apply same_health_key_spec in E.
    apply (health_key_scope w user_id db r x (Hsub x Hx)). symmetry. exact E.
  - intros r Hr.
    destruct (upsert_all_origin _ _ health_key same_health_key (merge_health (h_now w))
                (merge_health_key (h_now w)) written old r Hr) as [H|(x & Hx & Hk)];
      [left; exact H|].
    right. apply (health_key_scope w user_id db r x (Hsub x Hx) Hk).
Qed.


(** * The Catalog B match rule *)










(** * The orchestrated run *)

Lemma health_wanted_spec w day_override :
  health_wanted w day_override = true <->
  override_day day_override = None
  \/ exists d, day_override = Some d /\ spelling d = w_now_iso w.
Proof.
  unfold health_wanted, override_day. destruct day_override as [d|]; [|split; auto].
  destruct (String.length (spelling d) =? 0); cbn [orb].
  - split; auto.
  - rewrite String.eqb_eq. split.
    + intros H. right. eauto.
    + intros [H|(d' & H & Hd)]; [discriminate|]. injection H as <-. exact Hd.
Qed.

(** X20.  [run_all_tasks] runs the availability check exactly when the
    metrics run and the playlist run both ended normally and either no date
    was given, [None] or the empty string, or the text given is, character
    for character, the ISO date the clock shows.  The comparison is one of
    strings: a text that spells another day, or today in another way, skips
    the check whatever day it names.  A run that skips the check, and a run
    that failed earlier, leaves [catalogue_health_status] as it is; no run
    changes [track_dim].  The run reports success exactly when every task it
    ran ended normally. *)
Theorem run_all_tasks_health_gate : forall w user_id day_override db,
  let so := run_streams_collection (w_streams w) user_id (override_day day_override) db in
  let o := run_all_tasks w user_id day_override db in
  (t_health o <> None <->
   s_status so = Ok tt /\ w_playlists w = Ok tt
   /\ (override_day day_override = None
       \/ exists d, day_override = Some d /\ spelling d = w_now_iso w))
  /\ (forall d,
        day_override = Some d -> spelling d <> "" -> spelling d <> w_now_iso w ->
        t_health o = None)
  /\ (t_health o = None ->
      catalogue_health_status (t_db o) = catalogue_health_status db)
  /\ track_dim (t_db o) = track_dim db
  /\ (t_status o = Success <->
      s_status so = Ok tt /\ w_playlists w = Ok tt
      /\ match t_health o with
         | Some ho => h_status ho = Ok tt
         | None => True
         end).
Proof.
  intros w user_id day_override db so o.
  destruct (run_streams_db_cases (w_streams w) user_id (override_day day_override) db)
    as [Hdb _].
  fold so in Hdb.
  assert (Hh : catalogue_health_status (s_db so) = catalogue_health_status db)
    by (destruct Hdb as [->| ->]; reflexivity).
  assert (Ht : track_dim (s_db so) = track_dim db)
    by (destruct Hdb as [->| ->]; reflexivity).
  pose proof (health_wanted_spec w day_override) as Hwanted.
  assert (Hother : forall d,
            day_override = Some d -> spelling d <> "" -> spelling d <> w_now_iso w ->
            health_wanted w day_override = false).
  { intros d -> He Hd. unfold health_wanted.
    rewrite (nonempty_length _ He). cbn [orb]. apply String.eqb_neq. exact Hd. }
  subst o. unfold run_all_tasks. fold so.
  destruct (s_status so) as [[]|e] eqn:Es.
  - destruct (w_playlists w) as [[]|e] eqn:Ep.
    + destruct (health_wanted w day_override) eqn:Ew.
      * destruct (run_health_db_cases (w_health w) user_id (s_db so))
          as (written & Hhdb & _).
        assert (Htd : track_dim (h_db (run_catalogue_health_check (w_health w) user_id
                                         (s_db so))) = track_dim db)
          by (rewrite Hhdb; exact Ht).
        destruct (h_status (run_catalogue_health_check (w_health w) user_id (s_db so)))
          as [[]|e] eqn:Ehs; cbn [t_health t_db t_status]; rewrite Ehs.
        -- split; [split; [intros _; split; [reflexivity|split; [reflexivity|]]
                          |discriminate]|].
           ++ apply Hwanted. reflexivity.
           ++ split; [intros d H1 H2 H3; specialize (Hother d H1 H2 H3); discriminate|].
              split; [discriminate|]. split; [exact Htd|]. tauto.
        -- split; [split; [intros _; split; [reflexivity|split; [reflexivity|]]
                          |discriminate]|].
           ++ apply Hwanted. reflexivity.
           ++ split; [intros d H1 H2 H3; specialize (Hother d H1 H2 H3); discriminate|].
              split; [discriminate|]. split; [exact Htd|].
              split; [discriminate|]. intros (_ & _ & H). discriminate.
      * cbn [t_health t_db t_status]. split.
        -- split; [intros H; destruct (H eq_refl)|].
           intros (_ & _ & H). apply Hwanted in H. discriminate.
        -- split; [reflexivity|]. split; [intros _; exact Hh|]. split; [exact Ht|]. tauto.
    + cbn [t_health t_db t_status]. split.
      * split; [intros H; destruct (H eq_refl)|]. intros (_ & H & _). discriminate.
      * split; [reflexivity|]. split; [intros _; exact Hh|]. split; [exact Ht|].
        split; [discriminate|]. intros (_ & H & _). discriminate.
  - cbn [t_health t_db t_status]. split.
    + split; [intros H; destruct (H eq_refl)|]. intros (H & _). discriminate.
    + split; [reflexivity|]. split; [intros _; exact Hh|]. split; [exact Ht|].
      split; [discriminate|]. intros (H & _). discriminate.
Qed.


(** * What the resolver reads from a candidate *)







(** * More on the similarity score *)

Lemma lower_upper_char c : lower_char (upper_char c) = lower_char c.
Proof.
  destruct c as [[|] [|] [|] [|] [|] [|] [|] [|]]; vm_compute; reflexivity.
Qed.

Lemma lower_lower_char c : lower_char (lower_char c) = lower_char c.
Proof.
  destruct c as [[|] [|] [|] [|] [|] [|] [|] [|]]; vm_compute; reflexivity.
Qed.

Lemma lower_upper s : lower (upper s) = lower s.
Proof.
  induction s as [|c s IH]; [reflexivity|]. cbn [upper lower].
  rewrite lower_upper_char, IH. reflexivity.
Qed.

Lemma lower_lower s : lower (lower s) = lower s.
Proof.
  induction s as [|c s IH]; [reflexivity|]. cbn [lower].
  rewrite lower_lower_char, IH. reflexivity.
Qed.

Lemma length_upper s : String.length (upper s) = String.length s.
Proof. induction s as [|c s IH]; simpl; congruence. Qed.

Lemma is_ascii_upper_char c :
  (nat_of_ascii (upper_char c) <? 128) = (nat_of_ascii c <? 128).
Proof.
  destruct c as [[|] [|] [|] [|] [|] [|] [|] [|]]; vm_compute; reflexivity.
Qed.

Lemma is_ascii_lower_char c :
  (nat_of_ascii (lower_char c) <? 128) = (nat_of_ascii c <? 128).
Proof.
  destruct c as [[|] [|] [|] [|] [|] [|] [|] [|]]; vm_compute; reflexivity.
Qed.

Lemma is_ascii_upper s : is_ascii (upper s) = is_ascii s.
Proof.
  unfold is_ascii, chars. induction s as [|c s IH]; [reflexivity|].
  cbn [upper list_ascii_of_string forallb]. rewrite is_ascii_upper_char, IH. reflexivity.
Qed.

Lemma is_ascii_lower s : is_ascii (lower s) = is_ascii s.
Proof.
  unfold is_ascii, chars. induction s as [|c s IH]; [reflexivity|].
  cbn [lower list_ascii_of_string forallb]. rewrite is_ascii_lower_char, IH. reflexivity.
Qed.

(** On ASCII text [lower()] maps the letters and keeps the length. *)
Lemma str_lower_ascii s :
  is_ascii s = true -> str_lower s = map N_of_ascii (chars (lower s)).
Proof. intros H. unfold str_lower. rewrite H. reflexivity. Qed.

Lemma length_str_lower_ascii s :
  is_ascii s = true -> List.length (str_lower s) = String.length s.
Proof.
  intros H. rewrite (str_lower_ascii s H), length_map, length_chars. apply length_lower.
Qed.

Lemma str_lower_upper s : is_ascii s = true -> str_lower (upper s) = str_lower s.
Proof.
  intros H. rewrite (str_lower_ascii s H), str_lower_ascii by (rewrite is_ascii_upper; exact H).
  rewrite lower_upper. reflexivity.
Qed.

Lemma str_lower_lower s : is_ascii s = true -> str_lower (lower s) = str_lower s.
Proof.
  intros H. rewrite (str_lower_ascii s H), str_lower_ascii by (rewrite is_ascii_lower; exact H).
  rewrite lower_lower. reflexivity.
Qed.

(** X22.  The score does not see the case of an ASCII text: putting it in
    upper or in lower case leaves its score against any other text as it
    is, whichever of the two arguments it is. *)
Theorem similar_ignores_case : forall a b,
  is_ascii a = true ->
  similar (upper a) b = similar a b
  /\ similar b (upper a) = similar b a
  /\ similar (lower a) b = similar a b
  /\ similar b (lower a) = similar b a.
Proof.
  intros a b Ha. unfold similar.
  rewrite !length_upper, !length_lower, !(str_lower_upper a Ha), !(str_lower_lower a Ha).
  auto.
Qed.

Lemma reaches_ratio_short (m la lb : nat) :
  m <= Nat.min la lb ->
  23 * Nat.min la lb < 17 * Nat.max la lb ->
  reaches (Difflib.calculate_ratio m (la + lb)) = false.
Proof.
  intros Hm Hshort. unfold Difflib.calculate_ratio.
  destruct (la + lb =? 0) eqn:E; [apply Nat.eqb_eq in E; lia|].
  apply Nat.eqb_neq in E.
  unfold reaches, threshold, Qle_bool. cbn [Qnum Qden].
  rewrite DifflibFacts.Zpos_of_nat by lia.
  apply Z.leb_gt. lia.
Qed.

(** X23.  Two texts of which one is much shorter than the other never pass
    the 0.85 threshold of the match rules, whatever they hold: when 23
    times the shorter length is below 17 times the longer one, that is when
    the shorter text has less than about 74% of the length of the longer,
    the score stays below the threshold.  The lengths are those of the two
    texts in lower case, counted in code points; for ASCII texts they are
    the lengths of the texts themselves. *)
Theorem similar_needs_comparable_lengths : forall a b,
  (23 * Nat.min (List.length (str_lower a)) (List.length (str_lower b))
   < 17 * Nat.max (List.length (str_lower a)) (List.length (str_lower b)) ->
   reaches (similar a b) = false)
  /\ (is_ascii a = true -> is_ascii b = true ->
      23 * Nat.min (String.length a) (String.length b)
      < 17 * Nat.max (String.length a) (String.length b) ->
      reaches (similar a b) = false).
Proof.
  intros a b.
  assert (H : 23 * Nat.min (List.length (str_lower a)) (List.length (str_lower b))
              < 17 * Nat.max (List.length (str_lower a)) (List.length (str_lower b)) ->
              reaches (similar a b) = false).
  { intros H. unfold similar.
    destruct ((String.length a =? 0) || (String.length b =? 0)); [reflexivity|].
    unfold Difflib.ratio.
    pose proof (DifflibFacts.matches_le N N.eq_dec (str_lower a) (str_lower b)) as [H1 H2].
    apply reaches_ratio_short; lia. }
  split; [exact H|]. intros Ha Hb Hshort. apply H.
  rewrite (length_str_lower_ascii a Ha), (length_str_lower_ascii b Hb). exact Hshort.
Qed.


(** X24.  The score is 1 exactly for two texts that are not empty and are
    the same once put in lower case: no two texts whose lower-case forms
    differ score 1. *)
Theorem similar_one_iff_equal : forall a b,
  (similar a b == 1)%Q <-> a <> "" /\ b <> "" /\ str_lower a = str_lower b.
Proof.
  intros a b. split.
  - unfold similar.
    destruct ((String.length a =? 0) || (String.length b =? 0)) eqn:E;
      [intros H; discriminate|].
    apply orb_false_iff in E. destruct E as [Ea Eb]. intros H. split; [|split].
    + intros ->. discriminate.
    + intros ->. discriminate.
    + apply (DifflibExact.ratio_one_equal N N.eq_dec _ _ H).
  - intros (Ha & Hb & Heq). apply similar_same_case; assumption.
Qed.


Lemma block_sound_sublists (A : Type) (eq_dec : forall x y : A, {x = y} + {x <> y})
    (a b : list A) i j k :
  block_sound eq_dec a b (i, j, k) ->
  firstn k (skipn i a) = firstn k (skipn j b)
  /\ List.length (firstn k (skipn i a)) = k.
Proof.
  intros H. unfold block_sound in H. split.
  - apply nth_error_ext. intros t. rewrite !nth_error_firstn, !nth_error_skipn.
    destruct (t <? k) eqn:E; [|reflexivity]. apply Nat.ltb_lt in E.
    specialize (H t E). apply DifflibSound.same_elt_true in H.
    destruct H as (u & -> & ->). reflexivity.
  - rewrite length_firstn, length_skipn.
    destruct k as [|k]; [reflexivity|].
    specialize (H k ltac:(lia)). apply DifflibSound.same_elt_true in H.
    destruct H as (u & Ha & _).
    assert (i + k < List.length a) by (apply nth_error_Some; congruence). lia.
Qed.

(** X25.  Every matching block the score is computed from is a stretch of
    the first text, in lower case, that occurs as it is in the second one.
    So a positive score needs a character the two lower-case texts share,
    and two texts with no such character score 0.  (The lower-case texts
    are taken not to be both empty, which those of two non-empty ASCII
    texts never are.) *)
Theorem similar_counts_common_text : forall a b,
  let A := str_lower a in
  let B := str_lower b in
  (forall i j k,
      In (i, j, k) (Difflib.get_matching_blocks N.eq_dec A B) ->
      firstn k (skipn i A) = firstn k (skipn j B)
      /\ List.length (firstn k (skipn i A)) = k)
  /\ (A <> [] \/ B <> [] -> (0 < similar a b)%Q -> exists c, In c A /\ In c B)
  /\ (A <> [] \/ B <> [] -> (forall c, In c A -> ~ In c B) -> (similar a b == 0)%Q)
  /\ (is_ascii a = true -> a <> "" -> A <> []).
Proof.
  intros a b A B.
  assert (Hpos : A <> [] \/ B <> [] -> (0 < similar a b)%Q -> exists c, In c A /\ In c B).
  { intros Hne. unfold similar.
    destruct ((String.length a =? 0) || (String.length b =? 0));
      [intros H; apply Qlt_irrefl in H; destruct H|].
    intros H. apply (DifflibSound.matches_positive N N.eq_dec).
    fold A B in H. unfold Difflib.ratio, Difflib.calculate_ratio in H.
    destruct (List.length A + List.length B =? 0) eqn:El.
    - apply Nat.eqb_eq in El. exfalso.
      destruct Hne as [Hne|Hne]; apply Hne; apply length_zero_iff_nil; lia.
    - unfold Qlt in H. cbn [Qnum Qden] in H. lia. }
  split; [|split; [|split]].
  - intros i j k Hin. apply (block_sound_sublists N N.eq_dec).
    pose proof (DifflibSound.get_matching_blocks_sound N N.eq_dec A B) as Hs.
    rewrite Forall_forall in Hs. apply (Hs _ Hin).
  - exact Hpos.
  - intros Hne Hno.
    destruct (Qlt_le_dec 0 (similar a b)) as [H|H].
    + destruct (Hpos Hne H) as (c & Ha & Hb). destruct (Hno c Ha Hb).
    + apply Qle_antisym; [exact H|]. apply similar_range.
  - intros Ha Hn HA. apply (f_equal (@List.length N)) in HA.
    unfold A in HA. rewrite (length_str_lower_ascii a Ha) in HA. cbn in HA.
    destruct a; [apply Hn; reflexivity|discriminate].
Qed.


(** * The queried code and its case *)

Lemma upper_upper_char c : upper_char (upper_char c) = upper_char c.
Proof.
  destruct c as [[|] [|] [|] [|] [|] [|] [|] [|]]; vm_compute; reflexivity.
Qed.

Lemma upper_lower_char c : upper_char (lower_char c) = upper_char c.
Proof.
  destruct c as [[|] [|] [|] [|] [|] [|] [|] [|]]; vm_compute; reflexivity.
Qed.

Lemma upper_upper s : upper (upper s) = upper s.
Proof.
  induction s as [|c s IH]; [reflexivity|]. cbn [upper].
  rewrite upper_upper_char, IH. reflexivity.
Qed.

Lemma upper_lower s : upper (lower s) = upper s.
Proof.
  induction s as [|c s IH]; [reflexivity|]. cbn [upper lower].
  rewrite upper_lower_char, IH. reflexivity.
Qed.

Lemma isrc_matches_same_upper isrc isrc' t :
  upper isrc' = upper isrc -> isrc_matches isrc' t = isrc_matches isrc t.
Proof. intros H. unfold isrc_matches. rewrite H. reflexivity. Qed.

Lemma find_exact_same_upper isrc isrc' :
  upper isrc' = upper isrc -> forall l, find_exact isrc' l = find_exact isrc l.
Proof.
  intros H. induction l as [|t l IH]; [reflexivity|].
  cbn [find_exact]. rewrite (isrc_matches_same_upper isrc isrc' t H), IH. reflexivity.
Qed.

Lemma resolve_same_upper isrc isrc' items :
  upper isrc' = upper isrc -> resolve isrc' items = resolve isrc items.
Proof.
  intros H. unfold resolve, select_best.
  destruct (negb (truthy items)); [reflexivity|].
  destruct (py_iter items) as [l|e]; cbn [bind]; [|reflexivity].
  rewrite (find_exact_same_upper isrc isrc' H). reflexivity.
Qed.

(** X26.  The case of the queried code plays no part in what [search_track]
    makes of an answer: for the same answer from the search endpoint, the
    code in upper case, in lower case or as given selects the same candidate
    and returns the same result.  Case is that of the ASCII letters, which
    are the letters of a code. *)
Theorem search_track_ignores_case : forall isrc,
  (forall t, isrc_matches (upper isrc) t = isrc_matches isrc t
             /\ isrc_matches (lower isrc) t = isrc_matches isrc t)
  /\ (forall items, select_best (upper isrc) items = select_best isrc items
                    /\ select_best (lower isrc) items = select_best isrc items)
  /\ (forall net, search_track (upper isrc) net = search_track isrc net
                  /\ search_track (lower isrc) net = search_track isrc net).
Proof.
  intros isrc. split; [|split].
  - intros t. split; apply isrc_matches_same_upper; [apply upper_upper|apply upper_lower].
  - intros items. unfold select_best.
    destruct (py_iter items) as [l|e]; cbn [bind]; [|auto].
    rewrite (find_exact_same_upper isrc (upper isrc) (upper_upper isrc)),
      (find_exact_same_upper isrc (lower isrc) (upper_lower isrc)). auto.
  - intros net. unfold search_track.
    destruct (request SPOTIFY_SEARCH_URL net) as [r|e]; cbn [bind]; [|auto].
    destruct (py_get (resp_json r) "tracks" (JDict [])) as [tracks|e]; cbn [bind]; [|auto].
    destruct (py_get tracks "items" (JList [])) as [items|e]; cbn [bind]; [|auto].
    split; apply resolve_same_upper; [apply upper_upper|apply upper_lower].
Qed.

(** * A connection that cannot be had *)

(** X27.  When the Spotify client or the database connection of the
    availability check cannot be set up, the check does not raise the
    cause: its handler reads [conn] before anything was assigned to it, so
    the caller receives [UnboundLocalError], with nothing checked and the
    tables as they were.  [run_all_tasks] then reports that error, after
    the metrics run has written its rows. *)
Theorem health_setup_failure_masks_cause : forall w user_id db e,
  h_client w = Raise e \/ h_connect w = Raise e ->
  let o := run_catalogue_health_check w user_id db in
  h_status o = Raise conn_unbound /\ h_db o = db /\ h_checked o = 0
  /\ forall tw day_override db0,
       w_health tw = w ->
       s_status (run_streams_collection (w_streams tw) user_id (override_day day_override)
                   db0) = Ok tt ->
       w_playlists tw = Ok tt ->
       override_day day_override = None
       \/ (exists d, day_override = Some d /\ spelling d = w_now_iso tw) ->
       t_status (run_all_tasks tw user_id day_override db0) = Error conn_unbound
       /\ t_db (run_all_tasks tw user_id day_override db0)
          = s_db (run_streams_collection (w_streams tw) user_id (override_day day_override)
                    db0).
Proof.
  intros w user_id db e Hfail o.
  assert (Hany : forall db', run_catalogue_health_check w user_id db'
                             = HealthOutcome (Raise conn_unbound) db' 0 0).
  { intros db'. unfold run_catalogue_health_check.
    destruct Hfail as [-> | ->]; [reflexivity|].
    destruct (h_client w) as [[]|e']; reflexivity. }
  subst o. rewrite Hany. cbn [h_status h_db h_checked].
  split; [reflexivity|]. split; [reflexivity|]. split; [reflexivity|].
  intros tw day_override db0 Hw Hs Hp Hday. unfold run_all_tasks.
  rewrite Hs, Hp, Hw.
  assert (Hwanted : health_wanted tw day_override = true)
    by (apply health_wanted_spec; exact Hday).
  rewrite Hwanted, Hany. cbn [h_status h_db t_status t_db]. auto.
Qed.


End WorkerFacts.

(** * Worked examples

    The examples are about ASCII text, on which every runtime agrees. *)

#[local] Existing Instance ascii_only.



Lemma executor_retry_contract_witness :
  exists evs,
    spotify_request_with_retries SPOTIFY_TOKEN_URL third_time_lucky = (Ok token_response, evs)
    /\ attempts_made evs = 3.
Proof.
  destruct (executor_retry_contract SPOTIFY_TOKEN_URL third_time_lucky) as (_ & H & _).
  apply (H 2 token_response).
  - lia.
  - intros k' Hk'. destruct k' as [|[|k']]; [reflexivity|reflexivity|lia].
  - reflexivity.
Defined.

(** C2 as stated fails: after three failed attempts the caller holds the
    very exception a single attempt raises, not the failure built after the
    loop; and a call whose three attempts all fail may leave the caller with
    the same exception as a call that fails for good on its first attempt. *)
Lemma exhausted_retries_counterexample :
  (forall k, k < 3 -> attempt_outcome (always_down k) = Raise (Exn ConnectionError "down"))
  /\ spotify_request_with_retries SPOTIFY_SEARCH_URL always_down
     = (Raise (Exn ConnectionError "down"),
        [Request 0; Warning 0 (Exn ConnectionError "down"); Sleep 1;
         Request 1; Warning 1 (Exn ConnectionError "down"); Sleep 2;
         Request 2; Warning 2 (Exn ConnectionError "down")])
  /\ Exn ConnectionError "down" <> all_retries_failed SPOTIFY_SEARCH_URL
  /\ attempts_made (snd (spotify_request_with_retries SPOTIFY_SEARCH_URL fatal_third)) = 3
  /\ attempts_made (snd (spotify_request_with_retries SPOTIFY_SEARCH_URL fatal_first)) = 1
  /\ request SPOTIFY_SEARCH_URL fatal_third = request SPOTIFY_SEARCH_URL fatal_first.
Proof.
  split; [intros; reflexivity|]. split; [reflexivity|]. split; [discriminate|].
  repeat split.
Qed.



Lemma rerun_overwrites_witness :
  streams (s_db second_run) = streams (s_db first_run)
  /\ List.length (filter (same_stream_key sample_stream_row) (streams (s_db second_run))) = 1
  /\ List.length
       (filter (same_health_key sample_health_row)
          (catalogue_health_status (h_db second_check))) = 1
  /\ exists r,
       In r (catalogue_health_status (h_db second_check))
       /\ same_health_key sample_health_row r = true.
Proof.
  destruct (rerun_overwrites sample_streams_world sample_health_world 1700000600%Z
              "user-1" None sample_db) as (_ & _ & Hs & Hh).
  destruct Hs as (_ & Hsame & _ & Hrows); [vm_compute; reflexivity|].
  destruct (Hrows sample_stream_row) as (Hone & _); [vm_compute; left; reflexivity|].
  destruct Hh as (_ & _ & _ & Hhrows); [vm_compute; reflexivity|].
  destruct (Hhrows sample_health_row) as (Hhone & Hex & _);
    [vm_compute; left; reflexivity|].
  split; [exact Hsame|]. split; [apply Hone; constructor|].
  split; [apply Hhone; constructor|exact Hex].
Defined.

Lemma playcount_extraction_contract_witness :
  extract_playcount (resp_json sample_album) (JStr "T1") = Ok (Some 4821%Z).
Proof.
  destruct playcount_extraction_contract as (H & _).
  destruct (H (resp_json sample_album)
              (JDict [("albumUnion",
                       JDict [("tracksV2",
                               JDict [("items",
                                       JList [metric_entry "spotify:track:T0" (Some (JStr "17"));
                                              metric_entry "spotify:track:T1"
                                                (Some (JStr "4821"))])])])])
              (JDict [("tracksV2",
                       JDict [("items",
                               JList [metric_entry "spotify:track:T0" (Some (JStr "17"));
                                      metric_entry "spotify:track:T1" (Some (JStr "4821"))])])])
              (JDict [("items",
                       JList [metric_entry "spotify:track:T0" (Some (JStr "17"));
                              metric_entry "spotify:track:T1" (Some (JStr "4821"))])])
              [metric_entry "spotify:track:T0" (Some (JStr "17"));
               metric_entry "spotify:track:T1" (Some (JStr "4821"))]
              (JStr "T1")) as (Hyes & _); [reflexivity..|].
  apply (proj2 (Hyes 4821%Z)).
  exists [metric_entry "spotify:track:T0" (Some (JStr "17"))],
         (metric_entry "spotify:track:T1" (Some (JStr "4821"))), [],
         (JDict [("uri", JStr "spotify:track:T1"); ("playcount", JStr "4821")]),
         (JStr "4821").
  repeat split. constructor; [reflexivity|constructor].
Defined.

(** C5 as stated fails twice.  An entry with the target URI whose counter is
    the integer 0, a valid non-negative integer, yields no metric; and a
    response whose [albumUnion] node is null does not yield "no metric": the
    extraction raises and the track is counted as an error. *)
Lemma playcount_extraction_counterexample :
  (fetch_album (answers zero_album) = Ok (resp_json zero_album)
   /\ extract_playcount (resp_json zero_album) (JStr "T1") = Ok None)
  /\ (fetch_album (answers null_album) = Ok (resp_json null_album)
      /\ extract_playcount (resp_json null_album) (JStr "T1")
         = Raise (Exn AttributeError "object has no attribute 'get'")
      /\ errors (streams_step (with_album null_album) "user-1" 19999%Z uid1
                   (fresh_state sample_db)) = 1).
Proof. repeat split. Qed.

Lemma batched_commit_contract_witness :
  h_checked (run_catalogue_health_check big_health_world "user-3" big_db) = 11
  /\ h_status (run_catalogue_health_check big_health_world "user-3" big_db)
     = Raise (Exn AttributeError "object has no attribute 'get'")
  /\ List.length
       (catalogue_health_status
          (h_db (run_catalogue_health_check big_health_world "user-3" big_db))) = 10.
Proof.
  destruct batched_commit_contract as (H & _).
  destruct (H big_health_world "user-3" big_db) as (Hn & _ & Hf); [reflexivity..|].
  split; [rewrite Hn; vm_compute; reflexivity|].
  assert (E : snd (health_rows big_health_world "user-3" (catalogue "user-3" big_db))
              = Some (Exn AttributeError "object has no attribute 'get'"))
    by (vm_compute; reflexivity).
  rewrite E in Hf. destruct Hf as [Hs Hdb].
  split; [exact Hs|]. rewrite Hdb. vm_compute. reflexivity.
Defined.

(** C3 as stated fails for the metrics run: twelve tracks are processed,
    nothing is committed while the loop runs, and when the commit after the
    loop fails not one of the twelve rows is durable. *)
Lemma batched_commit_counterexample :
  s_processed (run_streams_collection big_streams_world "user-3" None big_db) = 12
  /\ s_status (run_streams_collection big_streams_world "user-3" None big_db)
     = Raise lost_connection
  /\ streams (s_db (run_streams_collection big_streams_world "user-3" None big_db)) = []
  /\ List.length
       (streams
          (working
             (s_conn
                (streams_loop (s_io big_streams_world) "user-3" 19999%Z
                   (catalogue "user-3" big_db) (fresh_state big_db))))) = 12
  /\ streams
       (committed
          (s_conn
             (streams_loop (s_io big_streams_world) "user-3" 19999%Z
                (firstn 10 (catalogue "user-3" big_db)) (fresh_state big_db)))) = [].
Proof. vm_compute. repeat split. Qed.

Lemma per_track_failure_policy_witness :
  errors (streams_step (sample_track_io 1) "user-1" 19999%Z uid1 (fresh_state sample_db)) = 1
  /\ step_log (sample_track_io 1) "user-1" 19999%Z uid1 (fresh_state sample_db)
     = [("ISRC123", Exn ConnectionError "down")]
  /\ streams_step metrics_down "user-1" 19999%Z uid1 (fresh_state sample_db)
     = fresh_state sample_db.
Proof.
  destruct per_track_failure_policy as (H1 & H2 & _).
  destruct (H1 (sample_track_io 1) "user-1" 19999%Z uid1 (fresh_state sample_db))
    as (e & _ & Hm & Hlog & Hstep); [intros k Hk; reflexivity|].
  assert (He : e = Exn ConnectionError "down")
    by (vm_compute in Hm; injection Hm as <-; reflexivity).
  subst e. split; [rewrite Hstep; reflexivity|]. split; [exact Hlog|].
  apply (H2 metrics_down "user-1" 19999%Z uid1 (fresh_state sample_db)
           (TrackInfo (JStr "T1") (JStr "A1") (JStr "Song") (Some "Ann & Bob"))).
  - reflexivity.
  - intros k Hk. reflexivity.
Defined.

(** C6 as stated fails for two of its three calls.  With the metrics
    endpoint down on every attempt the run ends with an error count of 0.
    With both availability calls failing the availability run writes its row
    and its error count is 0 as well.  And an availability failure can abort
    the run: when Catalog A answers the twelfth track with a body that is no
    object, the run stops there and raises. *)
Lemma per_track_failure_counterexample :
  (forall k, k < 3 -> retried (album_net metrics_down k) = true)
  /\ s_status (run_streams_collection metrics_down_world "user-2" None sample_db) = Ok tt
  /\ s_errors (run_streams_collection metrics_down_world "user-2" None sample_db) = 0
  /\ s_processed (run_streams_collection metrics_down_world "user-2" None sample_db) = 0
  /\ h_status (run_catalogue_health_check checks_down_world "user-2" sample_db) = Ok tt
  /\ h_errors (run_catalogue_health_check checks_down_world "user-2" sample_db) = 0
  /\ catalogue_health_status
       (h_db (run_catalogue_health_check checks_down_world "user-2" sample_db))
     = [HealthRow 20000%Z "uid-3" false false "user-2" None]
  /\ check_apple_music_api "Ann" "Song" (apple_net (big_health_io 11)) = Raise no_get
  /\ h_status (run_catalogue_health_check big_health_world "user-3" big_db) = Raise no_get
  /\ h_checked (run_catalogue_health_check big_health_world "user-3" big_db) = 11
  /\ h_errors (run_catalogue_health_check big_health_world "user-3" big_db) = 0.
Proof. split; [intros; reflexivity|vm_compute; repeat split]. Qed.

Lemma anomaly_alert_policy_witness :
  anomaly_alerted (run_streams_collection silent_world "user-2" None sample_db) = true
  /\ s_processed (run_streams_collection sample_streams_world "user-2" None sample_db)
     = 1
  /\ anomaly_alerted
       (run_streams_collection silent_refresh_fails_world "user-2" None sample_db) = false.
Proof.
  destruct (anomaly_alert_policy silent_world "user-2" None sample_db)
    as (_ & [_ Hyes] & _).
  destruct (anomaly_alert_policy sample_streams_world "user-2" None sample_db)
    as (_ & _ & Hcount & _).
  destruct (anomaly_alert_policy silent_refresh_fails_world "user-2" None sample_db)
    as (_ & _ & _ & Hlate & _).
  split; [|split].
  - apply Hyes. vm_compute. repeat split. lia.
  - destruct Hcount as (Hp & _); [vm_compute; reflexivity|]. rewrite Hp.
    vm_compute. reflexivity.
  - destruct (Hlate (JStr "BQD-token") ("web-token", Some "client-token") view_locked)
      as (_ & _ & _ & _ & _ & Hno);
      [reflexivity|reflexivity|reflexivity|reflexivity|left; reflexivity|exact Hno].
Defined.

(** C7 as stated fails in both directions of its "if and only if".  When
    the view refresh fails the run has committed its rows before: it has
    persisted a snapshot, its processed count is 1 and its total is 0, and
    yet the only alert is the error alert.  And when the bot is not
    configured a run that ends normally with processed count 1 and total 0
    sends nothing at all. *)
Lemma anomaly_alert_counterexample :
  (streams (s_db (run_streams_collection silent_refresh_fails_world "user-2" None sample_db))
   = [StreamRow "spotify" "uid-3" 19999%Z 0%Z "user-2"]
   /\ s_processed (run_streams_collection silent_refresh_fails_world "user-2" None sample_db)
      = 1
   /\ s_total (run_streams_collection silent_refresh_fails_world "user-2" None sample_db)
      = 0%Z
   /\ s_alerts (run_streams_collection silent_refresh_fails_world "user-2" None sample_db)
      = [Sent (CollectionError view_locked)]
   /\ anomaly_alerted
        (run_streams_collection silent_refresh_fails_world "user-2" None sample_db) = false)
  /\ (s_status (run_streams_collection silent_unconfigured_world "user-2" None sample_db)
      = Ok tt
      /\ s_processed (run_streams_collection silent_unconfigured_world "user-2" None sample_db)
         = 1
      /\ s_total (run_streams_collection silent_unconfigured_world "user-2" None sample_db)
         = 0%Z
      /\ s_alerts (run_streams_collection silent_unconfigured_world "user-2" None sample_db)
         = [NotConfigured (ZeroStreams 19999%Z)]
      /\ anomaly_alerted
           (run_streams_collection silent_unconfigured_world "user-2" None sample_db)
         = false).
Proof. vm_compute. repeat split. Qed.

Lemma default_snapshot_dates_witness :
  stream_date sample_stream_row <> check_date sample_health_row
  /\ t_db (run_all_tasks sample_world "user-1" None sample_db)
     = Database (track_dim sample_db) [sample_stream_row] [sample_health_row].
Proof.
  destruct (default_snapshot_dates sample_world "user-1" sample_db)
    as (_ & _ & Hdb & Hdiff).
  split.
  - apply Hdiff; [vm_compute; discriminate| |]; vm_compute; left; reflexivity.
  - rewrite Hdb by (vm_compute; reflexivity). vm_compute. reflexivity.
Defined.

Lemma executor_backoff_witness :
  slept (snd (spotify_request_with_retries SPOTIFY_SEARCH_URL always_down)) = 3
  /\ warnings (snd (spotify_request_with_retries SPOTIFY_SEARCH_URL always_down)) = 3.
Proof.
  destruct (executor_backoff SPOTIFY_SEARCH_URL always_down) as (_ & Hs & _ & Hw).
  split.
  - rewrite Hs. reflexivity.
  - destruct Hw as [_ Hw]. rewrite Hw; [reflexivity|]. intros k Hk. reflexivity.
Defined.

Lemma executor_returns_success_witness :
  exists k, k < 3 /\ third_time_lucky k = Responds token_response.
Proof.
  destruct (executor_returns_success SPOTIFY_TOKEN_URL third_time_lucky token_response)
    as (_ & k & Hk & E & _); [reflexivity|].
  exists k. split; [exact Hk|exact E].
Defined.

Lemma sniff_tokens_first_response_witness :
  sniff_tokens sample_browser = Ok ("BQC-web", Some "AAB-client").
Proof.
  pose proof (sniff_tokens_first_response sample_browser eq_refl eq_refl) as H.
  cbn in H. destruct H as (tok & Hauth & H).
  injection Hauth as <-. exact H.
Defined.

Lemma sniffed_tokens_round_trip_witness :
  header "Authorization" (fetch_album_headers "BQC-web" (Some "AAB-client"))
  = Some "Bearer BQC-web"
  /\ header "Client-Token" (fetch_album_headers "BQC-web" (Some "AAB-client"))
     = Some "AAB-client".
Proof.
  destruct (sniffed_tokens_round_trip sample_browser "BQC-web" (Some "AAB-client"))
    as (resp & Hf & Ha & _ & Hc); [reflexivity|].
  cbn in Hf. injection Hf as <-. split; [exact Ha|exact Hc].
Defined.

Lemma strip_uri_contract_witness :
  PlaylistFollowers.strip_uri "spotify:playlist:37i9dQZF1DX" = Ok "37i9dQZF1DX"
  /\ PlaylistFollowers.strip_uri "37i9dQZF1DX" = Ok "37i9dQZF1DX".
Proof.
  destruct (strip_uri_contract "37i9dQZF1DX") as (Hplain & Huri & _).
  split.
  - apply (Huri "37i9dQZF1DX"). cbn. intros H.
    repeat (destruct H as [H|H]; [discriminate|]). exact H.
  - apply Hplain. reflexivity.
Defined.

Lemma get_playlist_followers_cases_witness :
  PlaylistFollowers.get_playlist_followers (sample_playlist_io 0) "37i9dQZF1DX" = JInt 1234
  /\ PlaylistFollowers.get_playlist_followers (sample_playlist_io 1) "5ABC" = JNull.
Proof.
  destruct (get_playlist_followers_cases (sample_playlist_io 0) "37i9dQZF1DX")
    as (_ & _ & H200).
  destruct (get_playlist_followers_cases (sample_playlist_io 1) "5ABC") as (_ & H404 & _).
  split.
  - rewrite (H200 (followers_response 1234)); reflexivity.
  - apply (H404 (Response 404 (JDict [("error", JDict [("status", JInt 404)])])));
      [reflexivity|discriminate].
Defined.

Lemma playlist_run_accounting_witness :
  PlaylistFollowers.p_processed
    (PlaylistFollowers.run_playlist_followers_collection sample_playlist_world "user-1" None
       sample_tables) = 1
  /\ PlaylistFollowers.p_errors
       (PlaylistFollowers.run_playlist_followers_collection sample_playlist_world "user-1"
          None sample_tables) = 1.
Proof.
  destruct (playlist_run_accounting sample_playlist_world "user-1" None sample_tables)
    as (_ & H).
  destruct H as (Hsum & Hp & _); [reflexivity|].
  split; [rewrite Hp; reflexivity|].
  apply (proj1 (Nat.add_cancel_l _ _
                  (PlaylistFollowers.p_processed
                     (PlaylistFollowers.run_playlist_followers_collection
                        sample_playlist_world "user-1" None sample_tables)))).
  rewrite Hsum. reflexivity.
Defined.

Lemma playlist_run_failure_witness :
  PlaylistFollowers.p_status
    (PlaylistFollowers.run_playlist_followers_collection sample_playlist_world "user-1" None
       sample_tables) = Ok tt
  /\ PlaylistFollowers.p_db
       (PlaylistFollowers.run_playlist_followers_collection sample_playlist_world "user-2"
          None sample_tables) = sample_tables
  /\ PlaylistFollowers.p_status
       (PlaylistFollowers.run_playlist_followers_collection object_total_world "user-1" None
          sample_tables) = Raise PlaylistFollowers.cannot_adapt.
Proof.
  destruct (playlist_run_failure sample_playlist_world "user-1" None sample_tables)
    as ([_ Hok] & _).
  destruct (playlist_run_failure sample_playlist_world "user-2" None sample_tables)
    as (_ & _ & _ & Hfail & _).
  destruct (playlist_run_failure object_total_world "user-1" None sample_tables)
    as (_ & _ & Hdict & _).
  split; [|split].
  - apply Hok. split; [eexists; reflexivity|]. split; [reflexivity|].
    split; [|reflexivity].
    intros np [<-|[<-|[]]].
    + exists "spotify:playlist:37i9dQZF1DX", "37i9dQZF1DX".
      split; [reflexivity|]. split; [reflexivity|]. right. split; reflexivity.
    + exists "5ABC", "5ABC". split; [reflexivity|]. split; [reflexivity|]. left. reflexivity.
  - apply (Hfail PlaylistFollowers.no_startswith). reflexivity.
  - destruct (Hdict 0
                (PlaylistFollowers.PlaylistRow "pl-1" (Some "spotify:playlist:37i9dQZF1DX")
                   "Focus" "spotify" "user-1")
                "spotify:playlist:37i9dQZF1DX" "37i9dQZF1DX" [("value", JInt 5)])
      as (e & He); [reflexivity|reflexivity|reflexivity|left; reflexivity|].
    rewrite He. vm_compute in He. injection He as <-. reflexivity.
Defined.

Lemma playlist_rerun_idempotent_witness :
  PlaylistFollowers.playlist_followers
    (PlaylistFollowers.p_db
       (PlaylistFollowers.run_playlist_followers_collection sample_playlist_world "user-1"
          None
          (PlaylistFollowers.p_db
             (PlaylistFollowers.run_playlist_followers_collection sample_playlist_world
                "user-1" None sample_tables))))
  = [sample_follower_row].
Proof.
  destruct (playlist_rerun_idempotent sample_playlist_world "user-1" None sample_tables)
    as (_ & Hdb & _); [reflexivity|].
  rewrite Hdb. reflexivity.
Defined.

Lemma playlist_run_frame_witness :
  In (PlaylistFollowers.FollowerRow "spotify" "pl-1" 19999%Z (JInt 1200) "user-1")
     (PlaylistFollowers.playlist_followers
        (PlaylistFollowers.p_db
           (PlaylistFollowers.run_playlist_followers_collection sample_playlist_world
              "user-1" None
              (PlaylistFollowers.Tables (PlaylistFollowers.user_playlists sample_tables)
                 [PlaylistFollowers.FollowerRow "spotify" "pl-1" 19999%Z (JInt 1200)
                    "user-1"])))).
Proof.
  destruct (playlist_run_frame sample_playlist_world "user-1" None
              (PlaylistFollowers.Tables (PlaylistFollowers.user_playlists sample_tables)
                 [PlaylistFollowers.FollowerRow "spotify" "pl-1" 19999%Z (JInt 1200)
                    "user-1"])) as (_ & _ & Hkeep & _).
  apply Hkeep; [left; reflexivity|].
  intros (_ & Hday & _). discriminate.
Defined.

Lemma check_token_policy_witness :
  check_token (Some "secret") sample_request = true
  /\ check_token (Some "secret") stale_header_request = false.
Proof.
  destruct (check_token_policy (Some "secret") sample_request) as (_ & H1).
  destruct (check_token_policy (Some "secret") stale_header_request) as (_ & H2).
  split.
  - apply (H1 "secret" eq_refl); [discriminate|]. left. reflexivity.
  - apply not_true_is_false. intros E.
    apply (H2 "secret" eq_refl) in E; [|discriminate].
    destruct E as [E|[E _]]; discriminate.
Defined.

Lemma endpoints_gatekeeping_witness :
  answer (dispatch (Some "secret") RunHealthOnly stale_header_request (Ok tt) initial_server)
  = Ok unauthorized
  /\ calls (run_manual (Some "secret") sample_request initial_server)
     = [StartThread (JStr "user-1") (JStr "2024-05-01")].
Proof.
  destruct (endpoints_gatekeeping (Some "secret")) as (Hgate & _ & Hrun).
  split.
  - destruct (Hgate RunHealthOnly stale_header_request (Ok tt) initial_server)
      as (_ & H403 & _).
    apply H403. reflexivity.
  - destruct (Hrun sample_request
                (JDict [("user_id", JStr "user-1"); ("date", JStr "2024-05-01")])
                (JStr "user-1")) as (date & Hdate & ->); try reflexivity.
    cbn in Hdate. injection Hdate as <-. reflexivity.
Defined.

Lemma streams_run_alerts_witness :
  map alert_of (s_alerts (run_streams_collection big_streams_world "user-3" None big_db))
  = [CollectionError lost_connection]
  /\ map alert_of (s_alerts (run_streams_collection silent_world "user-2" None sample_db))
     = [ZeroStreams 19999%Z].
Proof.
  destruct (streams_run_alerts big_streams_world "user-3" None big_db) as (Hfail & _).
  destruct (streams_run_alerts silent_world "user-2" None sample_db) as (_ & Hok & _).
  split.
  - apply Hfail. vm_compute. reflexivity.
  - destruct Hok as [H|H]; [vm_compute; reflexivity| |exact H].
    vm_compute in H. discriminate.
Defined.

Lemma streams_failure_durability_witness :
  s_status (run_streams_collection refresh_fails_world "user-1" None sample_db)
  = Raise view_locked
  /\ streams (s_db (run_streams_collection refresh_fails_world "user-1" None sample_db))
     = [sample_stream_row].
Proof.
  destruct (streams_failure_durability refresh_fails_world "user-1" None sample_db)
    as (_ & H).
  destruct (H (JStr "BQD-token") ("web-token", Some "client-token") eq_refl eq_refl eq_refl)
    as (_ & Hl).
  destruct (Hl eq_refl) as (Hdb & Href & _).
  split; [apply Href; reflexivity|]. rewrite Hdb. vm_compute. reflexivity.
Defined.

Lemma streams_run_frame_witness :
  In yesterday_row
    (streams (s_db (run_streams_collection sample_streams_world "user-1" None
                      db_with_history)))
  /\ List.length
       (streams (s_db (run_streams_collection sample_streams_world "user-1" None
                         db_with_history))) = 2.
Proof.
  destruct (streams_run_frame sample_streams_world "user-1" None db_with_history)
    as (_ & _ & _ & _ & Hkeep & _).
  split.
  - apply Hkeep; [left; reflexivity|]. intros (_ & Hday & _). discriminate.
  - vm_compute. reflexivity.
Defined.

Lemma streams_run_accounting_witness :
  s_processed (run_streams_collection metrics_down_world "user-1" None sample_db)
  + s_errors (run_streams_collection metrics_down_world "user-1" None sample_db)
  + 2 = 2.
Proof.
  destruct (streams_run_accounting metrics_down_world "user-1" None sample_db) as (_ & H).
  apply (H (JStr "BQD-token") ("web-token", Some "client-token")); reflexivity.
Defined.

Lemma health_run_coverage_witness :
  h_checked (run_catalogue_health_check sample_health_world "user-1" sample_db) = 1
  /\ In (20000%Z, "uid-1")
        (map health_key
           (catalogue_health_status
              (h_db (run_catalogue_health_check sample_health_world "user-1" sample_db)))).
Proof.
  destruct (health_run_coverage sample_health_world "user-1" sample_db) as (_ & H).
  destruct H as (Hn & _ & Hrow); [vm_compute; reflexivity|].
  split; [rewrite Hn; reflexivity|].
  apply (Hrow (TrackRow "uid-1" "ISRC123" "Song" "Ann" "user-1")). left. reflexivity.
Defined.

Lemma health_run_frame_witness :
  In earlier_health_row
    (catalogue_health_status
       (h_db (run_catalogue_health_check sample_health_world "user-1"
                db_with_health_history))).
Proof.
  destruct (health_run_frame sample_health_world "user-1" db_with_health_history)
    as (_ & _ & _ & _ & Hkeep & _).
  apply Hkeep; [left; reflexivity|]. intros [Hday _]. discriminate.
Defined.


Lemma run_all_tasks_health_gate_witness :
  t_health (run_all_tasks backfill_world "user-1" (Some today_compact) sample_db) = None
  /\ catalogue_health_status
       (t_db (run_all_tasks backfill_world "user-1" (Some yesterday_iso) sample_db)) = []
  /\ t_status (run_all_tasks backfill_world "user-1" (Some yesterday_iso) sample_db) = Success
  /\ t_health (run_all_tasks backfill_world "user-1" (Some today_iso) sample_db) <> None.
Proof.
  destruct (run_all_tasks_health_gate backfill_world "user-1" (Some today_compact) sample_db)
    as (_ & Hskip & _).
  destruct (run_all_tasks_health_gate backfill_world "user-1" (Some yesterday_iso) sample_db)
    as (_ & _ & Hkeep & _ & Hok).
  destruct (run_all_tasks_health_gate backfill_world "user-1" (Some today_iso) sample_db)
    as ([_ Hruns] & _).
  split; [|split; [|split]].
  - apply (Hskip today_compact); [reflexivity|discriminate|discriminate].
  - apply Hkeep. reflexivity.
  - apply Hok. vm_compute. auto.
  - apply Hruns. split; [vm_compute; reflexivity|]. split; [reflexivity|].
    right. exists today_iso. split; reflexivity.
Defined.


Lemma similar_ignores_case_witness :
  similar (upper "Daft Punk") "daft punk" = similar "Daft Punk" "daft punk"
  /\ upper "Daft Punk" = "DAFT PUNK".
Proof.
  destruct (similar_ignores_case "Daft Punk" "daft punk") as (H & _); [reflexivity|].
  split; [exact H|reflexivity].
Defined.

Lemma similar_needs_comparable_lengths_witness :
  reaches (similar "Song" "Song (Remastered 2011)") = false.
Proof.
  destruct (similar_needs_comparable_lengths "Song" "Song (Remastered 2011)") as (_ & H).
  apply H; [reflexivity|reflexivity|cbn; lia].
Defined.

Lemma similar_one_iff_equal_witness :
  (similar "Daft Punk" "DAFT PUNK" == 1)%Q /\ ~ (similar "Daft Punk" "Daft Punks" == 1)%Q.
Proof.
  destruct (similar_one_iff_equal "Daft Punk" "DAFT PUNK") as [_ Hfrom].
  destruct (similar_one_iff_equal "Daft Punk" "Daft Punks") as [Hno _].
  split.
  - apply Hfrom. split; [discriminate|]. split; [discriminate|reflexivity].
  - intros H. destruct (Hno H) as (_ & _ & Heq). vm_compute in Heq. discriminate.
Defined.

Lemma similar_counts_common_text_witness : (similar "ABBA" "Queen" == 0)%Q.
Proof.
  destruct (similar_counts_common_text "ABBA" "Queen") as (_ & _ & H & _).
  apply H; [left; vm_compute; discriminate|].
  intros c Ha Hb. vm_compute in Ha, Hb.
  repeat (destruct Ha as [<-|Ha];
          [repeat (destruct Hb as [Hb|Hb]; [discriminate|]); exact Hb|]).
  exact Ha.
Defined.

Lemma health_setup_failure_masks_cause_witness :
  t_status (run_all_tasks no_database_world "user-1" None sample_db) = Error conn_unbound
  /\ streams (t_db (run_all_tasks no_database_world "user-1" None sample_db))
     = [sample_stream_row].
Proof.
  destruct (health_setup_failure_masks_cause (w_health no_database_world) "user-1" sample_db
              database_url_not_set) as (_ & _ & _ & H); [right; reflexivity|].
  destruct (H no_database_world None sample_db) as [Hs Hdb];
    [reflexivity|vm_compute; reflexivity|reflexivity|left; reflexivity|].
  split; [exact Hs|]. rewrite Hdb. vm_compute. reflexivity.
Defined.
